(** * RO-Desalination: the pressure predictor of [client/src/pages/Home.tsx]

    A shallow embedding of the domain logic of the [Home] component:
    [ensureNumber] (lines 34-37), the six [onChange] handlers that feed
    [formData] (lines 295-371) and [calculateMinimumPressure] (lines 71-108);
    further down, the loader of the sample data (lines 40-66) and what the
    component renders of its state.

    JavaScript numbers are IEEE 754 binary64 values, so they are embedded as
    Rocq's primitive [float]s, whose operations are the processor's; general
    facts about them go through [Prim2SF] and the reference implementation
    [SpecFloat] of the Standard Library.  The built-ins the source calls
    ([parseFloat], [isNaN], [Number.prototype.toFixed], [Math.sqrt],
    [Math.abs]) follow ECMA-262. *)

From Stdlib Require Import ZArith NArith PArith Bool List Lia String Ascii.
From Stdlib Require Import Floats.
Import ListNotations.

#[local] Set Warnings "-inexact-float".
#[local] Open Scope Z_scope.

(** ** Completions: a JavaScript call returns normally or throws *)

Inductive JSError : Set :=
| RangeError
| TypeError.

Definition Completion (A : Type) : Type := (JSError + A)%type.

Definition ret {A : Type} (a : A) : Completion A := inr a.

Definition throw {A : Type} (e : JSError) : Completion A := inl e.

Definition bind {A B : Type} (c : Completion A) (k : A -> Completion B) : Completion B :=
  match c with
  | inl e => inl e
  | inr a => k a
  end.

Notation "x <- c ;; k" := (bind c (fun x => k))
  (at level 61, c at next level, right associativity).

(** ** Strings: sequences of UTF-16 code units *)

Definition code_unit : Set := N.

Definition JSString : Set := list code_unit.

(** The JavaScript string written as the ASCII literal [s]. *)
Definition str (s : string) : JSString :=
  List.map N_of_ascii (list_ascii_of_string s).

(** WhiteSpace and LineTerminator of ECMA-262 (12.2, 12.3): TAB, LF, VT, FF,
    CR, SP, NBSP, the Unicode space separators, LS, PS and ZWNBSP. *)
Definition is_white_space (c : code_unit) : bool :=
  existsb (N.eqb c)
    [9; 10; 11; 12; 13; 32; 160; 5760; 8192; 8193; 8194; 8195; 8196; 8197;
     8198; 8199; 8200; 8201; 8202; 8232; 8233; 8239; 8287; 12288; 65279]%N.

(** TrimString(s, start). *)
Fixpoint trim_start (s : JSString) : JSString :=
  match s with
  | c :: s' => if is_white_space c then trim_start s' else s
  | [] => []
  end.

(** ** Decimal digits *)

Definition is_digit (c : code_unit) : bool := ((48 <=? c) && (c <=? 57))%N.

Definition digit_val (c : code_unit) : N := (c - 48)%N.

Definition digit_char (d : N) : code_unit := (48 + d)%N.

(** The value of a sequence of digits, most significant first. *)
Definition digits_value (ds : list N) : N :=
  fold_left (fun acc d => (10 * acc + d)%N) ds 0%N.

Fixpoint digits_fuel (fuel : nat) (n : N) (acc : list N) : list N :=
  match fuel with
  | O => acc
  | S fuel' =>
      let acc' := (n mod 10)%N :: acc in
      if (n / 10 =? 0)%N then acc' else digits_fuel fuel' (n / 10)%N acc'
  end.

(** The decimal representation of [n], most significant digit first, with no
    leading zero; the single digit 0 for [n = 0]. *)
Definition decimal_digits (n : N) : list N :=
  digits_fuel (S (N.to_nat (N.log2 n))) n [].

Definition digits_string (ds : list N) : JSString := List.map digit_char ds.

(** The longest prefix of [s] made of decimal digits (as digit values), and
    what follows it. *)
Fixpoint span_digits (s : JSString) : list N * JSString :=
  match s with
  | c :: s' =>
      if is_digit c
      then let (ds, r) := span_digits s' in (digit_val c :: ds, r)
      else ([], s)
  | [] => ([], [])
  end.

(** ** The Number value for a mathematical value (ECMA-262 6.1.6.1)

    [round_decimal neg D e10] is the binary64 value nearest to
    [(-1)^neg * D * 10^e10], with ties to even, overflow to an infinity and
    underflow to a zero.  An integer is rounded by [binary_normalize]; a
    quotient [D / 10^p] is first truncated to at least 64 significant bits
    followed by a sticky bit, which does not change the nearest binary64
    value, and then rounded by [binary_normalize]. *)
Definition round_decimal (neg : bool) (D : positive) (e10 : Z) : spec_float :=
  match e10 with
  | Zneg p =>
      let q := 10 ^ Zpos p in
      let k := 64 + Z.log2 q in
      let (t, r) := Z.div_eucl (Zpos D * 2 ^ k) q in
      let w := 2 * t + (if r =? 0 then 0 else 1) in
      binary_normalize prec emax (cond_Zopp neg w) (- (k + 1)) false
  | _ => binary_normalize prec emax (cond_Zopp neg (Zpos D * 10 ^ e10)) 0 false
  end.

(** ** [parseFloat] (ECMA-262 19.2.4) *)

(** A parsed StrDecimalLiteral (ECMA-262 7.1.4.1): [Infinity], or digits
    before and after the point and a decimal exponent, with the sign. *)
Inductive StrDecimalLiteral : Set :=
| LitInfinity (neg : bool)
| LitDecimal (neg : bool) (int_part frac_part : list N) (exponent : Z).

(** ExponentPart opt at the end of a literal: [e] or [E], an optional sign,
    at least one digit; nothing may follow. *)
Definition parse_ExponentPart (s : JSString) : option Z :=
  match s with
  | [] => Some 0
  | c :: s1 =>
      if ((c =? 101) || (c =? 69))%N then
        let '(neg, s2) :=
          match s1 with
          | 43%N :: t => (false, t)
          | 45%N :: t => (true, t)
          | _ => (false, s1)
          end in
        match span_digits s2 with
        | (d :: ds, []) => Some (cond_Zopp neg (Z.of_N (digits_value (d :: ds))))
        | _ => None
        end
      else None
  end.

(** StrUnsignedDecimalLiteral, matched against the whole of [s]. *)
Definition parse_StrUnsignedDecimalLiteral (s : JSString)
  : option (list N * list N * Z) :=
  let (ip, r1) := span_digits s in
  match ip, r1 with
  | _ :: _, 46%N :: r2 =>
      let (fp, r3) := span_digits r2 in
      option_map (fun e => (ip, fp, e)) (parse_ExponentPart r3)
  | [], 46%N :: r2 =>
      let (fp, r3) := span_digits r2 in
      match fp with
      | [] => None
      | _ :: _ => option_map (fun e => (ip, fp, e)) (parse_ExponentPart r3)
      end
  | _ :: _, _ => option_map (fun e => (ip, [], e)) (parse_ExponentPart r1)
  | [], _ => None
  end.

Definition Infinity_string : JSString := str "Infinity".

Definition JSString_eqb (a b : JSString) : bool :=
  if list_eq_dec N.eq_dec a b then true else false.

(** StrDecimalLiteral, matched against the whole of [s]. *)
Definition parse_StrDecimalLiteral (s : JSString) : option StrDecimalLiteral :=
  let '(neg, u) :=
    match s with
    | 43%N :: t => (false, t)
    | 45%N :: t => (true, t)
    | _ => (false, s)
    end in
  if JSString_eqb u Infinity_string then Some (LitInfinity neg)
  else option_map (fun '(ip, fp, e) => LitDecimal neg ip fp e)
         (parse_StrUnsignedDecimalLiteral u).

(** The parse of the longest prefix of [s], of length at most [n], that [p]
    accepts. *)
Fixpoint longest_prefix {A : Type} (p : JSString -> option A) (s : JSString)
  (n : nat) : option A :=
  match p (firstn n s) with
  | Some a => Some a
  | None =>
      match n with
      | O => None
      | S n' => longest_prefix p s n'
      end
  end.

(** StringNumericValue of a StrDecimalLiteral, with RoundMVResult. *)
Definition StringNumericValue (l : StrDecimalLiteral) : float :=
  match l with
  | LitInfinity neg => if neg then neg_infinity else infinity
  | LitDecimal neg ip fp e =>
      match digits_value (ip ++ fp) with
      | N0 => if neg then neg_zero else zero
      | Npos D => SF2Prim (round_decimal neg D (e - Z.of_nat (List.length fp)))
      end
  end.

Definition parseFloat_string (inputString : JSString) : float :=
  let trimmed := trim_start inputString in
  match longest_prefix parse_StrDecimalLiteral trimmed (List.length trimmed) with
  | None => nan
  | Some parsedNumber => StringNumericValue parsedNumber
  end.

(** ** [Number::toString] (ECMA-262 6.1.6.1.20), radix 10 *)

Definition spec_float_eqb (a b : spec_float) : bool :=
  match a, b with
  | S754_zero s, S754_zero s' => Bool.eqb s s'
  | S754_infinity s, S754_infinity s' => Bool.eqb s s'
  | S754_nan, S754_nan => true
  | S754_finite s m e, S754_finite s' m' e' =>
      Bool.eqb s s' && Pos.eqb m m' && Z.eqb e e'
  | _, _ => false
  end.

(** The exact value [m * 2^e] of a finite binary64 number, as a fraction. *)
Definition exact_fraction (m : positive) (e : Z) : Z * Z :=
  match e with
  | Zneg p => (Zpos m, 2 ^ Zpos p)
  | _ => (Zpos m * 2 ^ e, 1)
  end.

Definition num_digits (z : Z) : Z :=
  Z.of_nat (List.length (decimal_digits (Z.to_N z))).

(** The least [j >= j0] with [num * 10^j >= den]. *)
Fixpoint leading_zeros (fuel : nat) (num den j : Z) : Z :=
  match fuel with
  | O => j
  | S fuel' =>
      if den <=? num * 10 ^ j then j else leading_zeros fuel' num den (j + 1)
  end.

(** The integer [n0] with [10^(n0-1) <= num/den < 10^n0]. *)
Definition decimal_exponent (num den : Z) : Z :=
  if den <=? num then num_digits (num / den)
  else 1 - leading_zeros 400 num den 1.

(** The [k]-digit decimals next to [num/den]: the one of them that rounds to
    [x] (the nearer one when both do, the even one on a tie), as [(s, n)]
    standing for [s * 10^(n-k)]. *)
Definition shortest_candidate (x : spec_float) (num den n0 k : Z)
  : option (Z * Z) :=
  let p := n0 - k in
  let '(N', D') :=
    if 0 <=? p then (num, den * 10 ^ p) else (num * 10 ^ (- p), den) in
  let s_lo := N' / D' in
  let r := N' mod D' in
  let ok s :=
    match s with
    | Zpos s' => spec_float_eqb (round_decimal false s' p) x
    | _ => false
    end in
  let norm s := if s =? 10 ^ k then (10 ^ (k - 1), n0 + 1) else (s, n0) in
  if r =? 0 then Some (norm s_lo)
  else
    match ok s_lo, ok (s_lo + 1) with
    | true, true =>
        Some (norm match 2 * r ?= D' with
                   | Lt => s_lo
                   | Gt => s_lo + 1
                   | Eq => if Z.even s_lo then s_lo else s_lo + 1
                   end)
    | true, false => Some (norm s_lo)
    | false, true => Some (norm (s_lo + 1))
    | false, false => None
    end.

(** Step 5 of Number::toString: the least [k] for which some [k]-digit
    decimal rounds to [x]. *)
Fixpoint shortest_digits (fuel : nat) (x : spec_float) (num den n0 k : Z)
  : Z * Z :=
  match shortest_candidate x num den n0 k with
  | Some sn => sn
  | None =>
      match fuel with
      | O => (num * 10 ^ k / (den * 10 ^ n0), n0)
      | S fuel' => shortest_digits fuel' x num den n0 (k + 1)
      end
  end.

(** Steps 6-11 of Number::toString: the digits of [s] laid out for the
    decimal exponent [n]. *)
Definition format_number (s n : Z) : JSString :=
  let ds := decimal_digits (Z.to_N s) in
  let k := Z.of_nat (List.length ds) in
  if (k <=? n) && (n <=? 21) then
    digits_string ds ++ repeat 48%N (Z.to_nat (n - k))
  else if (0 <? n) && (n <=? 21) then
    digits_string (firstn (Z.to_nat n) ds) ++ [46%N]
      ++ digits_string (skipn (Z.to_nat n) ds)
  else if (-6 <? n) && (n <=? 0) then
    [48%N; 46%N] ++ repeat 48%N (Z.to_nat (- n)) ++ digits_string ds
  else
    let e := n - 1 in
    let exponent :=
      [101%N; if 0 <=? e then 43%N else 45%N]
        ++ digits_string (decimal_digits (Z.to_N (Z.abs e))) in
    match ds with
    | [] => []
    | [d] => digits_string [d] ++ exponent
    | d :: rest => digits_string [d] ++ [46%N] ++ digits_string rest ++ exponent
    end.

Definition Number_toString_SF (x : spec_float) : JSString :=
  match x with
  | S754_nan => str "NaN"
  | S754_zero _ => str "0"
  | S754_infinity s => if s then str "-Infinity" else str "Infinity"
  | S754_finite s m e =>
      let (num, den) := exact_fraction m e in
      let n0 := decimal_exponent num den in
      let (d, n) := shortest_digits 800 (S754_finite false m e) num den n0 1 in
      (if s then [45%N] else []) ++ format_number d n
  end.

Definition Number_toString (x : float) : JSString :=
  Number_toString_SF (Prim2SF x).

(** ** [Number.prototype.toFixed] (ECMA-262 21.1.3.3) *)

(** Step 11: the digits of the integer [n], padded to more than [f] digits,
    with the decimal point before the last [f] of them. *)
Definition fixed_digits (n : N) (f : nat) : JSString :=
  let m := decimal_digits n in
  let m := repeat 0%N (S f - List.length m) ++ m in
  let k := List.length m in
  match f with
  | O => digits_string m
  | S _ =>
      digits_string (firstn (k - f) m) ++ [46%N] ++ digits_string (skipn (k - f) m)
  end.

(** The integer [n] for which [n / 10^f - num/den] is as close to zero as
    possible, the larger one when there are two. *)
Definition nearest_scaled (num den : Z) (f : Z) : Z :=
  (2 * num * 10 ^ f + den) / (2 * den).

Definition Number_toFixed (x : float) (fractionDigits : Z) : Completion JSString :=
  if (fractionDigits <? 0) || (100 <? fractionDigits) then throw RangeError
  else
    match Prim2SF x with
    | S754_finite s m e =>
        let (num, den) := exact_fraction m e in
        let sign := if s then [45%N] else [] in
        if 10 ^ 21 * den <=? num
        then ret (sign ++ Number_toString_SF (S754_finite false m e))
        else
          let n := nearest_scaled num den fractionDigits in
          ret (sign ++ fixed_digits (Z.to_N n) (Z.to_nat fractionDigits))
    | S754_zero _ => ret (fixed_digits 0 (Z.to_nat fractionDigits))
    | S754_nan | S754_infinity _ => ret (Number_toString x)
    end.

(** ** Values passed to [parseFloat] and [isNaN] *)

(** The source passes [ensureNumber] the text of an input field
    ([e.target.value]) or a number of [formData]. *)
Inductive JSValue : Set :=
| VString (s : JSString)
| VNumber (x : float).

Definition ToString (v : JSValue) : JSString :=
  match v with
  | VString s => s
  | VNumber x => Number_toString x
  end.

Definition parseFloat (string : JSValue) : float :=
  parseFloat_string (ToString string).

(** [isNaN] applied to a number. *)
Definition isNaN (number : float) : bool := is_nan number.

(** [Math.sqrt] and [Math.abs] are the IEEE 754 operations. *)
Definition Math_sqrt (x : float) : float := PrimFloat.sqrt x.

Definition Math_abs (x : float) : float := PrimFloat.abs x.

(** ** The state of the [Home] component (lines 8-31) *)

Record DataRow : Set := {
  timestamp : JSString;
  salinity_mol_L : float;
  temperature_C : float;
  pH_row : float;
  turbidity_NTU : float;
  pump_pressure_bar : float;
  permeate_flow_Lh : float;
  permeate_conductivity_uScm : float;
  membrane_area_m2 : float;
  fouling_factor : float
}.

Record FormData : Set := {
  salinity : float;
  temperature : float;
  pH : float;
  turbidity : float;
  membraneArea : float;
  foulingFactor : float
}.

(** The three [useState] cells; [predictedPressure] is [number | null]. *)
Record HomeState : Set := {
  dataRows : list DataRow;
  predictedPressure : option float;
  formData : FormData
}.

Definition initial_formData : FormData :=
  {| salinity := 0.68; temperature := 22; pH := 7.7; turbidity := 5.2;
     membraneArea := 50; foulingFactor := 0.1 |}.

Definition initial_state : HomeState :=
  {| dataRows := []; predictedPressure := None; formData := initial_formData |}.

Definition setPredictedPressure (st : HomeState) (p : float) : HomeState :=
  {| dataRows := st.(dataRows); predictedPressure := Some p;
     formData := st.(formData) |}.

Definition setFormData (st : HomeState) (fd : FormData) : HomeState :=
  {| dataRows := st.(dataRows); predictedPressure := st.(predictedPressure);
     formData := fd |}.

(** ** [ensureNumber] (lines 34-37) *)

Definition ensureNumber (value : JSValue) (defaultValue : float) : float :=
  let num := parseFloat value in
  if isNaN num then defaultValue else num.

(** [defaultValue: number = 0]: the call with the second argument left out. *)
Definition ensureNumber_1 (value : JSValue) : float := ensureNumber value 0.

(** ** The [onChange] handlers of the six inputs (lines 296-371)

    Each one replaces one field of [formData] by [ensureNumber] of the text
    of its input, [e.target.value], with the field's default. *)

Definition onChange_salinity (st : HomeState) (e_target_value : JSString) : HomeState :=
  let fd := st.(formData) in
  setFormData st
    {| salinity := ensureNumber (VString e_target_value) 0.68;
       temperature := fd.(temperature); pH := fd.(pH);
       turbidity := fd.(turbidity); membraneArea := fd.(membraneArea);
       foulingFactor := fd.(foulingFactor) |}.

Definition onChange_temperature (st : HomeState) (e_target_value : JSString) : HomeState :=
  let fd := st.(formData) in
  setFormData st
    {| salinity := fd.(salinity);
       temperature := ensureNumber (VString e_target_value) 22; pH := fd.(pH);
       turbidity := fd.(turbidity); membraneArea := fd.(membraneArea);
       foulingFactor := fd.(foulingFactor) |}.

Definition onChange_pH (st : HomeState) (e_target_value : JSString) : HomeState :=
  let fd := st.(formData) in
  setFormData st
    {| salinity := fd.(salinity); temperature := fd.(temperature);
       pH := ensureNumber (VString e_target_value) 7.7;
       turbidity := fd.(turbidity); membraneArea := fd.(membraneArea);
       foulingFactor := fd.(foulingFactor) |}.

Definition onChange_turbidity (st : HomeState) (e_target_value : JSString) : HomeState :=
  let fd := st.(formData) in
  setFormData st
    {| salinity := fd.(salinity); temperature := fd.(temperature); pH := fd.(pH);
       turbidity := ensureNumber (VString e_target_value) 5.2;
       membraneArea := fd.(membraneArea); foulingFactor := fd.(foulingFactor) |}.

Definition onChange_membraneArea (st : HomeState) (e_target_value : JSString) : HomeState :=
  let fd := st.(formData) in
  setFormData st
    {| salinity := fd.(salinity); temperature := fd.(temperature); pH := fd.(pH);
       turbidity := fd.(turbidity);
       membraneArea := ensureNumber (VString e_target_value) 50;
       foulingFactor := fd.(foulingFactor) |}.

Definition onChange_foulingFactor (st : HomeState) (e_target_value : JSString) : HomeState :=
  let fd := st.(formData) in
  setFormData st
    {| salinity := fd.(salinity); temperature := fd.(temperature); pH := fd.(pH);
       turbidity := fd.(turbidity); membraneArea := fd.(membraneArea);
       foulingFactor := ensureNumber (VString e_target_value) 0.1 |}.

(** ** [calculateMinimumPressure] (lines 71-108)

    The constants of the function body, in the order of the source; each is
    a function of the [formData] the closure reads. *)

Section calculateMinimumPressure_body.

#[local] Open Scope float_scope.

Variable formData : FormData.

Definition R : float := 0.083145.

Definition T_K : float := formData.(temperature) + 273.15.

Definition vantHoffFactor : float := 2.

Definition osmotic_pressure : float :=
  vantHoffFactor * formData.(salinity) * R * T_K.

Definition operational_pressure : float := osmotic_pressure * 1.6.

Definition viscosity_adjustment : float :=
  1 - (0.004 * (formData.(temperature) - 25)).

Definition pressure_after_temp : float :=
  operational_pressure * viscosity_adjustment.

Definition fouling_penalty : float := 32 * formData.(foulingFactor).

Definition turbidity_penalty : float := 2.5 * formData.(turbidity).

Definition optimal_pH : float := 7.75.

Definition pH_penalty : float := 6.0 * Math_abs (formData.(pH) - optimal_pH).

Definition area_scaling_factor : float :=
  7.0 / Math_sqrt formData.(membraneArea).

Definition predicted_pressure : float :=
  ((pressure_after_temp + turbidity_penalty + pH_penalty) * area_scaling_factor)
  + fouling_penalty.

End calculateMinimumPressure_body.

(** [setPredictedPressure(parseFloat(predicted_pressure.toFixed(2)))]. *)
Definition calculateMinimumPressure (st : HomeState) : Completion HomeState :=
  fixed <- Number_toFixed (predicted_pressure st.(formData)) 2 ;;
  ret (setPredictedPressure st (parseFloat (VString fixed))).

(** * Definitions used by the statements and their proofs *)

(** [n / 2^k] rounded to the nearest integer, ties to the even one. *)
Definition rne_shift (n k : Z) : Z :=
  let q := n / 2 ^ k in
  match 2 * (n mod 2 ^ k) ?= 2 ^ k with
  | Lt => q
  | Gt => q + 1
  | Eq => if Z.even q then q else q + 1
  end.

(** The binary64 number nearest to [m * 2^e] for [m > 0], with sign [s]:
    what [binary_round] computes, without its loop. *)
Definition round_pos (s : bool) (m e : Z) : spec_float :=
  let E := fexp prec emax (Z.log2 m + 1 + e) in
  let N := if E <=? e then m * 2 ^ (e - E) else rne_shift m (E - e) in
  let '(N', E') := if N =? 2 ^ 53 then (2 ^ 52, E + 1) else (N, E) in
  match N' with
  | Zpos M => if E' <=? emax - prec then S754_finite s M E' else S754_infinity s
  | _ => S754_zero s
  end.

(** The mantissa and exponent [round_pos] ends with. *)
Definition round_pair (m e : Z) : Z * Z :=
  let E := fexp prec emax (Z.log2 m + 1 + e) in
  let N := if E <=? e then m * 2 ^ (e - E) else rne_shift m (E - e) in
  if N =? 2 ^ 53 then (2 ^ 52, E + 1) else (N, E).

(** The value of a finite number in units of [2^-1074], the least positive
    binary64 number: an integer. *)
Definition ulps (x : spec_float) : Z :=
  match x with
  | S754_finite s m e => cond_Zopp s (Zpos m * 2 ^ (e + 1074))
  | _ => 0
  end.

(** Zeros and finite numbers. *)
Definition is_finite_SF (x : spec_float) : bool :=
  match x with
  | S754_zero _ | S754_finite _ _ _ => true
  | _ => false
  end.

(** [x] with the sign of a zero forgotten. *)
Definition nz (x : spec_float) : spec_float :=
  match x with
  | S754_zero _ => S754_zero false
  | _ => x
  end.

(** The binary64 number nearest to [n * 2^g]. *)
Definition round_Z (g n : Z) : spec_float := binary_normalize prec emax n g false.

(** The sign every result of [round_pos] carries. *)
Definition has_sign (s : bool) (x : spec_float) : Prop :=
  match x with
  | S754_zero s' | S754_infinity s' | S754_finite s' _ _ => s' = s
  | S754_nan => False
  end.

(** A list of decimal digits (values, not code units). *)
Definition all_digits (ds : list N) : Prop := Forall (fun d => (d < 10)%N) ds.

(** What may follow a run of digits for [span_digits] to stop there. *)
Definition no_digit_head (s : JSString) : Prop :=
  match s with
  | [] => True
  | c :: _ => is_digit c = false
  end.

(** [parseFloat(x.toFixed(2))]. *)
Definition toFixed2_parse (x : float) : Completion float :=
  fixed <- Number_toFixed x 2 ;; ret (parseFloat (VString fixed)).

(** The integer nearest to [100 * u * 2^-1074], the larger one of two. *)
Definition centi (u : Z) : Z := (200 * u + 2 ^ 1074) / 2 ^ 1075.

(** [n / 100] truncated to a multiple of [2^-70], with a sticky bit. *)
Definition sticky100 (n : Z) : Z :=
  2 * (n * 2 ^ 70 / 100) + (if (n * 2 ^ 70) mod 100 =? 0 then 0 else 1).

(** [x.toFixed(2)] read back, for [x = u * 2^-1074], in units of [2^-71]. *)
Definition round2_int (u : Z) : Z :=
  if u <? 0 then - sticky100 (centi (- u)) else sticky100 (centi u).

(** Rounding to two decimal places: the binary64 number nearest to [n / 100],
    where [n] is the integer nearest to [100 * |x|] (the larger one of two),
    with the sign of [x]; an infinity or not-a-number is left as it is. *)
Definition round_to_2_decimals (x : float) : float :=
  match Prim2SF x with
  | S754_finite s m e =>
      let (num, den) := exact_fraction m e in
      match nearest_scaled num den 2 with
      | Zpos n => SF2Prim (round_decimal s n (-2))
      | _ => if s then neg_zero else zero
      end
  | S754_zero _ => zero
  | _ => x
  end.

(** The exact value of a finite number in units of [2^-1074]. *)
Definition exact_ulps (x : float) : option Z :=
  match Prim2SF x with
  | S754_zero _ => Some 0
  | S754_finite s m e => Some (cond_Zopp s (Zpos m * 2 ^ (e + 1074)))
  | _ => None
  end.

(** The number [calculateMinimumPressure] leaves in [predictedPressure];
    [None] if the call throws. *)
Definition predictor_output (st : HomeState) : option float :=
  match calculateMinimumPressure st with
  | inr st' => st'.(predictedPressure)
  | inl _ => None
  end.

(** In the specification's words (section 9): [parseOrDefault(text, default)]
    is the parsed number when the text parses as a number, and the default
    when parsing fails.  Parsing is that of a numeric prefix. *)
Definition parseOrDefault (text : JSString) (default : float) : float :=
  let trimmed := trim_start text in
  match longest_prefix parse_StrDecimalLiteral trimmed (List.length trimmed) with
  | Some literal => StringNumericValue literal
  | None => default
  end.

(** [Math.max] and [Math.min] of two numbers (ECMA-262 21.3.2.24, 21.3.2.25). *)
Definition Math_max (a b : float) : float :=
  if is_nan a || is_nan b then nan
  else if (a <? b)%float then b
  else if (b <? a)%float then a
  else if get_sign a then b else a.

Definition Math_min (a b : float) : float :=
  if is_nan a || is_nan b then nan
  else if (a <? b)%float then a
  else if (b <? a)%float then b
  else if get_sign a then a else b.

(** The bounds of the commented-out line 105,
    [Math.max(35, Math.min(70, predicted_pressure))]. *)
Definition old_bounds (predicted_pressure : float) : float :=
  Math_max 35 (Math_min 70 predicted_pressure).

(** [|x - c/100| <= tol/100], on the exact value of [x]. *)
Definition within_hundredths (x : float) (c tol : Z) : bool :=
  match exact_ulps x with
  | Some u => Z.abs (100 * u - c * 2 ^ 1074) <=? tol * 2 ^ 1074
  | None => false
  end.

(** The state in which the form holds the given six numbers. *)
Definition form_state (st : HomeState)
  (salinity temperature pH turbidity membraneArea foulingFactor : float) : HomeState :=
  setFormData st
    {| salinity := salinity; temperature := temperature; pH := pH;
       turbidity := turbidity; membraneArea := membraneArea;
       foulingFactor := foulingFactor |}.

(** ** The sample data loader, [loadData] (lines 40-66) *)

(** TrimString(s, end) and [String.prototype.trim] (ECMA-262 22.1.3.32):
    white space and line terminators are removed at both ends. *)
Definition trim_end (s : JSString) : JSString := rev (trim_start (rev s)).

Definition trim (s : JSString) : JSString := trim_end (trim_start s).

(** [S.split(separator)] (ECMA-262 22.1.3.23) for a separator of one code
    unit and no limit: the pieces of [S] between the occurrences of the
    separator, one piece more than there are occurrences; the empty string
    gives one empty piece. *)
Fixpoint split (S : JSString) (separator : code_unit) : list JSString :=
  match S with
  | [] => [[]]
  | c :: S' =>
      if (c =? separator)%N then [] :: split S' separator
      else
        match split S' separator with
        | piece :: pieces => (c :: piece) :: pieces
        | [] => [[c]]
        end
  end.

(** [A.join(separator)] (ECMA-262 23.1.3.18) for strings: the pieces with
    the separator between them.  The source does not call it; it writes down
    the texts that [split] takes apart. *)
Fixpoint join (pieces : list JSString) (separator : code_unit) : JSString :=
  match pieces with
  | [] => []
  | piece :: pieces' =>
      match pieces' with
      | [] => piece
      | _ :: _ => piece ++ separator :: join pieces' separator
      end
  end.

(** The code unit [c] does not occur in [s]. *)
Definition free_of (c : code_unit) (s : JSString) : bool :=
  negb (existsb (N.eqb c) s).

(** A data line given by its fields: at least one field, none of which
    holds a comma or a line feed. *)
Definition well_formed_fields (fields : list JSString) : bool :=
  match fields with
  | [] => false
  | _ :: _ => forallb (fun field => free_of 44%N field && free_of 10%N field) fields
  end.

(** [A.slice(start, end)] for indices that are not negative
    (ECMA-262 23.1.3.28): the elements at [start], ..., [end - 1] that
    exist. *)
Definition slice {A : Type} (a : list A) (start end_ : nat) : list A :=
  firstn (end_ - start) (skipn start a).

(** [parseFloat(values[i])]: an index past the end of the array reads
    [undefined], whose ToString is "undefined". *)
Definition parseFloat_element (values : list JSString) (i : nat) : float :=
  parseFloat_string
    match nth_error values i with
    | Some value => value
    | None => str "undefined"
    end.

(** The arrow function of [map] (lines 47-61).  [values[0]] is always there,
    [split] returning at least one piece; the second branch is not reached. *)
Definition row_of_line (line : JSString) : DataRow :=
  let values := split line 44%N in
  {| timestamp := match values with value :: _ => value | [] => str "undefined" end;
     salinity_mol_L := parseFloat_element values 1;
     temperature_C := parseFloat_element values 2;
     pH_row := parseFloat_element values 3;
     turbidity_NTU := parseFloat_element values 4;
     pump_pressure_bar := parseFloat_element values 5;
     permeate_flow_Lh := parseFloat_element values 6;
     permeate_conductivity_uScm := parseFloat_element values 7;
     membrane_area_m2 := parseFloat_element values 8;
     fouling_factor := parseFloat_element values 9 |}.

Definition setDataRows (st : HomeState) (rows : list DataRow) : HomeState :=
  {| dataRows := rows; predictedPressure := st.(predictedPressure);
     formData := st.(formData) |}.

(** The [try] block (lines 43-62), given how [fetch] and [response.text()]
    settled: with the text of the response, or rejected.  [lines[0].split]
    throws a TypeError if [lines[0]] is [undefined]. *)
Definition loadData_try (st : HomeState) (response_text : Completion JSString)
  : Completion HomeState :=
  text <- response_text ;;
  let lines := split (trim text) 10%N in
  headers <- match nth_error lines 0 with
             | Some line => ret (split line 44%N)
             | None => throw TypeError
             end ;;
  let rows := List.map row_of_line (slice lines 1 11) in
  ret (setDataRows st rows).

(** [loadData]: the [catch] block logs the error and leaves the state as it
    is. *)
Definition loadData (st : HomeState) (response_text : Completion JSString)
  : HomeState :=
  match loadData_try st response_text with
  | inr st' => st'
  | inl error => st
  end.

(** ** What the component renders (lines 257-268, 295-370, 385-408) *)

(** A row of the dataset table (lines 258-267): eight cells; the
    conductivity and the membrane area of the row are not shown. *)
Definition render_row (row : DataRow) : Completion (list JSString) :=
  salinity_cell <- Number_toFixed row.(salinity_mol_L) 3 ;;
  temperature_cell <- Number_toFixed row.(temperature_C) 1 ;;
  pH_cell <- Number_toFixed row.(pH_row) 2 ;;
  turbidity_cell <- Number_toFixed row.(turbidity_NTU) 1 ;;
  pressure_cell <- Number_toFixed row.(pump_pressure_bar) 1 ;;
  flow_cell <- Number_toFixed row.(permeate_flow_Lh) 0 ;;
  fouling_cell <- Number_toFixed row.(fouling_factor) 2 ;;
  ret [row.(timestamp); salinity_cell; temperature_cell; pH_cell;
       turbidity_cell; pressure_cell; flow_cell; fouling_cell].

(** [dataRows.map(...)] (line 257); an exception in one row ends the
    rendering. *)
Fixpoint render_rows (rows : list DataRow) : Completion (list (list JSString)) :=
  match rows with
  | [] => ret []
  | row :: rows' =>
      cells <- render_row row ;;
      rest <- render_rows rows' ;;
      ret (cells :: rest)
  end.

(** The [value] attributes of the six inputs (lines 295, 310, 325, 340, 355,
    370): [ensureNumber] applied to the number in [formData]. *)
Definition input_values (st : HomeState) : list float :=
  let fd := st.(formData) in
  [ensureNumber (VNumber fd.(salinity)) 0.68;
   ensureNumber (VNumber fd.(temperature)) 22;
   ensureNumber (VNumber fd.(pH)) 7.7;
   ensureNumber (VNumber fd.(turbidity)) 5.2;
   ensureNumber (VNumber fd.(membraneArea)) 50;
   ensureNumber (VNumber fd.(foulingFactor)) 0.1].

(** The result panel (lines 385-408): nothing of it while
    [predictedPressure] is [null]; then the pressure and four of the six
    inputs, each through [toFixed]. *)
Record ResultPanel : Set := {
  pressure_text : JSString;
  salinity_text : JSString;
  temperature_text : JSString;
  foulingFactor_text : JSString;
  turbidity_text : JSString
}.

Definition render_result (st : HomeState) : Completion (option ResultPanel) :=
  match st.(predictedPressure) with
  | Some predictedPressure =>
      p <- Number_toFixed predictedPressure 2 ;;
      s <- Number_toFixed st.(formData).(salinity) 3 ;;
      t <- Number_toFixed st.(formData).(temperature) 1 ;;
      f <- Number_toFixed st.(formData).(foulingFactor) 2 ;;
      u <- Number_toFixed st.(formData).(turbidity) 1 ;;
      ret (Some {| pressure_text := p; salinity_text := s; temperature_text := t;
                   foulingFactor_text := f; turbidity_text := u |})
  | None => ret None
  end.

(** ** The component as a state machine

    What can happen to a mounted component: the request of [loadData]
    settles, the user edits one of the six inputs, or clicks the button. *)
Inductive Event : Type :=
| Loaded (response_text : Completion JSString)
| Change_salinity (e_target_value : JSString)
| Change_temperature (e_target_value : JSString)
| Change_pH (e_target_value : JSString)
| Change_turbidity (e_target_value : JSString)
| Change_membraneArea (e_target_value : JSString)
| Change_foulingFactor (e_target_value : JSString)
| Click_calculate.

Definition handle (st : HomeState) (ev : Event) : Completion HomeState :=
  match ev with
  | Loaded response_text => ret (loadData st response_text)
  | Change_salinity v => ret (onChange_salinity st v)
  | Change_temperature v => ret (onChange_temperature st v)
  | Change_pH v => ret (onChange_pH st v)
  | Change_turbidity v => ret (onChange_turbidity st v)
  | Change_membraneArea v => ret (onChange_membraneArea st v)
  | Change_foulingFactor v => ret (onChange_foulingFactor st v)
  | Click_calculate => calculateMinimumPressure st
  end.

(** The events of a session, one after the other; an uncaught exception
    ends it. *)
Fixpoint run (st : HomeState) (evs : list Event) : Completion HomeState :=
  match evs with
  | [] => ret st
  | ev :: evs' => st' <- handle st ev ;; run st' evs'
  end.

(** No field of the form data is NaN. *)
Definition no_NaN (fd : FormData) : bool :=
  negb (is_nan fd.(salinity)) && negb (is_nan fd.(temperature))
  && negb (is_nan fd.(pH)) && negb (is_nan fd.(turbidity))
  && negb (is_nan fd.(membraneArea)) && negb (is_nan fd.(foulingFactor)).

Definition is_click (ev : Event) : bool :=
  match ev with
  | Click_calculate => true
  | _ => false
  end.

(** ** The binary64 number nearest to a fraction *)

(** [A / B] rounded to the nearest integer, ties to the even one. *)
Definition rne_div (A B : Z) : Z :=
  let q := A / B in
  match 2 * (A mod B) ?= B with
  | Lt => q
  | Gt => q + 1
  | Eq => if Z.even q then q else q + 1
  end.

(** The binary64 number nearest to [A / B], for [A] and [B] positive, with
    the sign [s]: [A / B] is counted in units of [2^-1074]; of that count,
    all but the 53 leading bits are rounded off, ties to even.  This is the
    rounding [round_decimal] is meant to compute. *)
Definition round_frac (s : bool) (A B : Z) : spec_float :=
  let sh := Z.max (Z.log2 (A * 2 ^ 1074 / B) - 52) 0 in
  let N := rne_div (A * 2 ^ 1074) (B * 2 ^ sh) in
  let '(N', E') := if N =? 2 ^ 53 then (2 ^ 52, sh - 1074 + 1) else (N, sh - 1074) in
  match N' with
  | Zpos M => if E' <=? emax - prec then S754_finite s M E' else S754_infinity s
  | _ => S754_zero s
  end.

(** [10^(n0-1) <= num/den < 10^n0], on integers: the two sides scaled by a
    power of ten large enough for the exponents not to be negative. *)
Definition in_decade (num den n0 : Z) : Prop :=
  forall T, 0 <= T -> 1 <= n0 + T ->
    den * 10 ^ (n0 - 1 + T) <= num * 10 ^ T < den * 10 ^ (n0 + T).

(** ** Decimal texts *)

(** The decimal of [f] decimals that stands for [n / 10^f], with a minus
    sign before it if [neg]: the texts [toFixed(f)] writes for finite numbers
    below [10^21]. *)
Definition decimal_text (neg : bool) (n : N) (f : nat) : JSString :=
  (if neg then [45%N] else []) ++ fixed_digits n f.

(** Fewer than [2^52] units (fifteen digits are always that few), and not a
    negative zero. *)
Definition writable (neg : bool) (n : N) : bool :=
  (Z.of_N n <? 2 ^ 52) && negb (neg && (n =? 0)%N).

(** [x], with [-0] taken to [0]; as JavaScript numbers the two are equal
    ([-0 === 0]). *)
Definition drop_zero_sign (x : float) : float :=
  if (x =? 0)%float then 0%float else x.

(** The code units a StrDecimalLiteral is made of: digits, the signs, the
    point, [e] and [E], and the letters of [Infinity]. *)
Definition literal_char (c : code_unit) : bool :=
  is_digit c
  || existsb (N.eqb c) [43; 45; 46; 69; 101; 73; 110; 102; 105; 116; 121]%N.

(** What every event keeps: no NaN among the form data, at most ten rows. *)
Definition state_ok (st : HomeState) : Prop :=
  no_NaN st.(formData) = true /\ (List.length st.(dataRows) <= 10)%nat.

(** * Properties *)

(** ** Right shifts of the rounding loop *)

Lemma digits2_pos_log2 (m : positive) :
  Zpos (digits2_pos m) = Z.log2 (Zpos m) + 1.
Proof.
  assert (H : forall p, digits2_pos p = Pos.size p) by (induction p; simpl; congruence).
  rewrite H. destruct m; simpl; lia.
Qed.

Lemma iter_pos_nat {A : Type} (f : A -> A) (p : positive) (x : A) :
  iter_pos f p x = Nat.iter (Pos.to_nat p) f x.
Proof.
  revert x. induction p as [p IH | p IH |]; intro x; cbn [iter_pos].
  - rewrite !IH, Pos2Nat.inj_xI.
    replace (S (2 * Pos.to_nat p)) with (Pos.to_nat p + S (Pos.to_nat p))%nat by lia.
    rewrite Nat.iter_add, Nat.iter_succ_r. reflexivity.
  - rewrite !IH, Pos2Nat.inj_xO.
    replace (2 * Pos.to_nat p)%nat with (Pos.to_nat p + Pos.to_nat p)%nat by lia.
    rewrite Nat.iter_add. reflexivity.
  - reflexivity.
Qed.

Lemma shr_1_spec (m : Z) (r s : bool) :
  0 <= m ->
  shr_1 (Build_shr_record m r s) = Build_shr_record (m / 2) (Z.odd m) (r || s).
Proof.
  intro Hm. rewrite <- Z.div2_div.
  destruct m as [| [p | p |] |]; try lia; reflexivity.
Qed.

(** ** Rounding to nearest even as a division *)

Lemma mod_pow2_succ (m j : Z) :
  0 <= j ->
  m mod 2 ^ (j + 1) = m mod 2 ^ j + 2 ^ j * ((m / 2 ^ j) mod 2).
Proof.
  intro Hj. rewrite Z.pow_add_r, Z.pow_1_r by lia.
  apply Z.rem_mul_r; [ apply Z.pow_nonzero; lia | lia ].
Qed.

Lemma odd_mod2 (m : Z) : Z.odd m = true <-> m mod 2 = 1.
Proof. rewrite Zmod_odd. destruct (Z.odd m); split; (discriminate || reflexivity). Qed.

Lemma shr_iter (m : Z) (j : nat) :
  0 <= m ->
  let r := Nat.iter (S j) shr_1 (Build_shr_record m false false) in
  shr_m r = m / 2 ^ Z.of_nat (S j)
  /\ (shr_r r = true <-> 2 ^ Z.of_nat j <= m mod 2 ^ Z.of_nat (S j))
  /\ (shr_s r = true <-> m mod 2 ^ Z.of_nat j <> 0).
Proof.
  intro Hm. induction j as [| j IH].
  - cbn [Nat.iter]. rewrite shr_1_spec by assumption. cbn [shr_m shr_r shr_s].
    change (Z.of_nat 1) with 1. change (Z.of_nat 0) with 0.
    rewrite Z.pow_1_r, Z.pow_0_r, Z.mod_1_r, odd_mod2.
    pose proof (Z.mod_pos_bound m 2 ltac:(lia)).
    repeat split; try easy; try lia.
  - cbv zeta in IH |- *. rewrite Nat.iter_succ.
    destruct (Nat.iter (S j) shr_1 _) as [m' r' s'] eqn:E.
    cbn [shr_m shr_r shr_s] in IH. destruct IH as (Hm' & Hr' & Hs').
    assert (Hp : 0 < 2 ^ Z.of_nat (S j)) by (apply Z.pow_pos_nonneg; lia).
    assert (Hm'0 : 0 <= m') by (subst m'; apply Z.div_pos; lia).
    rewrite shr_1_spec by assumption. cbn [shr_m shr_r shr_s].
    replace (Z.of_nat (S (S j))) with (Z.of_nat (S j) + 1) by lia.
    pose proof (mod_pow2_succ m (Z.of_nat (S j)) ltac:(lia)) as H1.
    pose proof (mod_pow2_succ m (Z.of_nat j) ltac:(lia)) as H0.
    replace (Z.of_nat j + 1) with (Z.of_nat (S j)) in H0 by lia.
    pose proof (Z.mod_pos_bound m (2 ^ Z.of_nat (S j)) Hp) as B1.
    assert (Hp0 : 0 < 2 ^ Z.of_nat j) by (apply Z.pow_pos_nonneg; lia).
    pose proof (Z.mod_pos_bound m (2 ^ Z.of_nat j) Hp0) as B0.
    pose proof (Z.mod_pos_bound (m / 2 ^ Z.of_nat (S j)) 2 ltac:(lia)) as Bx.
    pose proof (Z.mod_pos_bound (m / 2 ^ Z.of_nat j) 2 ltac:(lia)) as By.
    repeat split.
    + subst m'. rewrite Z.pow_add_r, Z.pow_1_r by lia.
      rewrite Z.div_div by lia. reflexivity.
    + intro H. apply odd_mod2 in H. subst m'. nia.
    + intro H. apply odd_mod2. subst m'. nia.
    + intro H. apply orb_true_iff in H. destruct H as [H | H].
      * apply Hr' in H. lia.
      * apply Hs' in H.
        assert (0 <= 2 ^ Z.of_nat j * ((m / 2 ^ Z.of_nat j) mod 2))
          by (apply Z.mul_nonneg_nonneg; lia).
        lia.
    + intro H. apply orb_true_iff.
      destruct (Z.eq_dec (m mod 2 ^ Z.of_nat j) 0) as [Z0 | NZ].
      * left. apply Hr'.
        assert ((m / 2 ^ Z.of_nat j) mod 2 = 1) by nia.
        nia.
      * right. apply Hs'. assumption.
Qed.

Lemma rne_shift_iter (m : Z) (j : nat) :
  0 <= m ->
  let r := Nat.iter (S j) shr_1 (Build_shr_record m false false) in
  round_nearest_even (shr_m r) (loc_of_shr_record r) = rne_shift m (Z.of_nat (S j)).
Proof.
  intro Hm. cbv zeta. pose proof (shr_iter m j Hm) as H. cbv zeta in H.
  destruct (Nat.iter (S j) shr_1 _) as [m' r' s'].
  cbn [shr_m shr_r shr_s] in H. destruct H as (Hm' & Hr' & Hs').
  unfold rne_shift. rewrite <- Hm'.
  pose proof (mod_pow2_succ m (Z.of_nat j) ltac:(lia)) as H0.
  replace (Z.of_nat j + 1) with (Z.of_nat (S j)) in H0 by lia.
  assert (Hp0 : 0 < 2 ^ Z.of_nat j) by (apply Z.pow_pos_nonneg; lia).
  pose proof (Z.mod_pos_bound m (2 ^ Z.of_nat j) Hp0) as B0.
  pose proof (Z.mod_pos_bound (m / 2 ^ Z.of_nat j) 2 ltac:(lia)) as By.
  assert (P2 : 2 ^ Z.of_nat (S j) = 2 * 2 ^ Z.of_nat j).
  { replace (Z.of_nat (S j)) with (1 + Z.of_nat j) by lia.
    rewrite Z.pow_add_r by lia. reflexivity. }
  set (x := (m / 2 ^ Z.of_nat j) mod 2) in *.
  set (rem := m mod 2 ^ Z.of_nat j) in *.
  set (R := m mod 2 ^ Z.of_nat (S j)) in *.
  set (P := 2 ^ Z.of_nat j) in *.
  set (PP := 2 ^ Z.of_nat (S j)) in *.
  assert (Hx : x = 0 \/ x = 1) by lia.
  destruct r', s'; cbn [loc_of_shr_record round_nearest_even].
  - assert (P <= R) by (apply Hr'; reflexivity).
    assert (rem <> 0) by (apply Hs'; reflexivity).
    replace (2 * R ?= PP) with Gt; [reflexivity|]. symmetry. apply Z.compare_gt_iff. destruct Hx as [Hx | Hx]; rewrite Hx in H0; lia.
  - assert (P <= R) by (apply Hr'; reflexivity).
    assert (rem = 0). { destruct (Z.eq_dec rem 0); [assumption|]. apply Hs' in n. discriminate. }
    replace (2 * R ?= PP) with Eq; [reflexivity|]. symmetry. apply Z.compare_eq_iff. destruct Hx as [Hx | Hx]; rewrite Hx in H0; lia.
  - assert (~ P <= R). { intro C. apply Hr' in C. discriminate. }
    replace (2 * R ?= PP) with Lt; [reflexivity|]. symmetry. apply Z.compare_lt_iff. destruct Hx as [Hx | Hx]; rewrite Hx in H0; lia.
  - assert (~ P <= R). { intro C. apply Hr' in C. discriminate. }
    replace (2 * R ?= PP) with Lt; [reflexivity|]. symmetry. apply Z.compare_lt_iff. destruct Hx as [Hx | Hx]; rewrite Hx in H0; lia.
Qed.

(** ** [binary_round] in closed form *)

Lemma fexp_eq (x : Z) : fexp prec emax x = Z.max (x - 53) (-1074).
Proof. reflexivity. Qed.

Lemma Zdigits2_log2 (n : Z) : 0 < n -> Zdigits2 n = Z.log2 n + 1.
Proof. destruct n; try lia. intros _. apply digits2_pos_log2. Qed.

Lemma pos_iter_xO (m d : positive) :
  Zpos (Pos.iter xO m d) = Zpos m * 2 ^ Zpos d.
Proof.
  induction d as [| d IH] using Pos.peano_ind.
  - cbn [Pos.iter]. rewrite Pos2Z.inj_xO, Z.pow_1_r. ring.
  - rewrite Pos.iter_succ, Pos2Z.inj_succ, Z.pow_succ_r by lia.
    rewrite Pos2Z.inj_xO, IH. ring.
Qed.

Lemma rne_shift_bounds (n k : Z) :
  n / 2 ^ k <= rne_shift n k <= n / 2 ^ k + 1.
Proof.
  unfold rne_shift. destruct (_ ?= _); [destruct (Z.even _)| |]; lia.
Qed.

Lemma rne_shift_0 (n : Z) : rne_shift n 0 = n.
Proof.
  unfold rne_shift. rewrite Z.pow_0_r, Z.mod_1_r, Z.div_1_r. reflexivity.
Qed.

Lemma log2_lt_pow2' (n b : Z) : 0 < n -> Z.log2 n + 1 <= b -> n < 2 ^ b.
Proof. intros Hn Hb. apply Z.log2_lt_pow2; lia. Qed.

Lemma pow2_le_log2 (n b : Z) : 0 < n -> 0 <= b -> 2 ^ b <= n -> b <= Z.log2 n.
Proof. intros Hn Hb H. apply Z.log2_le_pow2; lia. Qed.

Lemma div_lt_pow2 (n k b : Z) :
  0 <= n -> 0 <= k -> 0 <= b -> n < 2 ^ (k + b) -> n / 2 ^ k < 2 ^ b.
Proof.
  intros Hn Hk Hb H. apply Z.div_lt_upper_bound.
  - apply Z.pow_pos_nonneg; lia.
  - rewrite <- Z.pow_add_r by lia. assumption.
Qed.

Lemma shr_exact (m e k : Z) :
  0 <= m -> 0 < k ->
  exists r,
    shr (Build_shr_record m false false) e k = (r, e + k)
    /\ round_nearest_even (shr_m r) (loc_of_shr_record r) = rne_shift m k.
Proof.
  intros Hm Hk. destruct k as [| p |]; try lia.
  unfold shr. rewrite iter_pos_nat.
  destruct (Pos2Nat.is_succ p) as [j Hj]. rewrite Hj.
  eexists. split; [reflexivity|].
  rewrite (rne_shift_iter m j Hm). f_equal. lia.
Qed.

Lemma shr_noop (r : shr_record) (e k : Z) : k <= 0 -> shr r e k = (r, e).
Proof. intro Hk. destruct k; try lia; reflexivity. Qed.

Lemma binary_round_aux_exact (s : bool) (m e : Z) :
  0 < m -> fexp prec emax (Z.log2 m + 1 + e) >= e ->
  binary_round_aux prec emax s m e loc_Exact = round_pos s m e.
Proof.
  intros Hm HE. unfold binary_round_aux, round_pos, shr_fexp.
  rewrite Zdigits2_log2 by assumption.
  set (E := fexp prec emax (Z.log2 m + 1 + e)) in *.
  assert (HEmin : -1074 <= E) by (unfold E; rewrite fexp_eq; lia).
  assert (HEd : Z.log2 m + 1 + e - 53 <= E) by (unfold E; rewrite fexp_eq; lia).
  cbn [shr_record_of_loc].
  assert (Hfin : forall N, 0 < N -> N < 2 ^ 53 -> Z.log2 N + 1 + E - 53 <= E).
  { intros N H0 H1. assert (Z.log2 N < 53) by (apply Z.log2_lt_pow2; lia). lia. }
  destruct (Z.eq_dec E e) as [Heq | Hne].
  - (* no shift: the mantissa is already at the canonical exponent *)
    rewrite Heq, Z.sub_diag, shr_noop by lia.
    cbn [shr_m loc_of_shr_record round_nearest_even].
    rewrite Zdigits2_log2 by assumption. fold E. rewrite Heq, Z.sub_diag, shr_noop by lia.
    cbn [shr_m]. rewrite Z.leb_refl, Z.pow_0_r, Z.mul_1_r.
    assert (m < 2 ^ 53) by (apply log2_lt_pow2'; lia).
    destruct (Z.eqb_spec m (2 ^ 53)); [lia|].
    destruct m; try lia. reflexivity.
  - assert (Hk : 0 < E - e) by lia.
    destruct (shr_exact m e (E - e) ltac:(lia) Hk) as (r & Hr & HN).
    rewrite Hr, HN. replace (e + (E - e)) with E by lia.
    destruct (Z.leb_spec E e); [lia|].
    set (N := rne_shift m (E - e)) in *.
    assert (HN0 : 0 <= N).
    { pose proof (rne_shift_bounds m (E - e)). fold N in H0.
      assert (0 <= m / 2 ^ (E - e)) by (apply Z.div_pos; [lia | apply Z.pow_pos_nonneg; lia]).
      lia. }
    assert (HN1 : N <= 2 ^ 53).
    { pose proof (rne_shift_bounds m (E - e)). fold N in H0.
      assert (m / 2 ^ (E - e) < 2 ^ 53); [|lia].
      apply div_lt_pow2; try lia. apply log2_lt_pow2'; lia. }
    destruct (Z.eqb_spec N (2 ^ 53)) as [HNe | HNe].
    + rewrite HNe. change (Zdigits2 (2 ^ 53)) with 54.
      replace (fexp prec emax (54 + E) - E) with 1 by (rewrite fexp_eq; lia).
      reflexivity.
    + destruct (Z.eq_dec N 0) as [HN00 | HN00].
      * rewrite HN00. cbn [Zdigits2 shr_record_of_loc].
        rewrite shr_noop by (rewrite fexp_eq; lia). reflexivity.
      * rewrite Zdigits2_log2 by lia. cbn [shr_record_of_loc].
        rewrite shr_noop.
        -- cbn [shr_m]. destruct N; try lia. reflexivity.
        -- rewrite fexp_eq. specialize (Hfin N ltac:(lia) ltac:(lia)). lia.
Qed.

Lemma binary_round_correct (s : bool) (m : positive) (e : Z) :
  binary_round prec emax s m e = round_pos s (Zpos m) e.
Proof.
  unfold binary_round, shl_align. rewrite digits2_pos_log2.
  set (E := fexp prec emax (Z.log2 (Zpos m) + 1 + e)).
  assert (HEd : Z.log2 (Zpos m) + 1 + e - 53 <= E) by (unfold E; rewrite fexp_eq; lia).
  assert (HEmin : -1074 <= E) by (unfold E; rewrite fexp_eq; lia).
  destruct (E - e) as [| p | d] eqn:HEe.
  - apply binary_round_aux_exact; [lia | fold E; lia].
  - apply binary_round_aux_exact; [lia | fold E; lia].
  - rewrite binary_round_aux_exact.
    + rewrite pos_iter_xO. unfold round_pos.
      rewrite Z.log2_mul_pow2 by lia.
      replace (Z.pos d + Z.log2 (Z.pos m) + 1 + E) with (Z.log2 (Zpos m) + 1 + e) by lia.
      fold E. rewrite Z.leb_refl, Z.sub_diag, Z.pow_0_r, Z.mul_1_r.
      destruct (Z.leb_spec E e); [|lia].
      replace (e - E) with (Zpos d) by lia. reflexivity.
    + lia.
    + rewrite pos_iter_xO, Z.log2_mul_pow2 by lia.
      replace (Z.pos d + Z.log2 (Z.pos m) + 1 + E) with (Z.log2 (Zpos m) + 1 + e) by lia.
      fold E. lia.
Qed.

(** ** Rounding is invariant under shifts, valid and bounded *)

Lemma rne_shift_scale (n k j : Z) :
  0 <= k -> 0 <= j -> rne_shift (n * 2 ^ j) (k + j) = rne_shift n k.
Proof.
  intros Hk Hj. unfold rne_shift.
  assert (Pj : 0 < 2 ^ j) by (apply Z.pow_pos_nonneg; lia).
  assert (Pk : 0 < 2 ^ k) by (apply Z.pow_pos_nonneg; lia).
  rewrite Z.pow_add_r by lia.
  rewrite Z.div_mul_cancel_r by lia.
  rewrite Z.mul_mod_distr_r by lia.
  replace (2 * (n mod 2 ^ k * 2 ^ j)) with (2 * (n mod 2 ^ k) * 2 ^ j) by ring.
  rewrite <- Zmult_compare_compat_r by lia. reflexivity.
Qed.

Lemma rne_shift_mul_pow2 (n k : Z) :
  0 <= k -> rne_shift (n * 2 ^ k) k = n.
Proof.
  intro Hk. rewrite <- (rne_shift_0 n) at 2.
  apply (rne_shift_scale n 0 k); lia.
Qed.

Lemma rne_shift_mono (n n' k : Z) :
  0 <= k -> n <= n' -> rne_shift n k <= rne_shift n' k.
Proof.
  intros Hk Hn. unfold rne_shift.
  assert (Pk : 0 < 2 ^ k) by (apply Z.pow_pos_nonneg; lia).
  pose proof (Z.div_mod n (2 ^ k) ltac:(lia)) as D.
  pose proof (Z.div_mod n' (2 ^ k) ltac:(lia)) as D'.
  pose proof (Z.mod_pos_bound n (2 ^ k) Pk) as B.
  pose proof (Z.mod_pos_bound n' (2 ^ k) Pk) as B'.
  set (q := n / 2 ^ k) in *. set (q' := n' / 2 ^ k) in *.
  set (r := n mod 2 ^ k) in *. set (r' := n' mod 2 ^ k) in *.
  set (P := 2 ^ k) in *.
  assert (Hq : q <= q') by (apply Z.div_le_mono; lia).
  destruct (Z.eq_dec q q') as [Heq | Hne].
  - assert (r <= r') by nia. rewrite <- Heq.
    destruct (Z.compare_spec (2 * r) P); destruct (Z.compare_spec (2 * r') P);
      try lia; destruct (Z.even q); lia.
  - assert (q + 1 <= q') by lia.
    destruct (2 * r ?= P); destruct (2 * r' ?= P);
      try destruct (Z.even q); try destruct (Z.even q'); lia.
Qed.

Lemma round_pos_pair (s : bool) (m e : Z) :
  round_pos s m e =
  match fst (round_pair m e) with
  | Zpos M =>
      if snd (round_pair m e) <=? emax - prec
      then S754_finite s M (snd (round_pair m e)) else S754_infinity s
  | _ => S754_zero s
  end.
Proof.
  unfold round_pos, round_pair. destruct (_ =? 2 ^ 53); reflexivity.
Qed.

Lemma round_pos_shift (s : bool) (m e j : Z) :
  0 < m -> 0 <= j -> round_pos s (m * 2 ^ j) (e - j) = round_pos s m e.
Proof.
  intros Hm Hj. unfold round_pos.
  rewrite Z.log2_mul_pow2 by lia.
  replace (j + Z.log2 m + 1 + (e - j)) with (Z.log2 m + 1 + e) by lia.
  set (E := fexp prec emax (Z.log2 m + 1 + e)).
  destruct (Z.leb_spec E (e - j)) as [H1 | H1].
  - destruct (Z.leb_spec E e); [|lia].
    replace (m * 2 ^ j * 2 ^ (e - j - E)) with (m * 2 ^ (e - E)); [reflexivity|].
    rewrite <- Z.mul_assoc, <- Z.pow_add_r by lia. f_equal. f_equal. lia.
  - destruct (Z.leb_spec E e) as [H2 | H2].
    + replace (m * 2 ^ j) with (m * 2 ^ (e - E) * 2 ^ (E - (e - j))).
      * rewrite rne_shift_mul_pow2 by lia. reflexivity.
      * rewrite <- Z.mul_assoc, <- Z.pow_add_r by lia. f_equal. f_equal. lia.
    + replace (E - (e - j)) with (E - e + j) by lia.
      rewrite rne_shift_scale by lia. reflexivity.
Qed.

Lemma round_pos_opp (s : bool) (m e : Z) :
  round_pos (negb s) m e = SFopp (round_pos s m e).
Proof.
  rewrite !round_pos_pair. destruct (fst _); try reflexivity.
  destruct (_ <=? _); reflexivity.
Qed.

(** What [round_pair] returns: a mantissa of at most 53 bits, of exactly 53
    bits above the least exponent. *)
Lemma round_pair_spec (m e : Z) :
  0 < m ->
  let (N, E) := round_pair m e in
  0 <= N < 2 ^ 53 /\ -1074 <= E /\ (N < 2 ^ 52 -> E = -1074).
Proof.
  intro Hm. unfold round_pair.
  set (E := fexp prec emax (Z.log2 m + 1 + e)).
  assert (HEd : Z.log2 m + 1 + e - 53 <= E) by (unfold E; rewrite fexp_eq; lia).
  assert (HEmin : -1074 <= E) by (unfold E; rewrite fexp_eq; lia).
  assert (HE : E = -1074 \/ E = Z.log2 m + 1 + e - 53) by (unfold E; rewrite fexp_eq; lia).
  pose proof (Z.log2_spec m Hm) as [Lo Hi].
  pose proof (Z.log2_nonneg m) as Lnn.
  set (N := if E <=? e then m * 2 ^ (e - E) else rne_shift m (E - e)).
  assert (HN : 0 <= N <= 2 ^ 53 /\ (N < 2 ^ 52 -> E = -1074)).
  { unfold N. destruct (Z.leb_spec E e) as [H1 | H1].
    - assert (P : 0 < 2 ^ (e - E)) by (apply Z.pow_pos_nonneg; lia).
      assert (m * 2 ^ (e - E) < 2 ^ 53).
      { apply log2_lt_pow2'; [nia|]. rewrite Z.log2_mul_pow2 by lia. lia. }
      split; [nia|]. intro Hlt. destruct HE as [HE | HE]; [assumption|].
      exfalso. assert (52 <= Z.log2 (m * 2 ^ (e - E))).
      { rewrite Z.log2_mul_pow2 by lia. lia. }
      assert (Z.log2 (m * 2 ^ (e - E)) < 52) by (apply Z.log2_lt_pow2; nia). lia.
    - pose proof (rne_shift_bounds m (E - e)) as RB.
      assert (P : 0 < 2 ^ (E - e)) by (apply Z.pow_pos_nonneg; lia).
      assert (0 <= m / 2 ^ (E - e)) by (apply Z.div_pos; lia).
      assert (m / 2 ^ (E - e) < 2 ^ 53).
      { apply div_lt_pow2; try lia. apply log2_lt_pow2'; lia. }
      split; [lia|]. intro Hlt. destruct HE as [HE | HE]; [assumption|].
      exfalso. assert (2 ^ 52 <= m / 2 ^ (E - e)); [|lia].
      apply Z.div_le_lower_bound; [lia|].
      rewrite <- Z.pow_add_r by lia.
      replace (E - e + 52) with (Z.log2 m) by lia. assumption. }
  destruct (Z.eqb_spec N (2 ^ 53)) as [HNe | HNe].
  - repeat split; try lia.
  - repeat split; try lia; apply HN.
Qed.

Lemma round_pos_valid (s : bool) (m e : Z) :
  0 < m -> valid_binary (round_pos s m e) = true.
Proof.
  intro Hm. rewrite round_pos_pair.
  pose proof (round_pair_spec m e Hm) as H.
  destruct (round_pair m e) as [N E]. cbn [fst snd].
  destruct H as (HN & HE & Hsub).
  destruct N as [| M |]; try reflexivity.
  destruct (Z.leb_spec E (emax - prec)) as [Hle | Hgt]; [|reflexivity].
  cbn [valid_binary]. unfold bounded, canonical_mantissa.
  rewrite digits2_pos_log2, fexp_eq.
  apply andb_true_intro. split; [|apply Z.leb_le; assumption].
  apply Z.eqb_eq.
  assert (Z.log2 (Zpos M) < 53) by (apply Z.log2_lt_pow2; lia).
  destruct (Z_lt_le_dec (Zpos M) (2 ^ 52)) as [Hlt | Hge].
  - specialize (Hsub Hlt). lia.
  - assert (52 <= Z.log2 (Zpos M)) by (apply Z.log2_le_pow2; lia). lia.
Qed.

Lemma bounded_spec (m : positive) (e : Z) :
  bounded prec emax m e = true ->
  fexp prec emax (Z.log2 (Zpos m) + 1 + e) = e /\ e <= 971 /\ Zpos m < 2 ^ 53
  /\ -1074 <= e /\ (Zpos m < 2 ^ 52 -> e = -1074).
Proof.
  unfold bounded, canonical_mantissa. intro H.
  apply andb_true_iff in H. destruct H as [H1 H2].
  apply Z.eqb_eq in H1. apply Z.leb_le in H2.
  rewrite digits2_pos_log2 in H1. rewrite fexp_eq in *.
  change (emax - prec) with 971 in H2.
  repeat split; try lia.
  - apply log2_lt_pow2'; lia.
  - intro Hlt. assert (Z.log2 (Zpos m) < 52) by (apply Z.log2_lt_pow2; lia). lia.
Qed.

Lemma round_pos_bounded (s : bool) (m : positive) (e : Z) :
  bounded prec emax m e = true -> round_pos s (Zpos m) e = S754_finite s m e.
Proof.
  intro H. apply bounded_spec in H. destruct H as (HE & He & Hm & _).
  unfold round_pos. rewrite HE, Z.leb_refl, Z.sub_diag, Z.pow_0_r, Z.mul_1_r.
  destruct (Z.eqb_spec (Zpos m) (2 ^ 53)); [lia|].
  change (emax - prec) with 971. destruct (Z.leb_spec e 971); [reflexivity | lia].
Qed.

(** ** Rounding is monotone *)

Lemma round_pair_mono (m m' e : Z) :
  0 < m <= m' -> e <= -1074 ->
  snd (round_pair m e) < snd (round_pair m' e)
  \/ (snd (round_pair m e) = snd (round_pair m' e)
      /\ fst (round_pair m e) <= fst (round_pair m' e)).
Proof.
  intros Hm He. unfold round_pair.
  pose proof (Z.log2_le_mono m m' ltac:(lia)) as HL.
  set (E := fexp prec emax (Z.log2 m + 1 + e)).
  set (E' := fexp prec emax (Z.log2 m' + 1 + e)).
  assert (HE : E = -1074 \/ (E = Z.log2 m + 1 + e - 53 /\ -1074 < E))
    by (unfold E; rewrite fexp_eq; lia).
  assert (HE' : E' = -1074 \/ (E' = Z.log2 m' + 1 + e - 53 /\ -1074 < E'))
    by (unfold E'; rewrite fexp_eq; lia).
  assert (HEE : E <= E') by (unfold E, E'; rewrite !fexp_eq; lia).
  assert (HN : forall n F, 0 < n -> e <= F -> F = fexp prec emax (Z.log2 n + 1 + e) ->
            (if F <=? e then n * 2 ^ (e - F) else rne_shift n (F - e)) = rne_shift n (F - e)
            /\ 0 <= rne_shift n (F - e) <= 2 ^ 53
            /\ (-1074 < F -> 2 ^ 52 <= rne_shift n (F - e))).
  { intros n F Hn HF HFe.
    pose proof (Z.log2_spec n Hn) as [Lo Hi]. pose proof (Z.log2_nonneg n) as Lnn.
    assert (F = -1074 \/ (F = Z.log2 n + 1 + e - 53 /\ -1074 < F))
      by (rewrite HFe, fexp_eq; lia).
    assert (Z.log2 n + 1 + e - 53 <= F) by (rewrite HFe, fexp_eq; lia).
    assert (P : 0 < 2 ^ (F - e)) by (apply Z.pow_pos_nonneg; lia).
    pose proof (rne_shift_bounds n (F - e)) as RB.
    assert (0 <= n / 2 ^ (F - e)) by (apply Z.div_pos; lia).
    assert (n / 2 ^ (F - e) < 2 ^ 53).
    { apply div_lt_pow2; try lia. apply log2_lt_pow2'; lia. }
    split; [|split; [lia|]].
    - destruct (Z.leb_spec F e); [|reflexivity].
      replace F with e by lia. rewrite Z.sub_diag, Z.pow_0_r, Z.mul_1_r, rne_shift_0.
      reflexivity.
    - intro Hgt. assert (2 ^ 52 <= n / 2 ^ (F - e)); [|lia].
      apply Z.div_le_lower_bound; [lia|].
      rewrite <- Z.pow_add_r by lia.
      replace (F - e + 52) with (Z.log2 n) by lia. assumption. }
  destruct (HN m E ltac:(lia) ltac:(lia) eq_refl) as (-> & B1 & C1).
  destruct (HN m' E' ltac:(lia) ltac:(lia) eq_refl) as (-> & B2 & C2).
  set (N := rne_shift m (E - e)) in *. set (N' := rne_shift m' (E' - e)) in *.
  destruct (Z.eq_dec E E') as [Heq | Hne].
  - assert (N <= N').
    { unfold N, N'. rewrite <- Heq. apply rne_shift_mono; lia. }
    destruct (Z.eqb_spec N (2 ^ 53)); destruct (Z.eqb_spec N' (2 ^ 53));
      cbn [fst snd]; lia.
  - assert (E < E') by lia. specialize (C2 ltac:(lia)).
    destruct (Z.eqb_spec N (2 ^ 53)); destruct (Z.eqb_spec N' (2 ^ 53));
      cbn [fst snd]; lia.
Qed.

Lemma SFleb_finite_pos (m1 m2 : positive) (e1 e2 : Z) :
  e1 < e2 \/ (e1 = e2 /\ (m1 <= m2)%positive) ->
  SFleb (S754_finite false m1 e1) (S754_finite false m2 e2) = true.
Proof.
  intro H. unfold SFleb, SFcompare.
  destruct (Z.compare_spec e1 e2); try lia; try reflexivity.
  destruct H as [H | [_ H]]; [lia|].
  fold (Pos.compare m1 m2).
  destruct (Pos.compare_spec m1 m2); try reflexivity; lia.
Qed.

Lemma SFleb_finite_neg (m1 m2 : positive) (e1 e2 : Z) :
  e2 < e1 \/ (e1 = e2 /\ (m2 <= m1)%positive) ->
  SFleb (S754_finite true m1 e1) (S754_finite true m2 e2) = true.
Proof.
  intro H. unfold SFleb, SFcompare.
  destruct (Z.compare_spec e1 e2); try lia; try reflexivity.
  destruct H as [H | [_ H]]; [lia|].
  fold (Pos.compare m1 m2).
  destruct (Pos.compare_spec m1 m2); try reflexivity; lia.
Qed.

Lemma round_pos_mono (m m' e : Z) :
  0 < m <= m' -> e <= -1074 ->
  SFleb (round_pos false m e) (round_pos false m' e) = true
  /\ SFleb (round_pos true m' e) (round_pos true m e) = true.
Proof.
  intros Hm He. rewrite !round_pos_pair.
  pose proof (round_pair_mono m m' e Hm He) as HM.
  pose proof (round_pair_spec m e ltac:(lia)) as S1.
  pose proof (round_pair_spec m' e ltac:(lia)) as S2.
  destruct (round_pair m e) as [N1 E1]. destruct (round_pair m' e) as [N2 E2].
  cbn [fst snd] in *.
  destruct S1 as (A1 & B1 & C1). destruct S2 as (A2 & B2 & C2).
  destruct N1 as [| M1 |]; destruct N2 as [| M2 |]; try lia.
  - split; reflexivity.
  - split; destruct (E2 <=? emax - prec); reflexivity.
  - destruct (Z.leb_spec E1 (emax - prec)); destruct (Z.leb_spec E2 (emax - prec));
      try lia; try (split; reflexivity).
    split; [apply SFleb_finite_pos | apply SFleb_finite_neg].
    all: lia.
Qed.

(** ** Binary64 numbers as integers in units of [2^-1074] *)

Lemma round_Z_eq (g n : Z) :
  round_Z g n =
  if n =? 0 then S754_zero false else round_pos (n <? 0) (Z.abs n) g.
Proof.
  unfold round_Z, binary_normalize. destruct n; try reflexivity;
    apply binary_round_correct.
Qed.

Lemma round_Z_shift (g n j : Z) :
  0 <= j -> round_Z (g - j) (n * 2 ^ j) = round_Z g n.
Proof.
  intro Hj. rewrite !round_Z_eq.
  assert (P : 0 < 2 ^ j) by (apply Z.pow_pos_nonneg; lia).
  destruct (Z.eqb_spec n 0) as [-> | Hn]; [reflexivity|].
  destruct (Z.eqb_spec (n * 2 ^ j) 0) as [H0 | _]; [nia|].
  rewrite Z.abs_mul, (Z.abs_eq (2 ^ j)) by lia.
  replace (n * 2 ^ j <? 0) with (n <? 0).
  - apply round_pos_shift; lia.
  - destruct (Z.ltb_spec n 0); destruct (Z.ltb_spec (n * 2 ^ j) 0); try reflexivity; nia.
Qed.

Lemma round_Z_opp (g n : Z) : round_Z g (- n) = nz (SFopp (round_Z g n)) \/ n <> 0 /\ round_Z g (- n) = SFopp (round_Z g n).
Proof.
  rewrite !round_Z_eq. destruct (Z.eqb_spec n 0) as [-> | Hn].
  - left. reflexivity.
  - right. split; [assumption|].
    destruct (Z.eqb_spec (- n) 0); [lia|]. rewrite Z.abs_opp.
    rewrite <- round_pos_opp. f_equal.
    destruct (Z.ltb_spec n 0); destruct (Z.ltb_spec (- n) 0); try reflexivity; lia.
Qed.

Lemma round_Z_ulps (x : spec_float) :
  valid_binary x = true -> is_finite_SF x = true ->
  round_Z (-1074) (ulps x) = nz x.
Proof.
  intros Hv Hf. destruct x as [s | s | | s m e]; try discriminate; try reflexivity.
  cbn [valid_binary] in Hv. pose proof (bounded_spec m e Hv) as (_ & _ & _ & He & _).
  cbn [ulps nz]. rewrite round_Z_eq.
  assert (P : 0 < 2 ^ (e + 1074)) by (apply Z.pow_pos_nonneg; lia).
  destruct s; cbn [cond_Zopp].
  - destruct (Z.eqb_spec (- (Zpos m * 2 ^ (e + 1074))) 0); [nia|].
    destruct (Z.ltb_spec (- (Zpos m * 2 ^ (e + 1074))) 0); [|nia].
    rewrite Z.abs_opp, Z.abs_eq by nia.
    replace (-1074) with (e - (e + 1074)) by lia.
    rewrite round_pos_shift by lia. apply round_pos_bounded. assumption.
  - destruct (Z.eqb_spec (Zpos m * 2 ^ (e + 1074)) 0); [nia|].
    destruct (Z.ltb_spec (Zpos m * 2 ^ (e + 1074)) 0); [nia|].
    rewrite Z.abs_eq by nia.
    replace (-1074) with (e - (e + 1074)) by lia.
    rewrite round_pos_shift by lia. apply round_pos_bounded. assumption.
Qed.

Lemma round_pos_sign (s : bool) (m e : Z) : has_sign s (round_pos s m e).
Proof.
  rewrite round_pos_pair. destruct (fst _); try reflexivity.
  destruct (_ <=? _); reflexivity.
Qed.

Lemma SFleb_signs (x y : spec_float) :
  has_sign true x -> has_sign false y -> SFleb x y = true.
Proof.
  destruct x as [[|] | [|] | | [|] ? ?]; cbn; try easy;
    destruct y as [[|] | [|] | | [|] ? ?]; cbn; easy.
Qed.

Lemma SFleb_zero_r (x : spec_float) (b : bool) :
  has_sign true x -> SFleb x (S754_zero b) = true.
Proof. destruct x as [[|] | [|] | | [|] ? ?]; cbn; easy. Qed.

Lemma SFleb_zero_l (y : spec_float) (b : bool) :
  has_sign false y -> SFleb (S754_zero b) y = true.
Proof. destruct y as [[|] | [|] | | [|] ? ?]; cbn; easy. Qed.

Lemma round_Z_mono (g n n' : Z) :
  g <= -1074 -> n <= n' -> SFleb (round_Z g n) (round_Z g n') = true.
Proof.
  intros Hg Hn. rewrite !round_Z_eq.
  destruct (Z.eqb_spec n 0) as [Hz | Hnz]; destruct (Z.eqb_spec n' 0) as [Hz' | Hnz'].
  - reflexivity.
  - destruct (Z.ltb_spec n' 0); [lia|]. apply SFleb_zero_l, round_pos_sign.
  - destruct (Z.ltb_spec n 0); [|lia]. apply SFleb_zero_r, round_pos_sign.
  - destruct (Z.ltb_spec n 0); destruct (Z.ltb_spec n' 0); try lia.
    + apply round_pos_mono; lia.
    + apply SFleb_signs; apply round_pos_sign.
    + apply round_pos_mono; lia.
Qed.

Lemma SFleb_nz (x y : spec_float) : SFleb (nz x) (nz y) = SFleb x y.
Proof. destruct x as [| | |[|] ? ?]; destruct y as [| | |[|] ? ?]; reflexivity. Qed.

Lemma pow2_split (a b : Z) : 0 <= a -> 0 <= b -> 2 ^ (a + b) = 2 ^ a * 2 ^ b.
Proof. intros. apply Z.pow_add_r; assumption. Qed.

Lemma bounded_lex_value (m1 m2 : positive) (e1 e2 : Z) :
  bounded prec emax m1 e1 = true -> bounded prec emax m2 e2 = true ->
  e1 < e2 \/ (e1 = e2 /\ (m1 <= m2)%positive) ->
  Zpos m1 * 2 ^ (e1 + 1074) <= Zpos m2 * 2 ^ (e2 + 1074).
Proof.
  intros B1 B2 H.
  apply bounded_spec in B1. destruct B1 as (_ & _ & M1 & E1 & _).
  apply bounded_spec in B2. destruct B2 as (_ & _ & _ & E2 & S2).
  destruct H as [H | [-> H]].
  - assert (2 ^ 52 <= Zpos m2).
    { destruct (Z_lt_le_dec (Zpos m2) (2 ^ 52)) as [Hlt | Hge]; [|exact Hge].
      specialize (S2 Hlt). lia. }
    assert (P : 0 < 2 ^ (e1 + 1074)) by (apply Z.pow_pos_nonneg; lia).
    replace (e2 + 1074) with ((e2 - e1 - 1) + 1 + (e1 + 1074)) by lia.
    rewrite (pow2_split (e2 - e1 - 1 + 1) (e1 + 1074)) by lia.
    rewrite (pow2_split (e2 - e1 - 1) 1) by lia.
    assert (1 <= 2 ^ (e2 - e1 - 1)) by (apply (Z.pow_le_mono_r 2 0); lia).
    change (2 ^ 1) with 2. change (2 ^ 53) with (2 * 2 ^ 52) in M1.
    set (P1 := 2 ^ (e1 + 1074)) in *. set (K := 2 ^ (e2 - e1 - 1)) in *.
    set (c := 2 ^ 52) in *.
    assert (Zpos m1 * P1 <= 2 * c * P1) by nia.
    assert (2 * c * P1 <= 2 * Zpos m2 * P1) by nia.
    assert (0 <= Zpos m2 * P1 * (K - 1)) by (apply Z.mul_nonneg_nonneg; nia).
    nia.
  - assert (P : 0 < 2 ^ (e2 + 1074)) by (apply Z.pow_pos_nonneg; lia). nia.
Qed.

Lemma SFleb_finite_pos_inv (m1 m2 : positive) (e1 e2 : Z) :
  SFleb (S754_finite false m1 e1) (S754_finite false m2 e2) = true ->
  e1 < e2 \/ (e1 = e2 /\ (m1 <= m2)%positive).
Proof.
  unfold SFleb, SFcompare. destruct (Z.compare_spec e1 e2); try lia; try discriminate.
  fold (Pos.compare m1 m2). destruct (Pos.compare_spec m1 m2); try discriminate; lia.
Qed.

Lemma SFleb_finite_neg_inv (m1 m2 : positive) (e1 e2 : Z) :
  SFleb (S754_finite true m1 e1) (S754_finite true m2 e2) = true ->
  e2 < e1 \/ (e1 = e2 /\ (m2 <= m1)%positive).
Proof.
  unfold SFleb, SFcompare. destruct (Z.compare_spec e1 e2); try lia; try discriminate.
  fold (Pos.compare m1 m2). destruct (Pos.compare_spec m1 m2); try discriminate; lia.
Qed.

Lemma SFleb_ulps (x y : spec_float) :
  valid_binary x = true -> valid_binary y = true ->
  is_finite_SF x = true -> is_finite_SF y = true ->
  SFleb x y = true -> ulps x <= ulps y.
Proof.
  intros Vx Vy Fx Fy H.
  destruct x as [sx | | | sx mx ex]; try discriminate;
    destruct y as [sy | | | sy my ey]; try discriminate; cbn [ulps].
  - destruct sy; [discriminate|]. cbn [cond_Zopp].
    apply Z.mul_nonneg_nonneg; [lia | apply Z.pow_nonneg; lia].
  - destruct sx; [|discriminate]. cbn [cond_Zopp].
    assert (0 <= Zpos mx * 2 ^ (ex + 1074)); [|lia].
    apply Z.mul_nonneg_nonneg; [lia | apply Z.pow_nonneg; lia].
  - cbn [valid_binary] in Vx, Vy.
    assert (0 <= Zpos mx * 2 ^ (ex + 1074))
      by (apply Z.mul_nonneg_nonneg; [lia | apply Z.pow_nonneg; lia]).
    assert (0 <= Zpos my * 2 ^ (ey + 1074))
      by (apply Z.mul_nonneg_nonneg; [lia | apply Z.pow_nonneg; lia]).
    destruct sx, sy; cbn [cond_Zopp]; try lia.
    + apply SFleb_finite_neg_inv in H.
      pose proof (bounded_lex_value my mx ey ex Vy Vx ltac:(lia)). lia.
    + discriminate.
    + apply SFleb_finite_pos_inv in H.
      apply (bounded_lex_value mx my ex ey Vx Vy H).
Qed.

(** ** Addition, subtraction and multiplication as roundings of exact results *)

Lemma shl_align_fst (mx : positive) (ex ez : Z) :
  ez <= ex -> Zpos (fst (shl_align mx ex ez)) = Zpos mx * 2 ^ (ex - ez).
Proof.
  intro H. unfold shl_align. destruct (ez - ex) as [| p | d] eqn:E; try lia.
  - replace (ex - ez) with 0 by lia. cbn [fst]. lia.
  - cbn [fst]. rewrite pos_iter_xO. f_equal. f_equal. lia.
Qed.

Lemma cond_Zopp_mul (s : bool) (a b : Z) : cond_Zopp s a * b = cond_Zopp s (a * b).
Proof. destruct s; cbn [cond_Zopp]; ring. Qed.

Lemma ulps_aligned (s : bool) (m : positive) (e ez : Z) :
  -1074 <= ez <= e ->
  cond_Zopp s (Zpos (fst (shl_align m e ez))) * 2 ^ (ez + 1074)
  = ulps (S754_finite s m e).
Proof.
  intro H. rewrite shl_align_fst by lia. cbn [ulps].
  rewrite cond_Zopp_mul. f_equal. rewrite <- Z.mul_assoc, <- Z.pow_add_r by lia.
  f_equal. f_equal. lia.
Qed.

Lemma finite_exponent (s : bool) (m : positive) (e : Z) :
  valid_binary (S754_finite s m e) = true -> -1074 <= e.
Proof. intro H. apply bounded_spec in H. lia. Qed.

Lemma SFadd_ulps (a b : spec_float) :
  valid_binary a = true -> valid_binary b = true ->
  is_finite_SF a = true -> is_finite_SF b = true ->
  nz (SF64add a b) = nz (round_Z (-1074) (ulps a + ulps b)).
Proof.
  intros Va Vb Fa Fb.
  destruct a as [sa | | | sa ma ea]; try discriminate;
    destruct b as [sb | | | sb mb eb]; try discriminate.
  - destruct sa, sb; reflexivity.
  - cbn [SF64add SFadd]. change (ulps (S754_zero sa)) with 0. rewrite Z.add_0_l.
    rewrite round_Z_ulps by assumption. reflexivity.
  - cbn [SF64add SFadd]. change (ulps (S754_zero sb)) with 0. rewrite Z.add_0_r.
    rewrite round_Z_ulps by assumption. reflexivity.
  - pose proof (finite_exponent _ _ _ Va). pose proof (finite_exponent _ _ _ Vb).
    unfold SF64add, SFadd. fold (round_Z (Z.min ea eb)).
    set (ez := Z.min ea eb).
    rewrite <- (ulps_aligned sa ma ea ez), <- (ulps_aligned sb mb eb ez) by lia.
    rewrite <- Z.mul_add_distr_r.
    replace (-1074) with (ez - (ez + 1074)) at 1 by lia.
    rewrite round_Z_shift by lia. reflexivity.
Qed.

Lemma SFsub_ulps (a b : spec_float) :
  valid_binary a = true -> valid_binary b = true ->
  is_finite_SF a = true -> is_finite_SF b = true ->
  nz (SF64sub a b) = nz (round_Z (-1074) (ulps a - ulps b)).
Proof.
  intros Va Vb Fa Fb.
  destruct a as [sa | | | sa ma ea]; try discriminate;
    destruct b as [sb | | | sb mb eb]; try discriminate.
  - destruct sa, sb; reflexivity.
  - cbn [SF64sub SFsub]. change (ulps (S754_zero sa)) with 0. rewrite Z.sub_0_l.
    replace (- ulps (S754_finite sb mb eb)) with (ulps (S754_finite (negb sb) mb eb))
      by (cbn [ulps]; destruct sb; cbn [cond_Zopp negb]; lia).
    rewrite round_Z_ulps by assumption. reflexivity.
  - cbn [SF64sub SFsub]. change (ulps (S754_zero sb)) with 0. rewrite Z.sub_0_r.
    rewrite round_Z_ulps by assumption. reflexivity.
  - pose proof (finite_exponent _ _ _ Va). pose proof (finite_exponent _ _ _ Vb).
    unfold SF64sub, SFsub. fold (round_Z (Z.min ea eb)).
    set (ez := Z.min ea eb).
    rewrite <- (ulps_aligned sa ma ea ez), <- (ulps_aligned sb mb eb ez) by lia.
    rewrite <- Z.mul_sub_distr_r.
    replace (-1074) with (ez - (ez + 1074)) at 1 by lia.
    rewrite round_Z_shift by lia. reflexivity.
Qed.

Lemma product_exponent (ma mb : positive) (ea eb : Z) :
  bounded prec emax ma ea = true -> bounded prec emax mb eb = true ->
  fexp prec emax (Z.log2 (Zpos ma * Zpos mb) + 1 + (ea + eb)) >= ea + eb.
Proof.
  intros Ba Bb. apply bounded_spec in Ba, Bb.
  destruct Ba as (_ & _ & _ & Ea & Sa). destruct Bb as (_ & _ & _ & Eb & Sb).
  rewrite fexp_eq.
  pose proof (Z.log2_mul_below (Zpos ma) (Zpos mb) ltac:(lia) ltac:(lia)) as L.
  pose proof (Z.log2_nonneg (Zpos ma)). pose proof (Z.log2_nonneg (Zpos mb)).
  destruct (Z_lt_le_dec (Zpos ma) (2 ^ 52)) as [Ha | Ha];
    destruct (Z_lt_le_dec (Zpos mb) (2 ^ 52)) as [Hb | Hb].
  - specialize (Sa Ha). specialize (Sb Hb). lia.
  - specialize (Sa Ha). assert (52 <= Z.log2 (Zpos mb)) by (apply Z.log2_le_pow2; lia). lia.
  - specialize (Sb Hb). assert (52 <= Z.log2 (Zpos ma)) by (apply Z.log2_le_pow2; lia). lia.
  - assert (52 <= Z.log2 (Zpos mb)) by (apply Z.log2_le_pow2; lia).
    assert (52 <= Z.log2 (Zpos ma)) by (apply Z.log2_le_pow2; lia). lia.
Qed.

Lemma SFmul_ulps (a b : spec_float) :
  valid_binary a = true -> valid_binary b = true ->
  is_finite_SF a = true -> is_finite_SF b = true ->
  nz (SF64mul a b) = nz (round_Z (-2148) (ulps a * ulps b)).
Proof.
  intros Va Vb Fa Fb.
  destruct a as [sa | | | sa ma ea]; try discriminate;
    destruct b as [sb | | | sb mb eb]; try discriminate.
  - reflexivity.
  - reflexivity.
  - cbn [ulps]. rewrite Z.mul_0_r. reflexivity.
  - pose proof (finite_exponent _ _ _ Va). pose proof (finite_exponent _ _ _ Vb).
    cbn [valid_binary] in Va, Vb.
    unfold SF64mul, SFmul. rewrite Pos2Z.inj_mul.
    rewrite binary_round_aux_exact by (try lia; apply product_exponent; assumption).
    rewrite round_Z_eq. cbn [ulps].
    assert (Pa : 0 < 2 ^ (ea + 1074)) by (apply Z.pow_pos_nonneg; lia).
    assert (Pb : 0 < 2 ^ (eb + 1074)) by (apply Z.pow_pos_nonneg; lia).
    assert (Pab : 0 < Zpos ma * 2 ^ (ea + 1074) * (Zpos mb * 2 ^ (eb + 1074))) by nia.
    assert (Hval : Zpos ma * 2 ^ (ea + 1074) * (Zpos mb * 2 ^ (eb + 1074))
                   = Zpos ma * Zpos mb * 2 ^ (ea + eb + 2148)).
    { replace (ea + eb + 2148) with ((ea + 1074) + (eb + 1074)) by lia.
      rewrite (Z.pow_add_r 2 (ea + 1074) (eb + 1074)) by lia. ring. }
    assert (Hr : round_pos (xorb sa sb) (Zpos ma * Zpos mb) (ea + eb)
                 = round_pos (xorb sa sb) (Zpos ma * Zpos mb * 2 ^ (ea + eb + 2148)) (-2148)).
    { replace (-2148) with (ea + eb - (ea + eb + 2148)) by lia.
      rewrite round_pos_shift by lia. reflexivity. }
    rewrite Hr, <- Hval.
    destruct sa, sb; cbn [cond_Zopp xorb];
      match goal with
      | |- context [?n =? 0] => destruct (Z.eqb_spec n 0); [nia|]
      end;
      match goal with
      | |- context [?n <? 0] => destruct (Z.ltb_spec n 0); try nia
      end;
      do 2 f_equal; nia.
Qed.

Lemma SFadd_mono_l (a a' b : spec_float) :
  valid_binary a = true -> valid_binary a' = true -> valid_binary b = true ->
  is_finite_SF a = true -> is_finite_SF a' = true -> is_finite_SF b = true ->
  SFleb a a' = true -> SFleb (SF64add a b) (SF64add a' b) = true.
Proof.
  intros Va Va' Vb Fa Fa' Fb H.
  rewrite <- SFleb_nz, !SFadd_ulps, SFleb_nz by assumption.
  apply round_Z_mono; [lia|].
  pose proof (SFleb_ulps a a' Va Va' Fa Fa' H). lia.
Qed.

Lemma SFadd_mono_r (a b b' : spec_float) :
  valid_binary a = true -> valid_binary b = true -> valid_binary b' = true ->
  is_finite_SF a = true -> is_finite_SF b = true -> is_finite_SF b' = true ->
  SFleb b b' = true -> SFleb (SF64add a b) (SF64add a b') = true.
Proof.
  intros Va Vb Vb' Fa Fb Fb' H.
  rewrite <- SFleb_nz, !SFadd_ulps, SFleb_nz by assumption.
  apply round_Z_mono; [lia|].
  pose proof (SFleb_ulps b b' Vb Vb' Fb Fb' H). lia.
Qed.

Lemma SFmul_mono_l (a a' c : spec_float) :
  valid_binary a = true -> valid_binary a' = true -> valid_binary c = true ->
  is_finite_SF a = true -> is_finite_SF a' = true -> is_finite_SF c = true ->
  0 <= ulps c ->
  SFleb a a' = true -> SFleb (SF64mul a c) (SF64mul a' c) = true.
Proof.
  intros Va Va' Vc Fa Fa' Fc Hc H.
  rewrite <- SFleb_nz, !SFmul_ulps, SFleb_nz by assumption.
  apply round_Z_mono; [lia|].
  pose proof (SFleb_ulps a a' Va Va' Fa Fa' H).
  apply Z.mul_le_mono_nonneg_r; assumption.
Qed.

Lemma SFmul_mono_r (c a a' : spec_float) :
  valid_binary a = true -> valid_binary a' = true -> valid_binary c = true ->
  is_finite_SF a = true -> is_finite_SF a' = true -> is_finite_SF c = true ->
  0 <= ulps c ->
  SFleb a a' = true -> SFleb (SF64mul c a) (SF64mul c a') = true.
Proof.
  intros Va Va' Vc Fa Fa' Fc Hc H.
  rewrite <- SFleb_nz, !SFmul_ulps, SFleb_nz by assumption.
  apply round_Z_mono; [lia|].
  pose proof (SFleb_ulps a a' Va Va' Fa Fa' H).
  apply Z.mul_le_mono_nonneg_l; assumption.
Qed.

(** ** Classification of primitive floats *)

Lemma SFcompare_refl (x : spec_float) : x <> S754_nan -> SFcompare x x = Some Eq.
Proof.
  destruct x as [s | s | | s m e]; intro H; try easy; cbn.
  - destruct s; reflexivity.
  - rewrite Z.compare_refl, Pos.compare_cont_refl. destruct s; reflexivity.
Qed.

Lemma is_nan_spec (x : float) : is_nan x = true <-> Prim2SF x = S754_nan.
Proof.
  unfold is_nan. rewrite eqb_spec. unfold SFeqb. split.
  - intro H. destruct (Prim2SF x) eqn:E; try reflexivity;
      rewrite SFcompare_refl in H by discriminate; discriminate.
  - intros ->. reflexivity.
Qed.

Lemma is_nan_false (x : float) : is_nan x = false <-> Prim2SF x <> S754_nan.
Proof.
  rewrite <- is_nan_spec. destruct (is_nan x); split; congruence.
Qed.

Lemma Prim2SF_infinity : Prim2SF infinity = S754_infinity false.
Proof. reflexivity. Qed.

Lemma is_infinity_spec (x : float) :
  is_infinity x = true <-> exists s, Prim2SF x = S754_infinity s.
Proof.
  unfold is_infinity. rewrite eqb_spec, abs_spec, Prim2SF_infinity. split.
  - destruct (Prim2SF x) as [s | s | | s m e]; cbn; try discriminate.
    intros _. exists s. reflexivity.
  - intros [s ->]. reflexivity.
Qed.

Lemma is_finite_spec (x : float) : is_finite x = is_finite_SF (Prim2SF x).
Proof.
  unfold is_finite.
  destruct (Prim2SF x) as [s | s | | s m e] eqn:E.
  - replace (is_nan x) with false by (symmetry; apply is_nan_false; congruence).
    replace (is_infinity x) with false; [reflexivity|].
    symmetry. destruct (is_infinity x) eqn:I; [|reflexivity].
    apply is_infinity_spec in I. destruct I as [s' I]. congruence.
  - replace (is_infinity x) with true.
    + rewrite orb_true_r. reflexivity.
    + symmetry. apply is_infinity_spec. exists s. assumption.
  - replace (is_nan x) with true; [reflexivity|]. symmetry. apply is_nan_spec. assumption.
  - replace (is_nan x) with false by (symmetry; apply is_nan_false; congruence).
    replace (is_infinity x) with false; [reflexivity|].
    symmetry. destruct (is_infinity x) eqn:I; [|reflexivity].
    apply is_infinity_spec in I. destruct I as [s' I]. congruence.
Qed.

(** Not-a-number and the infinities are absorbing: a sum or a product is
    finite only when both operands are. *)
Lemma SFadd_finite_inv (a b : spec_float) :
  is_finite_SF (SF64add a b) = true -> is_finite_SF a = true /\ is_finite_SF b = true.
Proof.
  destruct a as [sa | [|] | | sa ma ea]; destruct b as [sb | [|] | | sb mb eb];
    try (intros _; split; reflexivity); cbn; intro H; discriminate.
Qed.

Lemma SFmul_finite_inv (a b : spec_float) :
  is_finite_SF (SF64mul a b) = true -> is_finite_SF a = true /\ is_finite_SF b = true.
Proof.
  destruct a as [sa | [|] | | sa ma ea]; destruct b as [sb | [|] | | sb mb eb];
    try (intros _; split; reflexivity); cbn; intro H; discriminate.
Qed.

Lemma add_finite_inv (a b : float) :
  is_finite (a + b) = true -> is_finite a = true /\ is_finite b = true.
Proof. rewrite !is_finite_spec, add_spec. apply SFadd_finite_inv. Qed.

Lemma mul_finite_inv (a b : float) :
  is_finite (a * b) = true -> is_finite a = true /\ is_finite b = true.
Proof. rewrite !is_finite_spec, mul_spec. apply SFmul_finite_inv. Qed.

Lemma ltb_leb (a b : float) : (a <? b)%float = true -> (a <=? b)%float = true.
Proof.
  rewrite ltb_spec, leb_spec. unfold SFltb, SFleb.
  destruct (SFcompare _ _) as [[| |] |]; easy.
Qed.

(** ** Decimal digit strings *)

Lemma digits_value_snoc (ds : list N) (d : N) :
  digits_value (ds ++ [d]) = (10 * digits_value ds + d)%N.
Proof. unfold digits_value. rewrite fold_left_app. reflexivity. Qed.

Lemma digits_value_zeros (j : nat) (ds : list N) :
  digits_value (repeat 0%N j ++ ds) = digits_value ds.
Proof.
  unfold digits_value. rewrite fold_left_app.
  replace (fold_left _ (repeat 0%N j) 0%N) with 0%N; [reflexivity|].
  induction j as [| j IH]; [reflexivity|]. cbn. exact IH.
Qed.

Lemma digits_fuel_spec (fuel : nat) (n : N) (acc : list N) :
  (n < 2 ^ N.of_nat (S fuel))%N ->
  exists ds,
    digits_fuel (S fuel) n acc = ds ++ acc
    /\ digits_value ds = n /\ all_digits ds /\ ds <> [].
Proof.
  revert n acc. induction fuel as [| fuel IH]; intros n acc Hn.
  - change (2 ^ N.of_nat 1)%N with 2%N in Hn.
    exists [n]. cbn [digits_fuel].
    assert (n / 10 = 0)%N as -> by (apply N.div_small; lia).
    rewrite N.mod_small by lia. cbn. repeat split; try easy.
    constructor; [lia | constructor].
  - cbn [digits_fuel]. destruct (N.eqb_spec (n / 10) 0) as [Hz | Hnz].
    + exists [(n mod 10)%N]. repeat split; try easy.
      * cbn. pose proof (N.div_mod n 10 ltac:(lia)). lia.
      * constructor; [apply N.mod_lt; lia | constructor].
    + destruct (IH (n / 10)%N ((n mod 10)%N :: acc)) as (ds & Hds & Hv & Ha & Hne).
      { replace (N.of_nat (S (S fuel))) with (N.succ (N.of_nat (S fuel))) in Hn by lia.
        rewrite N.pow_succ_r' in Hn.
        apply N.Div0.div_lt_upper_bound. lia. }
      exists (ds ++ [(n mod 10)%N]). repeat split.
      * cbn [digits_fuel] in Hds. rewrite Hds, <- app_assoc. reflexivity.
      * rewrite digits_value_snoc, Hv. pose proof (N.div_mod n 10 ltac:(lia)). lia.
      * apply Forall_app. split; [assumption|].
        constructor; [apply N.mod_lt; lia | constructor].
      * destruct ds; discriminate.
Qed.

Lemma decimal_digits_spec (n : N) :
  digits_value (decimal_digits n) = n /\ all_digits (decimal_digits n)
  /\ decimal_digits n <> [].
Proof.
  unfold decimal_digits.
  destruct (digits_fuel_spec (N.to_nat (N.log2 n)) n []) as (ds & Hds & Hv & Ha & Hne).
  - rewrite Nat2N.inj_succ, N2Nat.id.
    destruct n; [reflexivity|]. apply N.log2_spec. lia.
  - rewrite Hds, app_nil_r. auto.
Qed.

Lemma is_digit_char (d : N) : (d < 10)%N -> is_digit (digit_char d) = true.
Proof.
  intro H. unfold is_digit, digit_char.
  apply andb_true_intro. split; apply N.leb_le; lia.
Qed.

Lemma digit_val_char (d : N) : digit_val (digit_char d) = d.
Proof. unfold digit_val, digit_char. lia. Qed.

Lemma span_digits_app (ds : list N) (rest : JSString) :
  all_digits ds -> no_digit_head rest ->
  span_digits (digits_string ds ++ rest) = (ds, rest).
Proof.
  intros Ha Hr. induction Ha as [| d ds Hd Ha IH]; cbn [digits_string List.map app].
  - destruct rest as [| c rest]; [reflexivity|]. cbn [span_digits].
    cbn in Hr. rewrite Hr. reflexivity.
  - cbn [span_digits]. rewrite is_digit_char by assumption.
    fold (digits_string ds). rewrite IH, digit_val_char. reflexivity.
Qed.

Lemma longest_prefix_all {A : Type} (p : JSString -> option A) (s : JSString) (a : A) :
  p s = Some a -> longest_prefix p s (List.length s) = Some a.
Proof.
  intro H. destruct (List.length s) eqn:E; cbn [longest_prefix];
    rewrite <- E, firstn_all, H; reflexivity.
Qed.

Lemma parse_fixed (neg : bool) (ip fp : list N) :
  all_digits ip -> all_digits fp -> ip <> [] ->
  parse_StrDecimalLiteral
    ((if neg then [45%N] else []) ++ digits_string ip ++ [46%N] ++ digits_string fp)
  = Some (LitDecimal neg ip fp 0).
Proof.
  intros Hi Hf Hne.
  assert (Hu : parse_StrUnsignedDecimalLiteral
                 (digits_string ip ++ [46%N] ++ digits_string fp) = Some (ip, fp, 0)).
  { unfold parse_StrUnsignedDecimalLiteral.
    rewrite span_digits_app by (try assumption; reflexivity).
    destruct ip as [| i ip]; [congruence|]. cbn [app].
    rewrite <- (app_nil_r (digits_string fp)).
    rewrite span_digits_app by (try assumption; exact I).
    reflexivity. }
  assert (Hinf : JSString_eqb (digits_string ip ++ [46%N] ++ digits_string fp)
                   Infinity_string = false).
  { unfold JSString_eqb. destruct (list_eq_dec _ _ _) as [E | E]; [|reflexivity].
    destruct ip as [| i ip]; [congruence|]. inversion Hi; subst.
    change Infinity_string with (73%N :: tl Infinity_string) in E.
    cbn [digits_string List.map app] in E. injection E as E _.
    unfold digit_char in E. lia. }
  destruct ip as [| i ip]; [congruence|].
  assert (Hi0 : (i < 10)%N) by (inversion Hi; assumption).
  unfold parse_StrDecimalLiteral.
  destruct neg; cbn [app].
  - cbn [app] in Hu, Hinf. rewrite Hinf, Hu. reflexivity.
  - cbn [digits_string List.map app] in *.
    assert (Hc : (i = 0 \/ i = 1 \/ i = 2 \/ i = 3 \/ i = 4 \/ i = 5 \/ i = 6
                  \/ i = 7 \/ i = 8 \/ i = 9)%N) by lia.
    repeat destruct Hc as [Hc | Hc]; subst i;
      match goal with
      | |- context [digit_char ?d] =>
          let v := eval vm_compute in (digit_char d) in
          change (digit_char d) with v in *
      end;
      cbv beta iota; rewrite Hinf, Hu; reflexivity.
Qed.

(** ** [parseFloat] reads back what [toFixed] writes *)

Lemma all_digits_zeros (j : nat) : all_digits (repeat 0%N j).
Proof. induction j; constructor; [lia | assumption]. Qed.

Lemma white_space_digit (d : N) : (d < 10)%N -> is_white_space (digit_char d) = false.
Proof.
  intro H.
  assert (Hc : (d = 0 \/ d = 1 \/ d = 2 \/ d = 3 \/ d = 4 \/ d = 5 \/ d = 6
                \/ d = 7 \/ d = 8 \/ d = 9)%N) by lia.
  repeat destruct Hc as [Hc | Hc]; subst d; reflexivity.
Qed.

(** The digits [fixed_digits] lays out: those before and after the point. *)
Lemma fixed_digits_split (n : N) (f : nat) :
  exists ip fp,
    fixed_digits n (S f) = digits_string ip ++ [46%N] ++ digits_string fp
    /\ all_digits ip /\ all_digits fp /\ ip <> []
    /\ List.length fp = S f /\ digits_value (ip ++ fp) = n.
Proof.
  unfold fixed_digits.
  destruct (decimal_digits_spec n) as (Hv & Ha & Hne).
  set (dd := decimal_digits n) in *.
  set (m := repeat 0%N (S (S f) - List.length dd) ++ dd).
  assert (Hm : all_digits m) by (apply Forall_app; split; [apply all_digits_zeros | assumption]).
  assert (Hl : (S (S f) <= List.length m)%nat).
  { unfold m. rewrite length_app, repeat_length. lia. }
  exists (firstn (List.length m - S f) m), (skipn (List.length m - S f) m).
  assert (Hs : firstn (List.length m - S f) m ++ skipn (List.length m - S f) m = m)
    by apply firstn_skipn.
  rewrite <- Hs in Hm. apply Forall_app in Hm. destruct Hm as [Hi Hf].
  repeat split; try assumption.
  - intro E. apply (f_equal (@List.length N)) in E.
    rewrite length_firstn in E. change (List.length (@nil N)) with 0%nat in E. lia.
  - rewrite length_skipn. lia.
  - rewrite Hs. unfold m. rewrite digits_value_zeros. assumption.
Qed.

Lemma parseFloat_fixed (neg : bool) (n : N) (f : nat) :
  parseFloat_string ((if neg then [45%N] else []) ++ fixed_digits n (S f))
  = match n with
    | N0 => if neg then neg_zero else zero
    | Npos D => SF2Prim (round_decimal neg D (- Z.of_nat (S f)))
    end.
Proof.
  destruct (fixed_digits_split n f) as (ip & fp & -> & Hi & Hf & Hne & Hl & Hv).
  unfold parseFloat_string.
  assert (Ht : trim_start ((if neg then [45%N] else []) ++ digits_string ip ++ [46%N]
                             ++ digits_string fp)
               = (if neg then [45%N] else []) ++ digits_string ip ++ [46%N]
                   ++ digits_string fp).
  { destruct neg; [reflexivity|]. destruct ip as [| i ip]; [congruence|].
    cbn [app digits_string List.map trim_start].
    rewrite white_space_digit by (inversion Hi; assumption). reflexivity. }
  rewrite Ht.
  rewrite (longest_prefix_all _ _ _ (parse_fixed neg ip fp Hi Hf Hne)).
  cbn [StringNumericValue]. rewrite Hv, Hl. reflexivity.
Qed.

(** ** Rounding to hundredths, on integers *)

Lemma round_decimal_2 (neg : bool) (D : positive) :
  round_decimal neg D (-2) = round_Z (-71) (cond_Zopp neg (sticky100 (Zpos D))).
Proof.
  unfold round_decimal, sticky100, round_Z.
  change (10 ^ Z.pos 2) with 100. change (64 + Z.log2 100) with 70.
  unfold Z.div, Z.modulo. destruct (Z.div_eucl _ _). reflexivity.
Qed.

Lemma round_Z_valid (g n : Z) : valid_binary (round_Z g n) = true.
Proof.
  rewrite round_Z_eq. destruct (Z.eqb_spec n 0); [reflexivity|].
  apply round_pos_valid. lia.
Qed.

Lemma centi_nonneg (u : Z) : 0 <= u -> 0 <= centi u.
Proof. intro H. unfold centi. apply Z.div_pos; [|reflexivity]. assert (0 < 2 ^ 1074) by reflexivity. lia. Qed.

Lemma centi_mono (u u' : Z) : u <= u' -> centi u <= centi u'.
Proof. intro H. unfold centi. apply Z.div_le_mono; [reflexivity | lia]. Qed.

Lemma sticky100_0 : sticky100 0 = 0.
Proof. reflexivity. Qed.

Lemma sticky100_pos (n : Z) : 0 < n -> 0 < sticky100 n.
Proof.
  intro H. unfold sticky100.
  assert (1 <= n * 2 ^ 70 / 100).
  { apply Z.div_le_lower_bound; [lia|]. assert (100 <= 2 ^ 70) by (apply Z.leb_le; reflexivity). nia. }
  destruct (_ =? 0); lia.
Qed.

Lemma sticky100_mono (n n' : Z) : n <= n' -> sticky100 n <= sticky100 n'.
Proof.
  intro H. destruct (Z.eq_dec n n') as [-> | Hne]; [lia|].
  unfold sticky100.
  assert (n * 2 ^ 70 / 100 + 1 <= n' * 2 ^ 70 / 100).
  { replace (n * 2 ^ 70 / 100 + 1) with ((n * 2 ^ 70 + 1 * 100) / 100)
      by (rewrite Z.div_add by lia; reflexivity).
    apply Z.div_le_mono; [lia|].
    assert (100 <= 2 ^ 70) by (apply Z.leb_le; reflexivity). nia. }
  destruct (_ =? 0); destruct (_ =? 0); lia.
Qed.

Lemma round2_int_mono (u u' : Z) : u <= u' -> round2_int u <= round2_int u'.
Proof.
  intro H. unfold round2_int.
  destruct (Z.ltb_spec u 0); destruct (Z.ltb_spec u' 0); try lia.
  - assert (Hc : centi (- u') <= centi (- u)) by (apply centi_mono; lia).
    apply sticky100_mono in Hc. lia.
  - pose proof (centi_nonneg (- u) ltac:(lia)) as C1.
    pose proof (centi_nonneg u' ltac:(lia)) as C2.
    apply sticky100_mono in C1, C2. rewrite sticky100_0 in *. lia.
  - apply sticky100_mono, centi_mono. assumption.
Qed.

Lemma nearest_scaled_centi (m : positive) (e : Z) :
  -1074 <= e ->
  (let (num, den) := exact_fraction m e in nearest_scaled num den 2)
  = centi (Zpos m * 2 ^ (e + 1074)).
Proof.
  intro He. unfold exact_fraction, nearest_scaled, centi.
  change (10 ^ 2) with 100. change (2 ^ 1075) with (2 * 2 ^ 1074).
  destruct e as [| p | p].
  - change (2 ^ 0) with 1. change (0 + 1074) with 1074.
    rewrite <- (Z.div_mul_cancel_r _ _ (2 ^ 1074)) by (try discriminate; lia).
    f_equal; ring.
  - rewrite <- (Z.div_mul_cancel_r _ (2 * 1) (2 ^ 1074)) by (try discriminate; lia).
    rewrite Z.pow_add_r by lia. f_equal; ring.
  - assert (P : 0 < 2 ^ (Z.neg p + 1074)) by (apply Z.pow_pos_nonneg; lia).
    assert (Q : 0 < 2 ^ Z.pos p) by (apply Z.pow_pos_nonneg; lia).
    assert (PQ : 2 ^ Z.pos p * 2 ^ (Z.neg p + 1074) = 2 ^ 1074).
    { rewrite <- Z.pow_add_r by lia. f_equal. lia. }
    rewrite <- (Z.div_mul_cancel_r _ (2 * 2 ^ Z.pos p) (2 ^ (Z.neg p + 1074))) by lia.
    f_equal; rewrite <- PQ; ring.
Qed.

(** ** [toFixed(2)] followed by [parseFloat], case by case *)

Lemma toFixed2_parse_nonfinite (x : float) :
  is_finite x = false -> toFixed2_parse x = inr x.
Proof.
  rewrite is_finite_spec. intro H.
  unfold toFixed2_parse, Number_toFixed, Number_toString, parseFloat, ToString.
  change ((2 <? 0) || (100 <? 2)) with false. cbv iota.
  destruct (Prim2SF x) as [s | s | | s m e] eqn:E; try discriminate.
  - cbn [bind ret Number_toString_SF]. unfold ret. f_equal.
    apply Prim2SF_inj. rewrite E. destruct s; vm_compute; reflexivity.
  - cbn [bind ret Number_toString_SF]. unfold ret. f_equal.
    apply Prim2SF_inj. rewrite E. vm_compute. reflexivity.
Qed.

Lemma toFixed2_parse_zero (x : float) (s : bool) :
  Prim2SF x = S754_zero s -> toFixed2_parse x = inr zero.
Proof.
  intro E. unfold toFixed2_parse, Number_toFixed, parseFloat, ToString.
  change ((2 <? 0) || (100 <? 2)) with false. cbv iota. rewrite E. vm_compute. reflexivity.
Qed.

Lemma toFixed2_parse_finite (x : float) (s : bool) (m : positive) (e : Z) :
  Prim2SF x = S754_finite s m e ->
  (let (num, den) := exact_fraction m e in num < 10 ^ 21 * den) ->
  toFixed2_parse x =
  inr match (let (num, den) := exact_fraction m e in nearest_scaled num den 2) with
      | Zpos D => SF2Prim (round_decimal s D (-2))
      | _ => if s then neg_zero else zero
      end.
Proof.
  intros E H. unfold toFixed2_parse, Number_toFixed, parseFloat, ToString.
  change ((2 <? 0) || (100 <? 2)) with false. cbv iota. rewrite E.
  destruct (exact_fraction m e) as [num den].
  destruct (Z.leb_spec (10 ^ 21 * den) num) as [C | _]; [lia|].
  cbn [bind ret]. unfold ret. f_equal.
  change (Z.to_nat 2) with 2%nat.
  rewrite parseFloat_fixed.
  destruct (nearest_scaled num den 2); reflexivity.
Qed.

Lemma Prim2SF_zero : Prim2SF zero = S754_zero false.
Proof. reflexivity. Qed.

Lemma Prim2SF_neg_zero : Prim2SF neg_zero = S754_zero true.
Proof. reflexivity. Qed.

(** ** The length of a decimal representation *)

Lemma fold_digits_acc (ds : list N) (acc : N) :
  fold_left (fun a d => (10 * a + d)%N) ds acc
  = (acc * 10 ^ N.of_nat (List.length ds) + digits_value ds)%N.
Proof.
  unfold digits_value. revert acc. induction ds as [| d ds IH]; intro acc.
  - cbn. lia.
  - cbn [fold_left List.length]. rewrite IH, (IH (10 * 0 + d)%N).
    rewrite Nat2N.inj_succ, N.pow_succ_r'. lia.
Qed.

Lemma digits_value_cons (d : N) (ds : list N) :
  digits_value (d :: ds) = (d * 10 ^ N.of_nat (List.length ds) + digits_value ds)%N.
Proof.
  unfold digits_value at 1. cbn [fold_left]. rewrite fold_digits_acc. lia.
Qed.

Lemma digits_value_lt (ds : list N) :
  all_digits ds -> (digits_value ds < 10 ^ N.of_nat (List.length ds))%N.
Proof.
  induction 1 as [| d ds Hd Ha IH].
  - cbn. lia.
  - rewrite digits_value_cons. cbn [List.length].
    rewrite Nat2N.inj_succ, N.pow_succ_r'. nia.
Qed.

Lemma digits_fuel_head (fuel : nat) (n : N) (acc : list N) :
  (n < 2 ^ N.of_nat (S fuel))%N -> n <> 0%N ->
  exists d ds,
    digits_fuel (S fuel) n acc = (d :: ds) ++ acc /\ d <> 0%N.
Proof.
  revert n acc. induction fuel as [| fuel IH]; intros n acc Hn Hnz.
  - change (2 ^ N.of_nat 1)%N with 2%N in Hn.
    exists n, []. cbn [digits_fuel].
    assert (n / 10 = 0)%N as -> by (apply N.div_small; lia).
    rewrite N.mod_small by lia. split; [reflexivity | assumption].
  - cbn [digits_fuel]. destruct (N.eqb_spec (n / 10) 0) as [Hz | Hnz'].
    + exists (n mod 10)%N, []. split; [reflexivity|].
      pose proof (N.div_mod n 10 ltac:(lia)). lia.
    + destruct (IH (n / 10)%N ((n mod 10)%N :: acc)) as (d & ds & Hds & Hd).
      { replace (N.of_nat (S (S fuel))) with (N.succ (N.of_nat (S fuel))) in Hn by lia.
        rewrite N.pow_succ_r' in Hn.
        apply N.Div0.div_lt_upper_bound. lia. }
      { assumption. }
      exists d, (ds ++ [(n mod 10)%N]). split; [|assumption].
      cbn [digits_fuel] in Hds. rewrite Hds. cbn [app]. rewrite <- app_assoc. reflexivity.
Qed.

Lemma decimal_digits_length (n : N) :
  n <> 0%N ->
  (10 ^ (N.of_nat (List.length (decimal_digits n)) - 1) <= n
   < 10 ^ N.of_nat (List.length (decimal_digits n)))%N.
Proof.
  intro Hnz. destruct (decimal_digits_spec n) as (Hv & Ha & _). split.
  - unfold decimal_digits in *.
    destruct (digits_fuel_head (N.to_nat (N.log2 n)) n []) as (d & ds & Hds & Hd).
    { rewrite Nat2N.inj_succ, N2Nat.id. apply N.log2_spec. lia. }
    { assumption. }
    rewrite Hds, app_nil_r in *. rewrite digits_value_cons in Hv.
    cbn [List.length]. rewrite Nat2N.inj_succ.
    replace (N.succ (N.of_nat (List.length ds)) - 1)%N with (N.of_nat (List.length ds)) by lia.
    assert (1 <= d)%N by lia.
    assert (0 < 10 ^ N.of_nat (List.length ds))%N by (apply N.neq_0_lt_0, N.pow_nonzero; lia).
    nia.
  - rewrite <- Hv at 1. apply digits_value_lt. assumption.
Qed.

Lemma pow10_lt_inv (a b : Z) : 0 <= a -> 0 <= b -> 10 ^ a < 10 ^ b -> a < b.
Proof.
  intros Ha Hb H. destruct (Z_lt_le_dec a b) as [L | L]; [assumption|].
  pose proof (Z.pow_le_mono_r 10 b a ltac:(lia) L). lia.
Qed.

(** [num_digits] counts the decimal digits of a positive integer. *)
Lemma num_digits_spec (v : Z) :
  0 < v -> 1 <= num_digits v /\ 10 ^ (num_digits v - 1) <= v < 10 ^ num_digits v.
Proof.
  intro Hv. unfold num_digits.
  pose proof (decimal_digits_length (Z.to_N v) ltac:(lia)) as [Lo Hi].
  destruct (decimal_digits_spec (Z.to_N v)) as (_ & _ & Hne).
  set (L := List.length (decimal_digits (Z.to_N v))) in *.
  assert (1 <= L)%nat.
  { unfold L. destruct (decimal_digits (Z.to_N v)); [congruence | cbn; lia]. }
  split; [lia|].
  apply N2Z.inj_le in Lo. apply N2Z.inj_lt in Hi.
  rewrite N2Z.inj_pow in Lo, Hi. rewrite Z2N.id in Lo, Hi by lia.
  rewrite N2Z.inj_sub in Lo by lia. rewrite nat_N_Z in Lo, Hi.
  change (Z.of_N 10) with 10 in *. change (Z.of_N 1) with 1 in *. lia.
Qed.

Lemma num_digits_unique (v k : Z) :
  1 <= k -> 10 ^ (k - 1) <= v < 10 ^ k -> num_digits v = k.
Proof.
  intros Hk [Lo Hi].
  assert (Hv : 0 < v).
  { assert (0 < 10 ^ (k - 1)) by (apply Z.pow_pos_nonneg; lia). lia. }
  destruct (num_digits_spec v Hv) as (H1 & Lo' & Hi').
  assert (k - 1 < num_digits v) by (apply pow10_lt_inv; lia).
  assert (num_digits v - 1 < k) by (apply pow10_lt_inv; lia).
  lia.
Qed.

(** ** The shortest digits of [Number::toString] *)

Lemma spec_float_eqb_eq (a b : spec_float) : spec_float_eqb a b = true -> a = b.
Proof.
  destruct a as [s | s | | s m e]; destruct b as [s' | s' | | s' m' e'];
    cbn [spec_float_eqb]; try discriminate; try reflexivity; intro H.
  - apply Bool.eqb_prop in H. congruence.
  - apply Bool.eqb_prop in H. congruence.
  - apply andb_true_iff in H. destruct H as [H He].
    apply andb_true_iff in H. destruct H as [Hs Hm].
    apply Bool.eqb_prop in Hs. apply Pos.eqb_eq in Hm. apply Z.eqb_eq in He.
    congruence.
Qed.

Lemma round_decimal_int (neg : bool) (D : positive) (e10 : Z) :
  0 <= e10 ->
  round_decimal neg D e10 = round_Z 0 (cond_Zopp neg (Zpos D * 10 ^ e10)).
Proof. intro H. destruct e10; try lia; reflexivity. Qed.

Lemma round_Z_exact (s : bool) (m : positive) (e : Z) :
  bounded prec emax m e = true -> 0 <= e ->
  round_Z 0 (cond_Zopp s (Zpos m * 2 ^ e)) = S754_finite s m e.
Proof.
  intros B He. rewrite <- cond_Zopp_mul.
  replace 0 with (e - e) at 1 by lia. rewrite round_Z_shift by lia.
  rewrite round_Z_eq. destruct s; cbn [cond_Zopp].
  - apply round_pos_bounded. assumption.
  - apply round_pos_bounded. assumption.
Qed.

Lemma some_inj {A : Type} (a b : A) : Some a = Some b -> a = b.
Proof. intro H. injection H. trivial. Qed.

Section Shortest.

Variables (X : spec_float) (V n0 : Z).

Hypothesis V_pos : 0 < V.

Hypothesis V_round : round_Z 0 V = X.

Hypothesis V_digits : 10 ^ (n0 - 1) <= V < 10 ^ n0.

(** A candidate [shortest_candidate] returns is a [k]-digit decimal that
    rounds to [X]. *)
Lemma shortest_candidate_sound (k s n : Z) :
  1 <= k <= n0 ->
  shortest_candidate X V 1 n0 k = Some (s, n) ->
  10 ^ (k - 1) <= s < 10 ^ k /\ 0 <= n - k /\ n0 <= n
  /\ round_Z 0 (s * 10 ^ (n - k)) = X.
Proof.
  intros Hk. unfold shortest_candidate.
  set (p := n0 - k). assert (Hp : 0 <= p) by (unfold p; lia).
  destruct (Z.leb_spec 0 p); [|lia]. rewrite Z.mul_1_l.
  assert (P10 : 0 < 10 ^ p) by (apply Z.pow_pos_nonneg; lia).
  assert (K10 : 0 < 10 ^ (k - 1)) by (apply Z.pow_pos_nonneg; lia).
  assert (E1 : 10 ^ (n0 - 1) = 10 ^ (k - 1) * 10 ^ p).
  { rewrite <- Z.pow_add_r by lia. f_equal. unfold p. lia. }
  assert (E2 : 10 ^ n0 = 10 ^ k * 10 ^ p).
  { rewrite <- Z.pow_add_r by lia. f_equal. unfold p. lia. }
  assert (E3 : 10 ^ k = 10 * 10 ^ (k - 1)).
  { rewrite <- Z.pow_succ_r by lia. f_equal. lia. }
  pose proof (Z.div_mod V (10 ^ p) ltac:(lia)) as DM.
  pose proof (Z.mod_pos_bound V (10 ^ p) P10) as MB.
  set (s_lo := V / 10 ^ p) in *. set (r := V mod 10 ^ p) in *.
  assert (Blo : 10 ^ (k - 1) <= s_lo).
  { apply Z.div_le_lower_bound; [assumption|]. rewrite Z.mul_comm. lia. }
  assert (Bhi : s_lo < 10 ^ k).
  { apply Z.div_lt_upper_bound; [assumption|]. rewrite Z.mul_comm. lia. }
  assert (Hok : forall t, 0 < t ->
            match t with
            | Zpos s' => spec_float_eqb (round_decimal false s' p) X
            | _ => false
            end = true -> round_Z 0 (t * 10 ^ p) = X).
  { intros t Ht Hb. destruct t as [| t |]; try lia.
    apply spec_float_eqb_eq in Hb. rewrite round_decimal_int in Hb by lia.
    exact Hb. }
  assert (Hlo : forall s' n', (if s_lo =? 10 ^ k then (10 ^ (k - 1), n0 + 1) else (s_lo, n0))
                 = (s', n') -> round_Z 0 (s_lo * 10 ^ p) = X ->
            10 ^ (k - 1) <= s' < 10 ^ k /\ 0 <= n' - k /\ n0 <= n'
            /\ round_Z 0 (s' * 10 ^ (n' - k)) = X).
  { intros s' n' E HX. destruct (Z.eqb_spec s_lo (10 ^ k)); [lia|].
    injection E as <- <-. fold p. repeat split; try lia. assumption. }
  assert (Hhi : forall s' n',
            (if s_lo + 1 =? 10 ^ k then (10 ^ (k - 1), n0 + 1) else (s_lo + 1, n0))
            = (s', n') -> round_Z 0 ((s_lo + 1) * 10 ^ p) = X ->
            10 ^ (k - 1) <= s' < 10 ^ k /\ 0 <= n' - k /\ n0 <= n'
            /\ round_Z 0 (s' * 10 ^ (n' - k)) = X).
  { intros s' n' E HX. destruct (Z.eqb_spec (s_lo + 1) (10 ^ k)) as [E10 | NE].
    - injection E as <- <-. repeat split; try lia.
      replace (n0 + 1 - k) with (p + 1) by (unfold p; lia).
      rewrite Z.pow_add_r, Z.pow_1_r by lia.
      rewrite <- HX, E10, E3. f_equal. ring.
    - injection E as <- <-. fold p. repeat split; try lia. assumption. }
  destruct (Z.eqb_spec r 0) as [Hr0 | Hr0].
  - intro E. apply some_inj in E. apply (Hlo _ _ E).
    rewrite <- V_round. f_equal. lia.
  - destruct (match s_lo with Zpos s' => _ | _ => false end) eqn:O1;
      destruct (match s_lo + 1 with Zpos s' => _ | _ => false end) eqn:O2;
      intro E; try discriminate; apply some_inj in E.
    + destruct (2 * r ?= 10 ^ p); [destruct (Z.even s_lo)| |];
        first [ apply (Hlo _ _ E), Hok; [lia | assumption]
              | apply (Hhi _ _ E), Hok; [lia | assumption] ].
    + apply (Hlo _ _ E), Hok; [lia | assumption].
    + apply (Hhi _ _ E), Hok; [lia | assumption].
Qed.

Lemma shortest_candidate_last :
  1 <= n0 -> shortest_candidate X V 1 n0 n0 <> None.
Proof.
  intro H. unfold shortest_candidate. rewrite Z.sub_diag.
  change (0 <=? 0) with true. cbv iota. change (1 * 10 ^ 0) with 1.
  rewrite Z.mod_1_r. discriminate.
Qed.

Lemma shortest_digits_sound (fuel : nat) (k : Z) :
  1 <= k <= n0 -> n0 - k <= Z.of_nat fuel ->
  exists k', k <= k' <= n0
    /\ shortest_candidate X V 1 n0 k' = Some (shortest_digits fuel X V 1 n0 k).
Proof.
  revert k. induction fuel as [| fuel IH]; intros k Hk Hf.
  - assert (k = n0) by lia. subst k. exists n0. split; [lia|].
    cbn [shortest_digits].
    destruct (shortest_candidate X V 1 n0 n0) eqn:E; [reflexivity|].
    exfalso. apply (shortest_candidate_last ltac:(lia)). assumption.
  - cbn [shortest_digits].
    destruct (shortest_candidate X V 1 n0 k) eqn:E.
    + exists k. split; [lia | assumption].
    + destruct (Z.eq_dec k n0) as [-> | Hne].
      * exfalso. apply (shortest_candidate_last ltac:(lia)). assumption.
      * destruct (IH (k + 1) ltac:(lia) ltac:(lia)) as (k' & Hk' & Hc).
        exists k'. split; [lia | assumption].
Qed.

End Shortest.

(** ** Exponential notation read back *)

Lemma parse_signed (neg : bool) (d : N) (tail : JSString)
  (ip fp : list N) (e : Z) :
  (d < 10)%N ->
  parse_StrUnsignedDecimalLiteral (digit_char d :: tail) = Some (ip, fp, e) ->
  parse_StrDecimalLiteral ((if neg then [45%N] else []) ++ digit_char d :: tail)
  = Some (LitDecimal neg ip fp e).
Proof.
  intros Hd Hu.
  assert (Hinf : JSString_eqb (digit_char d :: tail) Infinity_string = false).
  { unfold JSString_eqb. destruct (list_eq_dec _ _ _) as [E | E]; [|reflexivity].
    change Infinity_string with (73%N :: tl Infinity_string) in E.
    injection E as E _. unfold digit_char in E. lia. }
  unfold parse_StrDecimalLiteral. destruct neg; cbn [app].
  - rewrite Hinf, Hu. reflexivity.
  - assert (Hc : (d = 0 \/ d = 1 \/ d = 2 \/ d = 3 \/ d = 4 \/ d = 5 \/ d = 6
                  \/ d = 7 \/ d = 8 \/ d = 9)%N) by lia.
    repeat destruct Hc as [Hc | Hc]; subst d;
      match goal with
      | |- context [digit_char ?d] =>
          let v := eval vm_compute in (digit_char d) in
          change (digit_char d) with v in *
      end;
      cbv beta iota; rewrite Hinf, Hu; reflexivity.
Qed.

Lemma parse_ExponentPart_plus (E : list N) :
  all_digits E -> E <> [] ->
  parse_ExponentPart (101%N :: 43%N :: digits_string E) = Some (Z.of_N (digits_value E)).
Proof.
  intros Ha Hne. cbn [parse_ExponentPart].
  change ((101 =? 101) || (101 =? 69))%N with true. cbv iota.
  rewrite <- (app_nil_r (digits_string E)), span_digits_app by (try assumption; exact I).
  destruct E; [congruence | reflexivity].
Qed.

(** The exponential notation of Number::toString parses back to its digits
    and exponent. *)
Lemma parse_exponential (neg : bool) (d : N) (rest E : list N) :
  (d < 10)%N -> all_digits rest -> all_digits E -> E <> [] ->
  parse_StrDecimalLiteral
    ((if neg then [45%N] else [])
       ++ match rest with
          | [] => digits_string [d] ++ [101%N; 43%N] ++ digits_string E
          | _ :: _ =>
              digits_string [d] ++ [46%N] ++ digits_string rest
                ++ [101%N; 43%N] ++ digits_string E
          end)
  = Some (LitDecimal neg [d] rest (Z.of_N (digits_value E))).
Proof.
  intros Hd Hr HE Hne.
  assert (Hd1 : all_digits [d]) by (constructor; [assumption | constructor]).
  destruct rest as [| r rest].
  - change (digits_string [d] ++ [101%N; 43%N] ++ digits_string E)
      with (digit_char d :: [101%N; 43%N] ++ digits_string E).
    apply parse_signed; [assumption|].
    change (digit_char d :: [101%N; 43%N] ++ digits_string E)
      with (digits_string [d] ++ [101%N; 43%N] ++ digits_string E).
    unfold parse_StrUnsignedDecimalLiteral.
    rewrite span_digits_app by (try assumption; reflexivity).
    cbn [app]. cbv beta iota.
    rewrite (parse_ExponentPart_plus E HE Hne). reflexivity.
  - change (digits_string [d] ++ [46%N] ++ digits_string (r :: rest)
              ++ [101%N; 43%N] ++ digits_string E)
      with (digit_char d :: [46%N] ++ digits_string (r :: rest)
              ++ [101%N; 43%N] ++ digits_string E).
    apply parse_signed; [assumption|].
    change (digit_char d :: [46%N] ++ digits_string (r :: rest)
              ++ [101%N; 43%N] ++ digits_string E)
      with (digits_string [d] ++ [46%N] ++ digits_string (r :: rest)
              ++ [101%N; 43%N] ++ digits_string E).
    unfold parse_StrUnsignedDecimalLiteral.
    rewrite span_digits_app by (try assumption; reflexivity).
    cbn [app]. cbv beta iota.
    change (digits_string (r :: rest) ++ 101%N :: 43%N :: digits_string E)
      with (digits_string (r :: rest) ++ [101%N; 43%N] ++ digits_string E).
    rewrite span_digits_app by (try assumption; reflexivity).
    cbn [app]. rewrite (parse_ExponentPart_plus E HE Hne). reflexivity.
Qed.

Lemma format_number_large (neg : bool) (s n k : Z) :
  1 <= k -> 10 ^ (k - 1) <= s < 10 ^ k -> 22 <= n ->
  parseFloat_string ((if neg then [45%N] else []) ++ format_number s n)
  = SF2Prim (round_decimal neg (Z.to_pos s) (n - k)).
Proof.
  intros Hk Hs Hn.
  assert (Hs0 : 0 < s).
  { assert (0 < 10 ^ (k - 1)) by (apply Z.pow_pos_nonneg; lia). lia. }
  pose proof (num_digits_unique s k Hk Hs) as Hlen. unfold num_digits in Hlen.
  destruct (decimal_digits_spec (Z.to_N s)) as (Hv & Ha & Hne).
  destruct (decimal_digits_spec (Z.to_N (Z.abs (n - 1)))) as (Hve & Hae & Hnee).
  unfold format_number. rewrite Hlen.
  replace ((k <=? n) && (n <=? 21)) with false
    by (destruct (Z.leb_spec n 21); [lia | rewrite andb_false_r; reflexivity]).
  replace ((0 <? n) && (n <=? 21)) with false
    by (destruct (Z.leb_spec n 21); [lia | rewrite andb_false_r; reflexivity]).
  replace ((-6 <? n) && (n <=? 0)) with false
    by (destruct (Z.leb_spec n 0); [lia | rewrite andb_false_r; reflexivity]).
  destruct (Z.leb_spec 0 (n - 1)); [|lia].
  set (E := decimal_digits (Z.to_N (Z.abs (n - 1)))) in *.
  destruct (decimal_digits (Z.to_N s)) as [| d rest] eqn:Eds; [congruence|].
  assert (Hd : (d < 10)%N) by (inversion Ha; assumption).
  assert (Hrest : all_digits rest) by (inversion Ha; assumption).
  assert (Hparse :
    parse_StrDecimalLiteral
      ((if neg then [45%N] else [])
         ++ match rest with
            | [] => digits_string [d] ++ [101%N; 43%N] ++ digits_string E
            | _ :: _ => digits_string [d] ++ [46%N] ++ digits_string rest
                          ++ [101%N; 43%N] ++ digits_string E
            end)
    = Some (LitDecimal neg [d] rest (Z.of_N (digits_value E))))
    by (apply parse_exponential; assumption).
  unfold parseFloat_string.
  assert (Ht : forall tail,
            trim_start ((if neg then [45%N] else []) ++ digit_char d :: tail)
            = (if neg then [45%N] else []) ++ digit_char d :: tail).
  { intro tail. destruct neg; [reflexivity|]. cbn [app trim_start].
    rewrite white_space_digit by assumption. reflexivity. }
  assert (Hval : StringNumericValue (LitDecimal neg [d] rest (Z.of_N (digits_value E)))
                 = SF2Prim (round_decimal neg (Z.to_pos s) (n - k))).
  { cbn [StringNumericValue]. change ([d] ++ rest) with (d :: rest). rewrite Hv.
    destruct (Z.to_N s) as [| D] eqn:ED; [lia|].
    replace (Z.to_pos s) with D by lia.
    rewrite Hve. f_equal. f_equal.
    cbn [List.length] in Hlen. lia. }
  destruct rest as [| r rest'].
  - change (digits_string [d] ++ [101%N; 43%N] ++ digits_string E)
      with (digit_char d :: [101%N; 43%N] ++ digits_string E) in *.
    rewrite Ht, (longest_prefix_all _ _ _ Hparse). exact Hval.
  - change (digits_string [d] ++ [46%N] ++ digits_string (r :: rest')
              ++ [101%N; 43%N] ++ digits_string E)
      with (digit_char d :: [46%N] ++ digits_string (r :: rest')
              ++ [101%N; 43%N] ++ digits_string E) in *.
    rewrite Ht, (longest_prefix_all _ _ _ Hparse). exact Hval.
Qed.

(** ** Numbers of magnitude [10^21] and more *)

Lemma round_Z_cond_opp (g : Z) (s : bool) (n : Z) :
  n <> 0 -> round_Z g (cond_Zopp s n) = (if s then SFopp (round_Z g n) else round_Z g n).
Proof.
  intro Hn. destruct s; cbn [cond_Zopp]; [|reflexivity].
  destruct (round_Z_opp g n) as [H | [_ H]]; [|assumption].
  rewrite !round_Z_eq in *. destruct (Z.eqb_spec n 0); [lia|].
  destruct (Z.eqb_spec (- n) 0); [lia|]. rewrite Z.abs_opp.
  rewrite <- round_pos_opp. f_equal.
  destruct (Z.ltb_spec n 0); destruct (Z.ltb_spec (- n) 0); try reflexivity; lia.
Qed.

(** From [10^21] on, [toFixed] writes the shortest decimal that reads back
    as the same number: [parseFloat(x.toFixed(2))] is [x]. *)
Lemma toFixed2_parse_large (x : float) (s : bool) (m : positive) (e : Z) :
  Prim2SF x = S754_finite s m e ->
  (let (num, den) := exact_fraction m e in 10 ^ 21 * den <= num) ->
  toFixed2_parse x = inr x.
Proof.
  intros E H. pose proof (Prim2SF_valid x) as B. rewrite E in B. cbn [valid_binary] in B.
  pose proof (bounded_spec _ _ B) as (_ & He971 & Hm53 & _ & _).
  assert (He : 0 <= e).
  { destruct e as [| p | p]; try lia. exfalso. cbn [exact_fraction] in H.
    assert (1 <= 2 ^ Z.pos p) by (apply (Z.pow_le_mono_r 2 0); lia).
    assert (2 ^ 53 < 10 ^ 21) by reflexivity. nia. }
  assert (HF : exact_fraction m e = (Zpos m * 2 ^ e, 1)) by (destruct e; try lia; reflexivity).
  rewrite HF in H. set (V := Zpos m * 2 ^ e) in *. rewrite Z.mul_1_r in H.
  assert (HV0 : 0 < V) by (assert (0 < 10 ^ 21) by reflexivity; lia).
  set (X := S754_finite false m e).
  assert (HX : round_Z 0 V = X) by (apply (round_Z_exact false m e B He)).
  pose proof (num_digits_spec V HV0) as (Hn1 & Hn).
  set (n0 := num_digits V) in *.
  assert (Hn0 : decimal_exponent V 1 = n0).
  { unfold decimal_exponent. destruct (Z.leb_spec 1 V); [|lia]. rewrite Z.div_1_r. reflexivity. }
  assert (Hn22 : 22 <= n0).
  { assert (21 < n0); [|lia]. apply pow10_lt_inv; lia. }
  assert (Hn309 : n0 <= 309).
  { assert (n0 - 1 < 309); [|lia]. apply pow10_lt_inv; try lia.
    assert (V < 2 ^ 1024).
    { unfold V. change (2 ^ 1024) with (2 ^ 53 * 2 ^ 971).
      assert (0 < 2 ^ e) by (apply Z.pow_pos_nonneg; lia).
      assert (2 ^ e <= 2 ^ 971) by (apply Z.pow_le_mono_r; lia).
      revert H0 H1 Hm53. generalize (2 ^ e) (2 ^ 971) (2 ^ 53). clear. intros. nia. }
    assert (2 ^ 1024 < 10 ^ 309) by reflexivity. lia. }
  destruct (shortest_digits_sound X V n0 800 1 ltac:(lia) ltac:(lia))
    as (k & Hk & Hc).
  destruct (shortest_digits 800 X V 1 n0 1) as [d n] eqn:Esd.
  destruct (shortest_candidate_sound X V n0 HX Hn k d n ltac:(lia) Hc)
    as (Hd & Hnk & Hnn & Hr).
  assert (Hd0 : 0 < d).
  { assert (0 < 10 ^ (k - 1)) by (apply Z.pow_pos_nonneg; lia). lia. }
  unfold toFixed2_parse, Number_toFixed, parseFloat, ToString.
  change ((2 <? 0) || (100 <? 2)) with false. cbv iota.
  rewrite E, HF. fold V. rewrite Z.mul_1_r.
  destruct (Z.leb_spec (10 ^ 21) V); [|lia].
  cbn [bind ret Number_toString_SF]. unfold ret. f_equal.
  rewrite HF. fold V. rewrite Hn0. fold X. rewrite Esd.
  cbn [app].
  rewrite (format_number_large s d n k ltac:(lia) Hd ltac:(lia)).
  rewrite round_decimal_int by assumption.
  replace (Zpos (Z.to_pos d)) with d by lia.
  rewrite round_Z_cond_opp.
  - rewrite Hr. rewrite <- (SF2Prim_Prim2SF x), E. destruct s; reflexivity.
  - assert (0 < 10 ^ (n - k)) by (apply Z.pow_pos_nonneg; lia). nia.
Qed.

(** ** Addition and multiplication are monotone, infinities included *)

Lemma SFleb_refl (x : spec_float) : x <> S754_nan -> SFleb x x = true.
Proof. intro H. unfold SFleb. rewrite SFcompare_refl by assumption. reflexivity. Qed.

Lemma SFleb_neg_inf_l (y : spec_float) :
  y <> S754_nan -> SFleb (S754_infinity true) y = true.
Proof. destruct y as [| [|] | |]; easy. Qed.

Lemma SFleb_pos_inf_r (x : spec_float) :
  x <> S754_nan -> SFleb x (S754_infinity false) = true.
Proof. destruct x as [| [|] | | [|] ? ?]; easy. Qed.

Ltac finite_or_inf :=
  first
    [ reflexivity
    | discriminate
    | congruence
    | apply SFleb_neg_inf_l; assumption
    | apply SFleb_pos_inf_r; assumption ].

(** Addition is monotone wherever it does not produce not-a-number. *)
Lemma SFadd_mono_l_gen (a a' b : spec_float) :
  valid_binary a = true -> valid_binary a' = true -> valid_binary b = true ->
  SFleb a a' = true ->
  SF64add a b <> S754_nan -> SF64add a' b <> S754_nan ->
  SFleb (SF64add a b) (SF64add a' b) = true.
Proof.
  intros Va Va' Vb H N N'.
  destruct (is_finite_SF a) eqn:Fa; destruct (is_finite_SF a') eqn:Fa';
    destruct (is_finite_SF b) eqn:Fb;
    try (apply SFadd_mono_l; assumption).
  all: destruct a as [sa | [|] | | sa ma ea]; try discriminate;
    destruct a' as [sa' | [|] | | sa' ma' ea']; try discriminate;
    destruct b as [sb | [|] | | sb mb eb]; try discriminate;
    cbn [SF64add SFadd] in *; try destruct sa; try destruct sa'; try destruct sb;
    finite_or_inf.
Qed.

Lemma SFadd_comm (a b : spec_float) : SF64add a b = SF64add b a.
Proof.
  destruct a as [[|] | [|] | | sa ma ea]; destruct b as [[|] | [|] | | sb mb eb];
    try reflexivity.
  unfold SF64add, SFadd. rewrite Z.min_comm, Z.add_comm. reflexivity.
Qed.

Lemma SFmul_comm (a b : spec_float) : SF64mul a b = SF64mul b a.
Proof.
  destruct a as [[|] | [|] | | sa ma ea]; destruct b as [[|] | [|] | | sb mb eb];
    try reflexivity; cbn [SF64mul SFmul]; try (destruct sa; reflexivity);
    try (destruct sb; reflexivity).
  rewrite Pos.mul_comm, Z.add_comm, xorb_comm. reflexivity.
Qed.

(** Multiplication by a non-negative number is monotone wherever it does not
    produce not-a-number. *)
Lemma SFmul_mono_l_gen (a a' c : spec_float) :
  valid_binary a = true -> valid_binary a' = true -> valid_binary c = true ->
  SFleb (S754_zero false) c = true -> SFleb a a' = true ->
  SF64mul a c <> S754_nan -> SF64mul a' c <> S754_nan ->
  SFleb (SF64mul a c) (SF64mul a' c) = true.
Proof.
  intros Va Va' Vc Hc H N N'.
  destruct (is_finite_SF a) eqn:Fa; destruct (is_finite_SF a') eqn:Fa';
    destruct (is_finite_SF c) eqn:Fc;
    try (apply SFmul_mono_l; try assumption;
         change 0 with (ulps (S754_zero false));
         apply SFleb_ulps; (assumption || reflexivity)).
  all: destruct a as [sa | [|] | | sa ma ea]; try discriminate;
    destruct a' as [sa' | [|] | | sa' ma' ea']; try discriminate;
    destruct c as [sc | [|] | | sc mc ec]; try discriminate;
    cbn [SF64mul SFmul xorb] in *; try destruct sa; try destruct sa'; try destruct sc;
    cbn [xorb] in *; finite_or_inf.
Qed.

Lemma add_nan_false (a b : float) :
  is_nan (a + b) = false -> SF64add (Prim2SF a) (Prim2SF b) <> S754_nan.
Proof. rewrite is_nan_false, add_spec. trivial. Qed.

Lemma mul_nan_false (a b : float) :
  is_nan (a * b) = false -> SF64mul (Prim2SF a) (Prim2SF b) <> S754_nan.
Proof. rewrite is_nan_false, mul_spec. trivial. Qed.

Lemma add_mono_l_gen (a a' b : float) :
  (a <=? a')%float = true ->
  is_nan (a + b) = false -> is_nan (a' + b) = false ->
  (a + b <=? a' + b)%float = true.
Proof.
  intros H N N'. rewrite leb_spec in *. rewrite !add_spec.
  apply SFadd_mono_l_gen; auto using Prim2SF_valid, add_nan_false.
Qed.

Lemma add_mono_r_gen (a b b' : float) :
  (b <=? b')%float = true ->
  is_nan (a + b) = false -> is_nan (a + b') = false ->
  (a + b <=? a + b')%float = true.
Proof.
  intros H N N'. rewrite leb_spec in *. rewrite !add_spec.
  rewrite (SFadd_comm (Prim2SF a) (Prim2SF b)), (SFadd_comm (Prim2SF a) (Prim2SF b')).
  apply add_nan_false in N, N'.
  rewrite (SFadd_comm (Prim2SF a)) in N, N'.
  apply SFadd_mono_l_gen; auto using Prim2SF_valid.
Qed.

Lemma mul_mono_l_gen (a a' c : float) :
  (0 <=? c)%float = true -> (a <=? a')%float = true ->
  is_nan (a * c) = false -> is_nan (a' * c) = false ->
  (a * c <=? a' * c)%float = true.
Proof.
  intros Hc H N N'. rewrite leb_spec in *. rewrite !mul_spec.
  apply SFmul_mono_l_gen; auto using Prim2SF_valid, mul_nan_false.
Qed.

Lemma mul_mono_r_gen (c a a' : float) :
  (0 <=? c)%float = true -> (a <=? a')%float = true ->
  is_nan (c * a) = false -> is_nan (c * a') = false ->
  (c * a <=? c * a')%float = true.
Proof.
  intros Hc H N N'. rewrite leb_spec in *. rewrite !mul_spec.
  rewrite (SFmul_comm (Prim2SF c) (Prim2SF a)), (SFmul_comm (Prim2SF c) (Prim2SF a')).
  apply mul_nan_false in N, N'.
  rewrite (SFmul_comm (Prim2SF c)) in N, N'.
  apply SFmul_mono_l_gen; auto using Prim2SF_valid.
Qed.

(** ** Rounding to two decimal places *)

Lemma sticky100_mul100 (v : Z) : sticky100 (100 * v) = v * 2 ^ 71.
Proof.
  unfold sticky100.
  replace (100 * v * 2 ^ 70) with (v * 2 ^ 70 * 100) by ring.
  rewrite Z.div_mul, Z.mod_mul by discriminate.
  change (2 ^ 71) with (2 * 2 ^ 70). cbn [Z.eqb]. ring.
Qed.

Lemma round_to_2_decimals_large (x : float) (s : bool) (m : positive) (e : Z) :
  Prim2SF x = S754_finite s m e ->
  (let (num, den) := exact_fraction m e in 10 ^ 21 * den <= num) ->
  round_to_2_decimals x = x.
Proof.
  intros E H. pose proof (Prim2SF_valid x) as B. rewrite E in B. cbn [valid_binary] in B.
  pose proof (bounded_spec _ _ B) as (_ & He971 & Hm53 & _ & _).
  assert (He : 0 <= e).
  { destruct e as [| p | p]; try lia. exfalso. cbn [exact_fraction] in H.
    assert (1 <= 2 ^ Z.pos p) by (apply (Z.pow_le_mono_r 2 0); lia).
    assert (2 ^ 53 < 10 ^ 21) by reflexivity. nia. }
  assert (HF : exact_fraction m e = (Zpos m * 2 ^ e, 1)) by (destruct e; try lia; reflexivity).
  unfold round_to_2_decimals. rewrite E, HF.
  set (V := Zpos m * 2 ^ e).
  assert (HV0 : 0 < V).
  { unfold V. apply Z.mul_pos_pos; [lia | apply Z.pow_pos_nonneg; lia]. }
  assert (Hn : nearest_scaled V 1 2 = 100 * V).
  { unfold nearest_scaled. change (10 ^ 2) with 100.
    replace (2 * V * 100 + 1) with (1 + (100 * V) * (2 * 1)) by ring.
    rewrite Z.div_add by discriminate. reflexivity. }
  rewrite Hn. destruct (100 * V) as [| n |] eqn:En; try lia.
  apply Prim2SF_inj.
  rewrite Prim2SF_SF2Prim by (rewrite round_decimal_2; apply round_Z_valid).
  rewrite round_decimal_2, <- En, sticky100_mul100, <- cond_Zopp_mul.
  change (-71) with (0 - 71). rewrite round_Z_shift by lia.
  rewrite E. apply round_Z_exact; assumption.
Qed.

(** [parseFloat(x.toFixed(2))] rounds [x] to two decimal places, and never
    throws. *)
Lemma toFixed2_parse_eq (x : float) :
  toFixed2_parse x = inr (round_to_2_decimals x).
Proof.
  destruct (Prim2SF x) as [s | s | | s m e] eqn:E.
  - rewrite (toFixed2_parse_zero x s E). unfold round_to_2_decimals. rewrite E. reflexivity.
  - rewrite toFixed2_parse_nonfinite by (rewrite is_finite_spec, E; reflexivity).
    unfold round_to_2_decimals. rewrite E. reflexivity.
  - rewrite toFixed2_parse_nonfinite by (rewrite is_finite_spec, E; reflexivity).
    unfold round_to_2_decimals. rewrite E. reflexivity.
  - destruct (exact_fraction m e) as [num den] eqn:EF.
    destruct (Z_lt_le_dec num (10 ^ 21 * den)) as [Hlt | Hge].
    + rewrite (toFixed2_parse_finite x s m e E) by (rewrite EF; assumption).
      unfold round_to_2_decimals. rewrite E, EF. reflexivity.
    + rewrite (toFixed2_parse_large x s m e E) by (rewrite EF; assumption).
      rewrite (round_to_2_decimals_large x s m e E) by (rewrite EF; assumption).
      reflexivity.
Qed.

(** Rounding to two decimals is the rounding of an integer that grows with
    [x]. *)
Lemma round_to_2_decimals_value (x : float) :
  is_finite x = true ->
  nz (Prim2SF (round_to_2_decimals x))
  = nz (round_Z (-71) (round2_int (ulps (Prim2SF x)))).
Proof.
  rewrite is_finite_spec. intro F. pose proof (Prim2SF_valid x) as V.
  unfold round_to_2_decimals.
  destruct (Prim2SF x) as [s | s | | s m e] eqn:E; try discriminate.
  - reflexivity.
  - cbn [valid_binary] in V. pose proof (bounded_spec _ _ V) as (_ & _ & _ & He & _).
    pose proof (nearest_scaled_centi m e He) as NC.
    destruct (exact_fraction m e) as [num den]. rewrite NC.
    assert (P : 0 < Zpos m * 2 ^ (e + 1074)).
    { apply Z.mul_pos_pos; [lia | apply Z.pow_pos_nonneg; lia]. }
    pose proof (centi_nonneg _ (Z.lt_le_incl _ _ P)) as C.
    cbn [ulps]. unfold round2_int.
    set (u := Zpos m * 2 ^ (e + 1074)) in *.
    destruct (centi u) as [| D | D] eqn:EC; try lia.
    + replace (if cond_Zopp s u <? 0 then - sticky100 (centi (- cond_Zopp s u))
               else sticky100 (centi (cond_Zopp s u))) with 0.
      * destruct s; reflexivity.
      * destruct s; cbn [cond_Zopp].
        -- destruct (Z.ltb_spec (- u) 0); [|lia]. rewrite Z.opp_involutive, EC. reflexivity.
        -- destruct (Z.ltb_spec u 0); [lia|]. rewrite EC. reflexivity.
    + rewrite Prim2SF_SF2Prim by (rewrite round_decimal_2; apply round_Z_valid).
      rewrite round_decimal_2. do 2 f_equal.
      destruct s; cbn [cond_Zopp].
      * destruct (Z.ltb_spec (- u) 0); [|lia]. rewrite Z.opp_involutive, EC. reflexivity.
      * destruct (Z.ltb_spec u 0); [lia|]. rewrite EC. reflexivity.
Qed.

Lemma round_Z_not_nan (g n : Z) : round_Z g n <> S754_nan.
Proof.
  rewrite round_Z_eq. destruct (n =? 0); [discriminate|].
  pose proof (round_pos_sign (n <? 0) (Z.abs n) g) as H.
  destruct (round_pos _ _ _); try discriminate. destruct H.
Qed.

Lemma round_to_2_decimals_nan (x : float) :
  is_nan x = false -> Prim2SF (round_to_2_decimals x) <> S754_nan.
Proof.
  intro N. destruct (is_finite x) eqn:F.
  - pose proof (round_to_2_decimals_value x F) as H.
    pose proof (round_Z_not_nan (-71) (round2_int (ulps (Prim2SF x)))) as R.
    destruct (round_Z _ _) eqn:ER; destruct (Prim2SF (round_to_2_decimals x));
      cbn [nz] in H; congruence.
  - apply is_nan_false in N. rewrite is_finite_spec in F.
    unfold round_to_2_decimals.
    destruct (Prim2SF x) eqn:E; try discriminate; try congruence.
Qed.

Lemma round_to_2_decimals_nonfinite (x : float) :
  is_finite x = false -> round_to_2_decimals x = x.
Proof.
  rewrite is_finite_spec. unfold round_to_2_decimals.
  destruct (Prim2SF x); try discriminate; reflexivity.
Qed.

Lemma round_to_2_decimals_mono (x x' : float) :
  (x <=? x')%float = true ->
  (round_to_2_decimals x <=? round_to_2_decimals x')%float = true.
Proof.
  intro H.
  assert (N : is_nan x = false /\ is_nan x' = false).
  { rewrite leb_spec in H. rewrite !is_nan_false.
    destruct (Prim2SF x); destruct (Prim2SF x'); try discriminate; split; discriminate. }
  destruct N as [N N'].
  pose proof (round_to_2_decimals_nan x N) as R.
  pose proof (round_to_2_decimals_nan x' N') as R'.
  destruct (is_finite x) eqn:F; destruct (is_finite x') eqn:F'.
  - rewrite leb_spec, <- SFleb_nz, !round_to_2_decimals_value, SFleb_nz by assumption.
    rewrite <- (round_Z_shift (-71) (round2_int (ulps (Prim2SF x))) 1003) by lia.
    rewrite <- (round_Z_shift (-71) (round2_int (ulps (Prim2SF x'))) 1003) by lia.
    apply round_Z_mono; [lia|].
    apply Z.mul_le_mono_nonneg_r; [apply Z.pow_nonneg; lia|].
    apply round2_int_mono. rewrite leb_spec in H.
    apply SFleb_ulps; auto using Prim2SF_valid; rewrite <- is_finite_spec; assumption.
  - rewrite (round_to_2_decimals_nonfinite x' F') in *.
    rewrite leb_spec in *. rewrite is_finite_spec in F, F'.
    destruct (Prim2SF x') as [| [|] | |] eqn:E'; try discriminate;
      destruct (Prim2SF x) as [| [|] | | [|] ? ?] eqn:E; try discriminate;
      finite_or_inf.
  - rewrite (round_to_2_decimals_nonfinite x F) in *.
    rewrite leb_spec in *. rewrite is_finite_spec in F, F'.
    destruct (Prim2SF x) as [| [|] | |] eqn:E; try discriminate;
      destruct (Prim2SF x') as [| [|] | | [|] ? ?] eqn:E'; try discriminate;
      finite_or_inf.
  - rewrite (round_to_2_decimals_nonfinite x F), (round_to_2_decimals_nonfinite x' F').
    assumption.
Qed.

(** ** Signs of inexact roundings *)

Lemma shr_iter_nonneg (j : nat) (r : shr_record) :
  0 <= shr_m r -> 0 <= shr_m (Nat.iter j shr_1 r).
Proof.
  intro H. induction j as [| j IH]; [assumption|].
  rewrite Nat.iter_succ. destruct (Nat.iter j shr_1 r) as [m' r' s'].
  cbn [shr_m] in IH. rewrite shr_1_spec by assumption. cbn [shr_m].
  apply Z.div_pos; lia.
Qed.

Lemma shr_fexp_nonneg (m e : Z) (l : location) :
  0 <= m -> 0 <= shr_m (fst (shr_fexp prec emax m e l)).
Proof.
  intro H. unfold shr_fexp, shr.
  assert (H0 : 0 <= shr_m (shr_record_of_loc m l)) by (destruct l as [| []]; assumption).
  destruct (fexp prec emax (Zdigits2 m + e) - e); cbn [fst]; try assumption.
  rewrite iter_pos_nat. apply shr_iter_nonneg. assumption.
Qed.

Lemma binary_round_aux_sign (s : bool) (m e : Z) (l : location) :
  0 <= m -> has_sign s (binary_round_aux prec emax s m e l).
Proof.
  intro H. unfold binary_round_aux.
  pose proof (shr_fexp_nonneg m e l H) as H1.
  destruct (shr_fexp prec emax m e l) as [r1 e1]. cbn [fst] in H1.
  assert (H2 : 0 <= round_nearest_even (shr_m r1) (loc_of_shr_record r1)).
  { unfold round_nearest_even.
    destruct (loc_of_shr_record r1) as [| []]; try destruct (Z.even _); lia. }
  pose proof (shr_fexp_nonneg _ e1 loc_Exact H2) as H3.
  destruct (shr_fexp prec emax _ e1 loc_Exact) as [r2 e2]. cbn [fst] in H3.
  destruct (shr_m r2); try lia; try reflexivity.
  destruct (_ <=? _); reflexivity.
Qed.

Lemma SFsqrt_sign (x : spec_float) :
  has_sign false x -> x <> S754_zero true -> has_sign false (SF64sqrt x).
Proof.
  destruct x as [[|] | [|] | | [|] m e]; cbn; try easy. intros _ _.
  unfold SFsqrt_core_binary.
  set (m' := match _ - _ with Zpos p => _ | Z0 => _ | Zneg _ => _ end).
  pose proof (Z.sqrtrem_spec m') as HS.
  assert (Hm' : 0 <= m').
  { unfold m'. destruct (_ - _); try lia. apply Z.shiftl_nonneg. lia. }
  specialize (HS Hm'). destruct (Z.sqrtrem m') as [q r].
  apply binary_round_aux_sign. lia.
Qed.

Lemma SFdiv_sign (x y : spec_float) :
  has_sign false x -> has_sign false y ->
  SF64div x y = S754_nan \/ has_sign false (SF64div x y).
Proof.
  destruct x as [[|] | [|] | | [|] mx ex]; cbn [has_sign]; try easy;
    destruct y as [[|] | [|] | | [|] my ey]; cbn [has_sign]; try easy;
    intros _ _; try (left; reflexivity); try (right; reflexivity).
  right. unfold SF64div, SFdiv, SFdiv_core_binary.
  set (m' := match _ - _ - _ with Zpos p => _ | Z0 => _ | Zneg _ => _ end).
  assert (Hm' : 0 <= m').
  { unfold m'. destruct (_ - _ - _); try lia. apply Z.shiftl_nonneg. lia. }
  pose proof (Z_div_mod m' (Zpos my) ltac:(lia)) as HD.
  destruct (Z.div_eucl m' (Zpos my)) as [q r].
  apply binary_round_aux_sign. nia.
Qed.

(** ** The subtraction of a constant is odd about the constant *)

Lemma SFabs_nz (x : spec_float) : SFabs (nz x) = SFabs x.
Proof. destruct x; reflexivity. Qed.

Lemma SFabs_opp (x : spec_float) : SFabs (SFopp x) = SFabs x.
Proof. destruct x; reflexivity. Qed.

Lemma SFsub_symmetric (p1 p2 c : spec_float) :
  valid_binary p1 = true -> valid_binary p2 = true -> valid_binary c = true ->
  is_finite_SF p1 = true -> is_finite_SF p2 = true -> is_finite_SF c = true ->
  ulps p1 - ulps c = ulps c - ulps p2 ->
  SFabs (SF64sub p1 c) = SFabs (SF64sub p2 c).
Proof.
  intros V1 V2 Vc F1 F2 Fc H.
  rewrite <- (SFabs_nz (SF64sub p1 c)), <- (SFabs_nz (SF64sub p2 c)).
  rewrite !SFsub_ulps by assumption. rewrite !SFabs_nz.
  replace (ulps p2 - ulps c) with (- (ulps p1 - ulps c)) by lia.
  destruct (round_Z_opp (-1074) (ulps p1 - ulps c)) as [E | [_ E]]; rewrite E.
  - rewrite SFabs_nz, SFabs_opp. reflexivity.
  - rewrite SFabs_opp. reflexivity.
Qed.

Lemma exact_ulps_spec (x : float) (u : Z) :
  exact_ulps x = Some u -> is_finite x = true /\ ulps (Prim2SF x) = u.
Proof.
  unfold exact_ulps. rewrite is_finite_spec.
  destruct (Prim2SF x); intro H; try discriminate; injection H as <-; split; reflexivity.
Qed.

Lemma abs_sub_symmetric (p1 p2 c : float) (vc d : Z) :
  exact_ulps c = Some vc ->
  exact_ulps p1 = Some (vc + d) -> exact_ulps p2 = Some (vc - d) ->
  abs (p1 - c) = abs (p2 - c).
Proof.
  intros Hc H1 H2.
  apply exact_ulps_spec in Hc, H1, H2.
  destruct Hc as [Fc Uc], H1 as [F1 U1], H2 as [F2 U2].
  rewrite is_finite_spec in *.
  apply Prim2SF_inj. rewrite !abs_spec, !sub_spec.
  apply SFsub_symmetric; auto using Prim2SF_valid. lia.
Qed.

(** ** Not-a-number and infinities through the operations *)

Lemma ltb_zero_r (x : float) :
  (x <? 0)%float = true ->
  exists s, (Prim2SF x = S754_infinity true \/ exists m e, Prim2SF x = S754_finite true m e)
            /\ s = true.
Proof.
  rewrite ltb_spec. change (Prim2SF 0) with (S754_zero false).
  destruct (Prim2SF x) as [s | [|] | | [|] m e]; try discriminate; intros _; exists true;
    split; try reflexivity; [left; reflexivity | right; eauto].
Qed.

Lemma sqrt_negative (x : float) : (x <? 0)%float = true -> is_nan (sqrt x) = true.
Proof.
  intro H. apply is_nan_spec. rewrite sqrt_spec.
  destruct (ltb_zero_r x H) as (_ & [E | (m & e & E)] & _); rewrite E; reflexivity.
Qed.

Lemma div_nan_r (a b : float) : is_nan b = true -> is_nan (a / b) = true.
Proof.
  rewrite !is_nan_spec, div_spec. intros ->. destruct (Prim2SF a); reflexivity.
Qed.

Lemma mul_nan_r (a b : float) : is_nan b = true -> is_nan (a * b) = true.
Proof.
  rewrite !is_nan_spec, mul_spec. intros ->. destruct (Prim2SF a); reflexivity.
Qed.

Lemma add_nan_l (a b : float) : is_nan a = true -> is_nan (a + b) = true.
Proof.
  rewrite !is_nan_spec, add_spec. intros ->. reflexivity.
Qed.

Lemma add_nan_r (a b : float) : is_nan b = true -> is_nan (a + b) = true.
Proof.
  rewrite !is_nan_spec, add_spec. intros ->. destruct (Prim2SF a); reflexivity.
Qed.

Lemma mul_nan_l (a b : float) : is_nan a = true -> is_nan (a * b) = true.
Proof.
  rewrite !is_nan_spec, mul_spec. intros ->. reflexivity.
Qed.

Lemma is_nan_not_finite (x : float) : is_nan x = true -> is_finite x = false.
Proof. unfold is_finite. intros ->. reflexivity. Qed.

Lemma is_infinity_not_finite (x : float) : is_infinity x = true -> is_finite x = false.
Proof. unfold is_finite. intros ->. rewrite orb_true_r. reflexivity. Qed.

Lemma mul_not_finite_r (a b : float) : is_finite b = false -> is_finite (a * b) = false.
Proof.
  intro H. destruct (is_finite (a * b)) eqn:F; [|reflexivity].
  apply mul_finite_inv in F. destruct F. congruence.
Qed.

Lemma add_not_finite_l (a b : float) : is_finite a = false -> is_finite (a + b) = false.
Proof.
  intro H. destruct (is_finite (a + b)) eqn:F; [|reflexivity].
  apply add_finite_inv in F. destruct F. congruence.
Qed.

Lemma eqb_zero (x : float) :
  (x =? 0)%float = true -> exists s, Prim2SF x = S754_zero s.
Proof.
  rewrite eqb_spec. change (Prim2SF 0) with (S754_zero false).
  destruct (Prim2SF x) as [s | [|] | | [|] m e]; try discriminate. eauto.
Qed.

Lemma ltb_zero_l (x : float) :
  (0 <? x)%float = true -> has_sign false (Prim2SF x) /\ Prim2SF x <> S754_zero true.
Proof.
  rewrite ltb_spec. change (Prim2SF 0) with (S754_zero false).
  destruct (Prim2SF x) as [s | [|] | | [|] m e]; try discriminate; split; easy.
Qed.

(** ** What a StrDecimalLiteral evaluates to *)

Lemma round_decimal_round_Z (neg : bool) (D : positive) (e10 : Z) :
  exists g w, round_decimal neg D e10 = round_Z g w.
Proof.
  unfold round_decimal. destruct e10 as [| p | p].
  - eexists _, _. reflexivity.
  - eexists _, _. reflexivity.
  - destruct (Z.div_eucl _ _). eexists _, _. reflexivity.
Qed.

Lemma StringNumericValue_not_nan (l : StrDecimalLiteral) :
  is_nan (StringNumericValue l) = false.
Proof.
  destruct l as [[|] | neg ip fp e]; try reflexivity.
  cbn [StringNumericValue]. destruct (digits_value (ip ++ fp)) as [| D].
  - destruct neg; reflexivity.
  - destruct (round_decimal_round_Z neg D (e - Z.of_nat (List.length fp))) as (g & w & E).
    apply is_nan_false. rewrite E, Prim2SF_SF2Prim by apply round_Z_valid.
    apply round_Z_not_nan.
Qed.

(** ** The longest prefix *)

Lemma longest_prefix_found {A : Type} (p : JSString -> option A) (s : JSString)
  (n k : nat) (a : A) :
  (k <= n)%nat -> p (firstn k s) = Some a ->
  (forall j, (k < j <= n)%nat -> p (firstn j s) = None) ->
  longest_prefix p s n = Some a.
Proof.
  intros Hk Ha Hnone. induction n as [| n IH].
  - replace k with 0%nat in Ha by lia. cbn [longest_prefix]. rewrite Ha. reflexivity.
  - destruct (Nat.eq_dec k (S n)) as [-> | Hne].
    + cbn [longest_prefix]. rewrite Ha. reflexivity.
    + cbn [longest_prefix]. rewrite (Hnone (S n)) by lia.
      apply IH; [lia|]. intros j Hj. apply Hnone. lia.
Qed.

Lemma longest_prefix_none {A : Type} (p : JSString -> option A) (s : JSString) (n : nat) :
  longest_prefix p s n = None <-> forall j, (j <= n)%nat -> p (firstn j s) = None.
Proof.
  induction n as [| n IH]; cbn [longest_prefix].
  - split.
    + intros H j Hj. replace j with 0%nat by lia. destruct (p (firstn 0 s)); congruence.
    + intro H. rewrite (H 0%nat) by lia. reflexivity.
  - split.
    + intros H j Hj. destruct (p (firstn (S n) s)) eqn:E; [discriminate|].
      destruct (Nat.eq_dec j (S n)) as [-> | Hne]; [assumption|].
      apply IH; [assumption | lia].
    + intro H. rewrite (H (S n)) by lia. apply IH. intros j Hj. apply H. lia.
Qed.

Lemma white_space_cases (c : code_unit) :
  is_white_space c = true ->
  is_digit c = false /\ c <> 43%N /\ c <> 45%N /\ c <> 46%N /\ c <> 73%N.
Proof.
  unfold is_white_space. rewrite existsb_exists. intros (y & Hin & Hy).
  apply N.eqb_eq in Hy. subst y. cbn [In] in Hin.
  repeat destruct Hin as [<- | Hin]; try (repeat split; (reflexivity || discriminate)).
  destruct Hin.
Qed.

(** A StrDecimalLiteral begins with a sign, a digit, a point or [I], none of
    which is white space: trimming leaves a string that begins with one
    unchanged. *)
Lemma literal_not_trimmed (p rest : JSString) (l : StrDecimalLiteral) :
  parse_StrDecimalLiteral p = Some l -> trim_start (p ++ rest) = p ++ rest.
Proof.
  destruct p as [| c p]; [discriminate|]. intro H. cbn [app trim_start].
  destruct (is_white_space c) eqn:W; [|reflexivity]. exfalso.
  apply white_space_cases in W. destruct W as (Hd & H43 & H45 & H46 & H73).
  assert (Hinf : JSString_eqb (c :: p) Infinity_string = false).
  { unfold JSString_eqb. destruct (list_eq_dec _ _ _) as [E | E]; [|reflexivity].
    change Infinity_string with (73%N :: tl Infinity_string) in E. congruence. }
  assert (Hu : parse_StrUnsignedDecimalLiteral (c :: p) = None).
  { unfold parse_StrUnsignedDecimalLiteral. cbn [span_digits]. rewrite Hd.
    destruct c as [| c]; [reflexivity|].
    destruct c as [c | c |]; try reflexivity;
      destruct c as [c | c |]; try reflexivity;
      destruct c as [c | c |]; try reflexivity;
      destruct c as [c | c |]; try reflexivity;
      destruct c as [c | c |]; try reflexivity;
      destruct c as [c | c |]; try reflexivity; congruence. }
  revert H. unfold parse_StrDecimalLiteral.
  destruct c as [| c]; [cbv beta iota; rewrite Hinf, Hu; discriminate|].
  destruct c as [c | c |]; try (cbv beta iota; rewrite Hinf, Hu; discriminate);
    destruct c as [c | c |]; try (cbv beta iota; rewrite Hinf, Hu; discriminate);
    destruct c as [c | c |]; try (cbv beta iota; rewrite Hinf, Hu; discriminate);
    destruct c as [c | c |]; try (cbv beta iota; rewrite Hinf, Hu; discriminate);
    destruct c as [c | c |]; try (cbv beta iota; rewrite Hinf, Hu; discriminate);
    destruct c as [c | c |]; try (cbv beta iota; rewrite Hinf, Hu; discriminate);
    congruence.
Qed.

(** ** The predictor *)

Lemma calculateMinimumPressure_eq (st : HomeState) :
  calculateMinimumPressure st
  = inr (setPredictedPressure st
           (round_to_2_decimals (predicted_pressure st.(formData)))).
Proof.
  pose proof (toFixed2_parse_eq (predicted_pressure st.(formData))) as H.
  unfold calculateMinimumPressure, toFixed2_parse in *.
  destruct (Number_toFixed _ 2) as [err | fixed]; cbn [bind ret] in *.
  - discriminate.
  - unfold ret in *. injection H as ->. reflexivity.
Qed.

Lemma predictor_output_eq (st : HomeState) :
  predictor_output st = Some (round_to_2_decimals (predicted_pressure st.(formData))).
Proof. unfold predictor_output. rewrite calculateMinimumPressure_eq. reflexivity. Qed.

Lemma ensureNumber_parseOrDefault (text : JSString) (d : float) :
  ensureNumber (VString text) d = parseOrDefault text d.
Proof.
  unfold ensureNumber, parseOrDefault, parseFloat, ToString, parseFloat_string, isNaN.
  destruct (longest_prefix _ _ _) as [l |].
  - rewrite StringNumericValue_not_nan. reflexivity.
  - reflexivity.
Qed.

(** ** The claims *)

#[local] Open Scope float_scope.

(** C1: for every form data with [membraneArea > 0] the predictor computes the
    pipeline of the specification, the fouling penalty added after the area
    scaling and the turbidity and pH penalties before it, and stores the
    result rounded to two decimal places. *)
Theorem C1_pipeline (st : HomeState) :
  let fd := st.(formData) in
  let T_K := fd.(temperature) + 273.15 in
  let osmotic := 2 * fd.(salinity) * 0.083145 * T_K in
  let operational := osmotic * 1.6 in
  let after_temp := operational * (1 - 0.004 * (fd.(temperature) - 25)) in
  let predicted :=
    (after_temp + 2.5 * fd.(turbidity) + 6.0 * abs (fd.(pH) - 7.75))
    * (7.0 / sqrt fd.(membraneArea))
    + 32 * fd.(foulingFactor) in
  (0 <? fd.(membraneArea)) = true ->
  predicted_pressure fd = predicted
  /\ calculateMinimumPressure st
     = inr (setPredictedPressure st (round_to_2_decimals predicted)).
Proof.
  intros fd T_K' osmotic operational after_temp predicted Harea.
  split; [reflexivity|]. apply calculateMinimumPressure_eq.
Qed.

Lemma C1_pipeline_witness :
  (0 <? 50) = true
  /\ calculateMinimumPressure initial_state
     = inr (setPredictedPressure initial_state 69.86).
Proof.
  split; [reflexivity|].
  destruct (C1_pipeline initial_state eq_refl) as [_ H].
  rewrite H. vm_compute. reflexivity.
Defined.

(** C2, as stated, fails: on the reference scenario the predictor stores
    69.86, which is not within 0.01 of 69.97. *)
Lemma C2_reference_not_69_97 :
  predictor_output initial_state = Some 69.86
  /\ within_hundredths 69.86 6997 1 = false.
Proof. split; vm_compute; reflexivity. Qed.

(** C2, amended: on the reference scenario the formula gives
    69.86356701698675, [toFixed(2)] writes it as "69.86", and the predictor
    stores 69.86, within 0.01 of 69.86. *)
Theorem C2_reference_scenario :
  initial_formData
  = {| salinity := 0.68; temperature := 22; pH := 7.7; turbidity := 5.2;
       membraneArea := 50; foulingFactor := 0.1 |}
  /\ predicted_pressure initial_formData = 69.86356701698675
  /\ Number_toFixed (predicted_pressure initial_formData) 2 = inr (str "69.86")
  /\ calculateMinimumPressure initial_state
     = inr (setPredictedPressure initial_state 69.86)
  /\ within_hundredths 69.86 6986 1 = true.
Proof. repeat split; vm_compute; reflexivity. Qed.

(** C3, as stated, fails: with [membraneArea = 0] the call returns normally
    and stores [Infinity]; no error is raised. *)
Lemma C3_zero_area_returns :
  calculateMinimumPressure (form_state initial_state 0.68 22 7.7 5.2 0 0.1)
  = inr (setPredictedPressure (form_state initial_state 0.68 22 7.7 5.2 0 0.1) infinity).
Proof. vm_compute. reflexivity. Qed.

Lemma area_zero_not_finite (fd : FormData) :
  (fd.(membraneArea) =? 0) = true ->
  is_infinity (area_scaling_factor fd) = true
  /\ is_finite (predicted_pressure fd) = false.
Proof.
  intro H. apply eqb_zero in H. destruct H as [s E].
  assert (I : is_infinity (area_scaling_factor fd) = true).
  { apply is_infinity_spec. unfold area_scaling_factor, Math_sqrt.
    rewrite div_spec, sqrt_spec, E. exists s. destruct s; reflexivity. }
  split; [assumption|].
  unfold predicted_pressure.
  apply add_not_finite_l, mul_not_finite_r, is_infinity_not_finite. assumption.
Qed.

Lemma area_negative_nan (fd : FormData) :
  (fd.(membraneArea) <? 0) = true ->
  is_nan (Math_sqrt fd.(membraneArea)) = true
  /\ is_nan (predicted_pressure fd) = true.
Proof.
  intro H. pose proof (sqrt_negative _ H) as S. split; [assumption|].
  unfold predicted_pressure, area_scaling_factor.
  apply add_nan_l, mul_nan_r, div_nan_r. assumption.
Qed.

Lemma round_to_2_decimals_is_nan (x : float) :
  is_nan x = true -> is_nan (round_to_2_decimals x) = true.
Proof.
  intro H. rewrite round_to_2_decimals_nonfinite; [assumption|].
  apply is_nan_not_finite. assumption.
Qed.

(** C3, amended: for [membraneArea = 0] and for [membraneArea < 0] the
    predictor raises no error; it returns normally and stores a value that is
    not a finite number: NaN for [membraneArea < 0], an infinity or NaN for
    [membraneArea = 0].  Both occur at [membraneArea = 0]: [Infinity] with the
    other fields at their defaults, NaN when the sum that is scaled is zero
    (salinity 0, turbidity 0, pH 7.75), since [0 * Infinity] is NaN.  With
    [membraneArea = 10] and the other fields at their defaults the predictor
    stores the number 152.26. *)
Theorem C3_no_domain_error :
  (forall st : HomeState,
      (st.(formData).(membraneArea) =? 0) = true
      \/ (st.(formData).(membraneArea) <? 0) = true ->
      exists p, calculateMinimumPressure st = inr (setPredictedPressure st p)
                /\ is_finite p = false
                /\ (is_infinity p = true \/ is_nan p = true)
                /\ ((st.(formData).(membraneArea) <? 0) = true -> is_nan p = true))
  /\ predictor_output (form_state initial_state 0.68 22 7.7 5.2 0 0.1) = Some infinity
  /\ predictor_output (form_state initial_state 0 22 7.75 0 0 0.1) = Some nan
  /\ calculateMinimumPressure (form_state initial_state 0.68 22 7.7 5.2 10 0.1)
     = inr (setPredictedPressure (form_state initial_state 0.68 22 7.7 5.2 10 0.1) 152.26)
  /\ is_finite 152.26 = true.
Proof.
  split; [|repeat split; vm_compute; reflexivity].
  intros st H. eexists. split; [apply calculateMinimumPressure_eq|].
  assert (F : is_finite (round_to_2_decimals (predicted_pressure st.(formData))) = false).
  { destruct H as [H | H].
    - apply area_zero_not_finite in H. destruct H as [_ H].
      rewrite round_to_2_decimals_nonfinite; assumption.
    - apply area_negative_nan in H. destruct H as [_ H].
      apply is_nan_not_finite, round_to_2_decimals_is_nan. assumption. }
  split; [exact F|]. split.
  - unfold is_finite in F.
    destruct (is_infinity (round_to_2_decimals (predicted_pressure (formData st))));
      [left; reflexivity|].
    destruct (is_nan (round_to_2_decimals (predicted_pressure (formData st))));
      [right; reflexivity | discriminate].
  - intro Hneg. apply area_negative_nan in Hneg. destruct Hneg as [_ Hneg].
    apply round_to_2_decimals_is_nan. assumption.
Qed.

(** C4: for every numeric input [calculateMinimumPressure] returns normally.
    With [membraneArea = 0] the area scaling factor is an infinity
    ([Infinity] for [+0], [-Infinity] for [-0]) and the stored result is not
    finite; with [membraneArea < 0] the square root is NaN and NaN is
    stored. *)
Theorem C4_never_throws (st : HomeState) :
  exists p,
    calculateMinimumPressure st = inr (setPredictedPressure st p)
    /\ ((st.(formData).(membraneArea) =? 0) = true ->
        is_infinity (area_scaling_factor st.(formData)) = true
        /\ is_finite p = false)
    /\ (st.(formData).(membraneArea) = 0 ->
        area_scaling_factor st.(formData) = infinity)
    /\ (st.(formData).(membraneArea) = (-0) ->
        area_scaling_factor st.(formData) = neg_infinity)
    /\ ((st.(formData).(membraneArea) <? 0) = true ->
        is_nan (Math_sqrt st.(formData).(membraneArea)) = true
        /\ is_nan p = true).
Proof.
  eexists. split; [apply calculateMinimumPressure_eq|].
  split; [|split; [|split]]; intro H.
  - destruct (area_zero_not_finite _ H) as [I F].
    split; [exact I | rewrite round_to_2_decimals_nonfinite; assumption].
  - unfold area_scaling_factor. rewrite H. reflexivity.
  - unfold area_scaling_factor. rewrite H. reflexivity.
  - destruct (area_negative_nan _ H) as [S N].
    split; [exact S | apply round_to_2_decimals_is_nan; assumption].
Qed.

(** C5: the predictor is deterministic and reads nothing but the six fields
    of [formData]: two states with the same form data get the same output,
    whatever [dataRows] and [predictedPressure] hold, and a second call on
    the state the first call returned changes nothing. *)
Theorem C5_deterministic (st1 st2 : HomeState) :
  st1.(formData) = st2.(formData) ->
  predictor_output st1 = predictor_output st2
  /\ (forall st1', calculateMinimumPressure st1 = inr st1' ->
        calculateMinimumPressure st1' = inr st1'
        /\ st1'.(formData) = st1.(formData)
        /\ st1'.(dataRows) = st1.(dataRows)).
Proof.
  intro H. split.
  - rewrite !predictor_output_eq, H. reflexivity.
  - intros st1' H1. rewrite calculateMinimumPressure_eq in H1.
    injection H1 as <-. rewrite calculateMinimumPressure_eq. repeat split.
Qed.

Lemma C5_deterministic_witness :
  predictor_output initial_state
  = predictor_output (setPredictedPressure initial_state 1).
Proof.
  apply (C5_deterministic initial_state (setPredictedPressure initial_state 1)).
  reflexivity.
Defined.

Lemma add_not_nan_inv (a b : float) :
  is_nan (a + b) = false -> is_nan a = false /\ is_nan b = false.
Proof.
  intro H. split.
  - destruct (is_nan a) eqn:N; [|reflexivity]. rewrite add_nan_l in H; assumption.
  - destruct (is_nan b) eqn:N; [|reflexivity]. rewrite add_nan_r in H; assumption.
Qed.

Lemma mul_not_nan_inv (a b : float) :
  is_nan (a * b) = false -> is_nan a = false /\ is_nan b = false.
Proof.
  intro H. split.
  - destruct (is_nan a) eqn:N; [|reflexivity]. rewrite mul_nan_l in H; assumption.
  - destruct (is_nan b) eqn:N; [|reflexivity]. rewrite mul_nan_r in H; assumption.
Qed.

Lemma round_to_2_decimals_not_nan_inv (x : float) :
  is_nan (round_to_2_decimals x) = false -> is_nan x = false.
Proof.
  intro H. destruct (is_nan x) eqn:N; [|reflexivity].
  rewrite round_to_2_decimals_is_nan in H; assumption.
Qed.

(** For a positive [membraneArea] the area scaling factor is not negative. *)
Lemma area_scaling_factor_nonneg (fd : FormData) :
  (0 <? fd.(membraneArea)) = true ->
  is_nan (area_scaling_factor fd) = false ->
  (0 <=? area_scaling_factor fd) = true.
Proof.
  intros H N. apply ltb_zero_l in H. destruct H as [Hs Hz].
  rewrite is_nan_false in N. rewrite leb_spec.
  unfold area_scaling_factor, Math_sqrt in *. rewrite div_spec, sqrt_spec in *.
  change (Prim2SF 0) with (S754_zero false).
  destruct (SFdiv_sign (Prim2SF 7.0) (SF64sqrt (Prim2SF fd.(membraneArea)))) as [E | E].
  - reflexivity.
  - apply SFsqrt_sign; assumption.
  - contradiction.
  - apply SFleb_zero_l. assumption.
Qed.

Lemma predicted_pressure_unfold (fd : FormData) :
  predicted_pressure fd
  = (pressure_after_temp fd + 2.5 * fd.(turbidity) + pH_penalty fd)
    * area_scaling_factor fd + 32 * fd.(foulingFactor).
Proof. reflexivity. Qed.

(** C6, as stated, fails: the output is rounded to two decimals, so a
    strictly larger fouling factor (or turbidity) can leave it unchanged. *)
Lemma C6_not_strict :
  (0 <? 50) = true
  /\ (0.1 <? 0.1000001) = true
  /\ predictor_output (form_state initial_state 0.68 22 7.7 5.2 50 0.1) = Some 69.86
  /\ predictor_output (form_state initial_state 0.68 22 7.7 5.2 50 0.1000001) = Some 69.86
  /\ (5.2 <? 5.2000001) = true
  /\ predictor_output (form_state initial_state 0.68 22 7.7 5.2000001 50 0.1) = Some 69.86
  /\ (69.86 <? 69.86) = false.
Proof. repeat split; vm_compute; reflexivity. Qed.

(** C6, amended: holding the other fields fixed, with [membraneArea > 0],
    a strictly larger [foulingFactor] never decreases the output, and a
    strictly larger [turbidity] never decreases it, whenever both outputs
    are numbers (not NaN). *)
Theorem C6_never_decreases (st : HomeState) (sal temp ph turb area foul : float) :
  (0 <? area) = true ->
  (forall foul' v v',
      (foul <? foul') = true ->
      predictor_output (form_state st sal temp ph turb area foul) = Some v ->
      predictor_output (form_state st sal temp ph turb area foul') = Some v' ->
      is_nan v = false -> is_nan v' = false ->
      (v <=? v') = true)
  /\ (forall turb' v v',
      (turb <? turb') = true ->
      predictor_output (form_state st sal temp ph turb area foul) = Some v ->
      predictor_output (form_state st sal temp ph turb' area foul) = Some v' ->
      is_nan v = false -> is_nan v' = false ->
      (v <=? v') = true).
Proof.
  intro Harea. split.
  - intros foul' v v' Hlt Hv Hv' N N'.
    rewrite predictor_output_eq in Hv, Hv'. apply some_inj in Hv, Hv'. subst v v'.
    apply round_to_2_decimals_not_nan_inv in N, N'.
    apply round_to_2_decimals_mono.
    unfold form_state, setFormData in *. cbn [formData] in *.
    rewrite predicted_pressure_unfold in *. cbn [foulingFactor turbidity] in *.
    change (pressure_after_temp {| salinity := sal; temperature := temp; pH := ph;
              turbidity := turb; membraneArea := area; foulingFactor := foul' |})
      with (pressure_after_temp {| salinity := sal; temperature := temp; pH := ph;
              turbidity := turb; membraneArea := area; foulingFactor := foul |}) in *.
    change (pH_penalty {| salinity := sal; temperature := temp; pH := ph;
              turbidity := turb; membraneArea := area; foulingFactor := foul' |})
      with (pH_penalty {| salinity := sal; temperature := temp; pH := ph;
              turbidity := turb; membraneArea := area; foulingFactor := foul |}) in *.
    change (area_scaling_factor {| salinity := sal; temperature := temp; pH := ph;
              turbidity := turb; membraneArea := area; foulingFactor := foul' |})
      with (area_scaling_factor {| salinity := sal; temperature := temp; pH := ph;
              turbidity := turb; membraneArea := area; foulingFactor := foul |}) in *.
    apply add_mono_r_gen; try assumption.
    destruct (add_not_nan_inv _ _ N) as [_ NF].
    destruct (add_not_nan_inv _ _ N') as [_ NF'].
    apply mul_mono_r_gen; try assumption; [reflexivity | apply ltb_leb; assumption].
  - intros turb' v v' Hlt Hv Hv' N N'.
    rewrite predictor_output_eq in Hv, Hv'. apply some_inj in Hv, Hv'. subst v v'.
    apply round_to_2_decimals_not_nan_inv in N, N'.
    apply round_to_2_decimals_mono.
    unfold form_state, setFormData in *. cbn [formData] in *.
    rewrite predicted_pressure_unfold in *. cbn [foulingFactor turbidity] in *.
    change (pressure_after_temp {| salinity := sal; temperature := temp; pH := ph;
              turbidity := turb'; membraneArea := area; foulingFactor := foul |})
      with (pressure_after_temp {| salinity := sal; temperature := temp; pH := ph;
              turbidity := turb; membraneArea := area; foulingFactor := foul |}) in *.
    change (pH_penalty {| salinity := sal; temperature := temp; pH := ph;
              turbidity := turb'; membraneArea := area; foulingFactor := foul |})
      with (pH_penalty {| salinity := sal; temperature := temp; pH := ph;
              turbidity := turb; membraneArea := area; foulingFactor := foul |}) in *.
    change (area_scaling_factor {| salinity := sal; temperature := temp; pH := ph;
              turbidity := turb'; membraneArea := area; foulingFactor := foul |})
      with (area_scaling_factor {| salinity := sal; temperature := temp; pH := ph;
              turbidity := turb; membraneArea := area; foulingFactor := foul |}) in *.
    set (fd := {| salinity := sal; temperature := temp; pH := ph;
                  turbidity := turb; membraneArea := area; foulingFactor := foul |}) in *.
    destruct (add_not_nan_inv _ _ N) as [NM _].
    destruct (add_not_nan_inv _ _ N') as [NM' _].
    destruct (mul_not_nan_inv _ _ NM) as [NS NA].
    destruct (mul_not_nan_inv _ _ NM') as [NS' _].
    destruct (add_not_nan_inv _ _ NS) as [NT _].
    destruct (add_not_nan_inv _ _ NS') as [NT' _].
    destruct (add_not_nan_inv _ _ NT) as [_ NU].
    destruct (add_not_nan_inv _ _ NT') as [_ NU'].
    apply add_mono_l_gen; try assumption.
    apply mul_mono_l_gen; try assumption.
    + apply area_scaling_factor_nonneg; assumption.
    + apply add_mono_l_gen; try assumption.
      apply add_mono_r_gen; try assumption.
      apply mul_mono_r_gen; try assumption; [reflexivity | apply ltb_leb; assumption].
Qed.

Lemma C6_never_decreases_witness :
  (0 <? 50) = true /\ (0.1 <? 0.5) = true /\ (69.86 <=? 82.66) = true.
Proof.
  split; [reflexivity|]. split; [reflexivity|].
  destruct (C6_never_decreases initial_state 0.68 22 7.7 5.2 50 0.1 eq_refl) as [H _].
  apply (H 0.5 69.86 82.66); vm_compute; reflexivity.
Defined.

(** C7, as stated, fails: the pH held by [formData] is a binary64 number, and
    for most [d] the two numbers standing for [7.75 + d] and [7.75 - d] are
    not at the same distance from 7.75.  Typed as "9.11" and "6.39"
    ([d = 1.36]) with salinity 0, turbidity 11.494, membrane area 49 and
    fouling factor 0, they give 36.89 and 36.9; computed as [7.75 + d] and
    [7.75 - d] for [d = 0.2525] with salinity 0, turbidity 0, membrane area 49
    and fouling factor 0, they give 1.51 and 1.52, and the two pH penalties
    differ. *)
Lemma C7_pH_not_symmetric :
  (let st := form_state initial_state 0 22 7.7 11.494 49 0 in
   predictor_output (onChange_pH st (str "9.11")) = Some 36.89
   /\ predictor_output (onChange_pH st (str "6.39")) = Some 36.9
   /\ (36.89 =? 36.9) = false)
  /\ (let d := 0.2525 in
      predictor_output (form_state initial_state 0 22 (7.75 + d) 0 49 0) = Some 1.51
      /\ predictor_output (form_state initial_state 0 22 (7.75 - d) 0 49 0) = Some 1.52
      /\ (1.51 =? 1.52) = false
      /\ (pH_penalty (formData (form_state initial_state 0 22 (7.75 + d) 0 49 0))
          <? pH_penalty (formData (form_state initial_state 0 22 (7.75 - d) 0 49 0)))
         = true).
Proof. repeat split; vm_compute; reflexivity. Qed.

(** C7, amended: the output depends on the pH only through its distance to
    7.75, for pH values that are exact mirror images of each other: whenever
    the two binary64 numbers [pH_plus] and [pH_minus] are exactly [7.75 + d]
    and [7.75 - d] ([d] counted in units of [2^-1074], in which every
    binary64 number is an integer), for every choice of the other five
    inputs the predictor's output for [pH_plus] equals its output for
    [pH_minus], and so does the pH penalty. *)
Theorem C7_pH_symmetry (st : HomeState) (sal temp turb area foul : float)
  (pH_plus pH_minus : float) (c d : Z) :
  exact_ulps optimal_pH = Some c ->
  exact_ulps pH_plus = Some (c + d)%Z ->
  exact_ulps pH_minus = Some (c - d)%Z ->
  predictor_output (form_state st sal temp pH_plus turb area foul)
  = predictor_output (form_state st sal temp pH_minus turb area foul)
  /\ pH_penalty (formData (form_state st sal temp pH_plus turb area foul))
     = pH_penalty (formData (form_state st sal temp pH_minus turb area foul)).
Proof.
  intros Hc Hp Hm.
  pose proof (abs_sub_symmetric pH_plus pH_minus optimal_pH c d Hc Hp Hm) as H.
  assert (HP : pH_penalty (formData (form_state st sal temp pH_plus turb area foul))
               = pH_penalty (formData (form_state st sal temp pH_minus turb area foul))).
  { unfold pH_penalty, form_state, setFormData, Math_abs. cbn [formData pH].
    rewrite H. reflexivity. }
  split; [|exact HP].
  rewrite !predictor_output_eq. f_equal.
  rewrite !predicted_pressure_unfold. rewrite HP. reflexivity.
Qed.

Lemma C7_pH_symmetry_witness :
  predictor_output (form_state initial_state 0.68 22 8 5.2 50 0.1)
  = predictor_output (form_state initial_state 0.68 22 7.5 5.2 50 0.1).
Proof.
  apply (C7_pH_symmetry initial_state 0.68 22 5.2 50 0.1 8 7.5
           (31 * 2 ^ 1072)%Z (2 ^ 1072)%Z); vm_compute; reflexivity.
Defined.

(** C8: the stored result is the rounded [predicted_pressure] itself, for
    every state; for salinity 2.0, temperature 5 and fouling factor 1.0 (the
    other fields at their defaults) it is 203.41, outside [35, 70], where the
    bounds of the commented-out line 105 would have given 70. *)
Theorem C8_no_clamping :
  (forall st : HomeState,
      predictor_output st
      = Some (round_to_2_decimals (predicted_pressure st.(formData))))
  /\ let st := form_state initial_state 2.0 5 7.7 5.2 50 1.0 in
     predictor_output st = Some 203.41
     /\ (35 <=? 203.41) && (203.41 <=? 70) = false
     /\ (70 <? 203.41) = true
     /\ round_to_2_decimals (old_bounds (predicted_pressure st.(formData))) = 70.
Proof.
  split; [exact predictor_output_eq|].
  cbv zeta. repeat split; vm_compute; reflexivity.
Qed.

(** C9: [ensureNumber] is the default substitution of the specification,
    a function of the text and the default alone: the parsed number when the
    text parses, the default otherwise; and each of the six inputs stores
    into its own field of [formData] the number so obtained with the
    documented default (0.68, 22, 7.7, 5.2, 50, 0.1), leaving the other
    fields as they were, so that [formData] only ever holds numbers. *)
Theorem C9_default_substitution :
  (forall (text : JSString) (d : float),
      ensureNumber (VString text) d = parseOrDefault text d)
  /\ (forall (st : HomeState) (text : JSString),
      let fd := st.(formData) in
      onChange_salinity st text
      = form_state st (parseOrDefault text 0.68) fd.(temperature) fd.(pH)
          fd.(turbidity) fd.(membraneArea) fd.(foulingFactor)
      /\ onChange_temperature st text
         = form_state st fd.(salinity) (parseOrDefault text 22) fd.(pH)
             fd.(turbidity) fd.(membraneArea) fd.(foulingFactor)
      /\ onChange_pH st text
         = form_state st fd.(salinity) fd.(temperature) (parseOrDefault text 7.7)
             fd.(turbidity) fd.(membraneArea) fd.(foulingFactor)
      /\ onChange_turbidity st text
         = form_state st fd.(salinity) fd.(temperature) fd.(pH)
             (parseOrDefault text 5.2) fd.(membraneArea) fd.(foulingFactor)
      /\ onChange_membraneArea st text
         = form_state st fd.(salinity) fd.(temperature) fd.(pH)
             fd.(turbidity) (parseOrDefault text 50) fd.(foulingFactor)
      /\ onChange_foulingFactor st text
         = form_state st fd.(salinity) fd.(temperature) fd.(pH)
             fd.(turbidity) fd.(membraneArea) (parseOrDefault text 0.1))
  /\ formData (onChange_salinity initial_state (str "abc")) = initial_formData
  /\ salinity (formData (onChange_salinity initial_state (str "1.25"))) = 1.25.
Proof.
  split; [exact ensureNumber_parseOrDefault|]. split.
  - intros st text fd.
    unfold onChange_salinity, onChange_temperature, onChange_pH, onChange_turbidity,
      onChange_membraneArea, onChange_foulingFactor, form_state.
    rewrite !ensureNumber_parseOrDefault. repeat split; reflexivity.
  - split; vm_compute; reflexivity.
Qed.

(** C10: [ensureNumber] parses leniently.  If a prefix of the text is a
    decimal literal and no longer prefix of the text is one, the result is
    the value of that prefix, whatever follows it, and not the default; the
    default is returned exactly when [parseFloat] of the text is NaN, which
    is exactly when no prefix of the text (leading white space removed) is a
    decimal literal, as for the empty string and for "abc". *)
Theorem C10_lenient_parsing :
  (forall (prefix rest : JSString) (literal : StrDecimalLiteral) (d : float),
      parse_StrDecimalLiteral prefix = Some literal ->
      (forall j, (List.length prefix < j <= List.length (prefix ++ rest))%nat ->
                 parse_StrDecimalLiteral (firstn j (prefix ++ rest)) = None) ->
      ensureNumber (VString (prefix ++ rest)) d = StringNumericValue literal
      /\ isNaN (StringNumericValue literal) = false)
  /\ (forall (value : JSValue) (d : float),
      ensureNumber value d
      = if isNaN (parseFloat value) then d else parseFloat value)
  /\ (forall text : JSString,
      isNaN (parseFloat (VString text)) = true
      <-> forall j, (j <= List.length (trim_start text))%nat ->
                    parse_StrDecimalLiteral (firstn j (trim_start text)) = None)
  /\ (forall d : float,
      ensureNumber (VString (str "3.5abc")) d = 3.5
      /\ ensureNumber (VString (str "")) d = d
      /\ ensureNumber (VString (str "abc")) d = d).
Proof.
  split; [|split; [|split]].
  - intros prefix rest literal d Hp Hlong.
    assert (N : isNaN (StringNumericValue literal) = false)
      by apply StringNumericValue_not_nan.
    split; [|exact N].
    unfold ensureNumber, parseFloat, ToString, parseFloat_string.
    rewrite (literal_not_trimmed prefix rest literal Hp).
    rewrite (longest_prefix_found parse_StrDecimalLiteral (prefix ++ rest)
               (List.length (prefix ++ rest)) (List.length prefix) literal).
    + rewrite N. reflexivity.
    + rewrite length_app. lia.
    + rewrite firstn_app, firstn_all, Nat.sub_diag. cbn [firstn].
      rewrite app_nil_r. exact Hp.
    + exact Hlong.
  - intros value d. reflexivity.
  - intro text. unfold parseFloat, ToString, parseFloat_string, isNaN.
    rewrite <- longest_prefix_none.
    destruct (longest_prefix _ _ _) as [l |].
    + rewrite StringNumericValue_not_nan. split; discriminate.
    + split; reflexivity.
  - intro d. repeat split.
Qed.

Lemma C10_lenient_parsing_witness :
  ensureNumber (VString (str "3.5abc")) 0.68 = 3.5.
Proof.
  destruct C10_lenient_parsing as [H _].
  destruct (H (str "3.5") (str "abc") (LitDecimal false [3%N] [5%N] 0) 0.68) as [E _].
  - reflexivity.
  - intros j Hj. cbn in Hj.
    assert (C : j = 4%nat \/ j = 5%nat \/ j = 6%nat) by lia.
    destruct C as [-> | [-> | ->]]; reflexivity.
  - exact E.
Defined.

(** * More of the component *)

#[local] Close Scope float_scope.

(** ** [split], [join] and [trim] *)

Lemma split_nonempty (S : JSString) (sep : code_unit) : split S sep <> [].
Proof.
  destruct S as [| c S]; cbn [split]; [discriminate|].
  destruct (c =? sep)%N; [discriminate|]. destruct (split S sep); discriminate.
Qed.

Lemma split_cons_other (c : code_unit) (S : JSString) (sep : code_unit) :
  c <> sep ->
  exists piece pieces,
    split S sep = piece :: pieces /\ split (c :: S) sep = (c :: piece) :: pieces.
Proof.
  intro H. cbn [split]. apply N.eqb_neq in H. rewrite H.
  destruct (split S sep) as [| piece pieces] eqn:E.
  - exfalso. exact (split_nonempty S sep E).
  - exists piece, pieces. split; reflexivity.
Qed.

Lemma split_length (S : JSString) (sep : code_unit) :
  List.length (split S sep) = Datatypes.S (count_occ N.eq_dec S sep).
Proof.
  induction S as [| c S IH]; [reflexivity|].
  cbn [count_occ]. destruct (N.eq_dec c sep) as [-> | Hne].
  - cbn [split]. rewrite N.eqb_refl. cbn [List.length]. rewrite IH. reflexivity.
  - destruct (split_cons_other c S sep Hne) as (piece & pieces & E1 & E2).
    rewrite E2. rewrite E1 in IH. exact IH.
Qed.

(** A piece followed by the separator is split off whole. *)
Lemma split_app_sep (piece rest : JSString) (sep : code_unit) :
  ~ In sep piece -> split (piece ++ sep :: rest) sep = piece :: split rest sep.
Proof.
  induction piece as [| c piece IH]; intro H.
  - cbn [app split]. rewrite N.eqb_refl. reflexivity.
  - cbn [app]. assert (Hc : c <> sep) by (intro E; apply H; left; assumption).
    destruct (split_cons_other c (piece ++ sep :: rest) sep Hc) as (q & qs & E1 & E2).
    rewrite E2. rewrite IH in E1 by (intro Hin; apply H; right; assumption).
    injection E1 as <- <-. reflexivity.
Qed.

Lemma split_no_sep (piece : JSString) (sep : code_unit) :
  ~ In sep piece -> split piece sep = [piece].
Proof.
  induction piece as [| c piece IH]; intro H; [reflexivity|].
  assert (Hc : c <> sep) by (intro E; apply H; left; assumption).
  destruct (split_cons_other c piece sep Hc) as (q & qs & E1 & E2).
  rewrite E2. rewrite IH in E1 by (intro Hin; apply H; right; assumption).
  injection E1 as <- <-. reflexivity.
Qed.

(** [split] takes apart what [join] puts together. *)
Lemma split_join (pieces : list JSString) (sep : code_unit) :
  pieces <> [] -> Forall (fun piece => ~ In sep piece) pieces ->
  split (join pieces sep) sep = pieces.
Proof.
  induction pieces as [| piece pieces IH]; intros Hne Hall; [congruence|].
  inversion Hall as [| ? ? Hp Hps]; subst.
  destruct pieces as [| piece' pieces].
  - cbn [join]. apply split_no_sep. assumption.
  - change (join (piece :: piece' :: pieces) sep)
      with (piece ++ sep :: join (piece' :: pieces) sep).
    rewrite split_app_sep by assumption. rewrite IH; [reflexivity | discriminate | assumption].
Qed.

Lemma split_pieces_no_sep (S : JSString) (sep : code_unit) :
  Forall (fun piece => ~ In sep piece) (split S sep).
Proof.
  induction S as [| c S IH].
  - cbn [split]. constructor; [intros [] | constructor].
  - cbn [split]. destruct (N.eqb_spec c sep) as [-> | Hne].
    + constructor; [intros [] | assumption].
    + destruct (split S sep) as [| piece pieces]; [repeat constructor; intros [E | []]; congruence|].
      inversion IH as [| ? ? Hp Hps]; subst. constructor; [|assumption].
      intros [E | Hin]; [congruence | exact (Hp Hin)].
Qed.

Lemma join_split (S : JSString) (sep : code_unit) : join (split S sep) sep = S.
Proof.
  induction S as [| c S IH]; [reflexivity|].
  cbn [split]. destruct (N.eqb_spec c sep) as [-> | Hne].
  - destruct (split S sep) as [| piece pieces] eqn:E; [exfalso; exact (split_nonempty _ _ E)|].
    change (join ([] :: piece :: pieces) sep) with ([] ++ sep :: join (piece :: pieces) sep).
    rewrite IH. reflexivity.
  - destruct (split S sep) as [| piece pieces] eqn:E; [exfalso; exact (split_nonempty _ _ E)|].
    destruct pieces as [| piece' pieces].
    + cbn [join] in *. rewrite IH. reflexivity.
    + change (join ((c :: piece) :: piece' :: pieces) sep)
        with (c :: (piece ++ sep :: join (piece' :: pieces) sep)).
      change (join (piece :: piece' :: pieces) sep)
        with (piece ++ sep :: join (piece' :: pieces) sep) in IH.
      rewrite IH. reflexivity.
Qed.

Lemma trim_start_app (a b : JSString) :
  trim_start (a ++ b)
  = if forallb is_white_space a then trim_start b else trim_start a ++ b.
Proof.
  induction a as [| c a IH]; [reflexivity|].
  cbn [app trim_start forallb]. destruct (is_white_space c); [exact IH | reflexivity].
Qed.

Lemma trim_start_all (a : JSString) :
  forallb is_white_space a = true -> trim_start a = [].
Proof.
  intro H. rewrite <- (app_nil_r a), trim_start_app, H. reflexivity.
Qed.

Lemma trim_start_not_all (a : JSString) :
  forallb is_white_space a = false -> trim_start a <> [].
Proof.
  induction a as [| c a IH]; [discriminate|]. cbn [forallb trim_start].
  destruct (is_white_space c); [exact IH | discriminate].
Qed.

Lemma forallb_rev {A : Type} (f : A -> bool) (l : list A) :
  forallb f (rev l) = forallb f l.
Proof.
  induction l as [| x l IH]; [reflexivity|].
  cbn [rev forallb]. rewrite forallb_app, IH. cbn [forallb].
  rewrite andb_true_r. apply andb_comm.
Qed.

Lemma trim_end_app (a b : JSString) :
  trim_end (a ++ b)
  = if forallb is_white_space b then trim_end a else a ++ trim_end b.
Proof.
  unfold trim_end. rewrite rev_app_distr, trim_start_app, forallb_rev.
  destruct (forallb is_white_space b); [reflexivity|].
  rewrite rev_app_distr, rev_involutive. reflexivity.
Qed.

Lemma trim_start_suffix (s : JSString) :
  exists ws, s = ws ++ trim_start s /\ forallb is_white_space ws = true.
Proof.
  induction s as [| c s (ws & E & H)]; [exists []; split; reflexivity|].
  cbn [trim_start]. destruct (is_white_space c) eqn:W.
  - exists (c :: ws). cbn [app forallb]. rewrite W, H, <- E. split; reflexivity.
  - exists []. split; reflexivity.
Qed.

Lemma forallb_trim_start (s : JSString) :
  forallb is_white_space (trim_start s) = forallb is_white_space s.
Proof.
  induction s as [| c s IH]; [reflexivity|]. cbn [trim_start forallb].
  destruct (is_white_space c) eqn:W; [exact IH|]. cbn [forallb]. rewrite W. reflexivity.
Qed.

(** White space around a text does not change what [trim] leaves of it. *)
Lemma trim_surrounded (before text after : JSString) :
  forallb is_white_space before = true -> forallb is_white_space after = true ->
  trim (before ++ text ++ after) = trim text.
Proof.
  intros Hb Ha. unfold trim. rewrite trim_start_app, Hb, trim_start_app.
  destruct (forallb is_white_space text) eqn:Ht.
  - rewrite (trim_start_all text Ht), (trim_start_all after Ha). reflexivity.
  - rewrite trim_end_app, Ha. reflexivity.
Qed.

(** ** The loader *)

Lemma loadData_rows (st : HomeState) (text : JSString) :
  loadData_try st (inr text)
  = inr (setDataRows st (List.map row_of_line (slice (split (trim text) 10%N) 1 11))).
Proof.
  unfold loadData_try. cbn [bind].
  destruct (split (trim text) 10%N) as [| line lines] eqn:E.
  - exfalso. exact (split_nonempty _ _ E).
  - reflexivity.
Qed.

Lemma loadData_dataRows (st : HomeState) (text : JSString) :
  dataRows (loadData st (inr text))
  = List.map row_of_line (slice (split (trim text) 10%N) 1 11).
Proof. unfold loadData. rewrite loadData_rows. reflexivity. Qed.

Lemma In_join (pieces : list JSString) (sep c : code_unit) :
  c <> sep -> Forall (fun piece => ~ In c piece) pieces -> ~ In c (join pieces sep).
Proof.
  intros Hc. induction pieces as [| piece pieces IH]; intro H; [intros []|].
  inversion H as [| ? ? Hp Hps]; subst. destruct pieces as [| piece' pieces].
  - exact Hp.
  - change (join (piece :: piece' :: pieces) sep)
      with (piece ++ sep :: join (piece' :: pieces) sep).
    rewrite in_app_iff. intros [Hin | [E | Hin]].
    + exact (Hp Hin).
    + congruence.
    + exact (IH Hps Hin).
Qed.

Lemma parseFloat_undefined : parseFloat_string (str "undefined") = nan.
Proof. vm_compute. reflexivity. Qed.

Lemma parseFloat_element_missing (values : list JSString) (i : nat) :
  (List.length values <= i)%nat -> parseFloat_element values i = nan.
Proof.
  intro H. unfold parseFloat_element.
  apply nth_error_None in H. rewrite H. exact parseFloat_undefined.
Qed.

Lemma toFixed_nan (f : Z) :
  0 <= f <= 100 -> Number_toFixed nan f = inr (str "NaN").
Proof.
  intro H. unfold Number_toFixed.
  destruct (Z.ltb_spec f 0); [lia|]. destruct (Z.ltb_spec 100 f); [lia|].
  reflexivity.
Qed.

(** X1: whatever text the request returns, the loader does not fail, and it
    stores as many rows as the trimmed text has line feeds, but at most ten:
    the first line is never a row, and a text of one line (an empty one, or a
    header alone) gives no rows. *)
Theorem X1_loadData_row_count (st : HomeState) (text : JSString) :
  loadData_try st (inr text) = inr (loadData st (inr text))
  /\ List.length (dataRows (loadData st (inr text)))
     = Nat.min 10 (count_occ N.eq_dec (trim text) 10%N).
Proof.
  split.
  - unfold loadData. rewrite loadData_rows. reflexivity.
  - rewrite loadData_dataRows, length_map. unfold slice.
    rewrite length_firstn, length_skipn, split_length. lia.
Qed.

Lemma free_of_spec (c : code_unit) (s : JSString) :
  free_of c s = true <-> ~ In c s.
Proof.
  unfold free_of. rewrite negb_true_iff, <- not_true_iff_false, existsb_exists.
  split.
  - intros H Hin. apply H. exists c. split; [assumption | apply N.eqb_refl].
  - intros H (y & Hin & Hy). apply N.eqb_eq in Hy. subst y. exact (H Hin).
Qed.

Lemma well_formed_fields_spec (fields : list JSString) :
  well_formed_fields fields = true ->
  fields <> []
  /\ Forall (fun field => ~ In 44%N field) fields
  /\ Forall (fun field => ~ In 10%N field) fields.
Proof.
  intro H. destruct fields as [| field fields]; [discriminate|].
  unfold well_formed_fields in H. rewrite forallb_forall in H.
  split; [discriminate|].
  split; apply Forall_forall; intros f Hf; specialize (H f Hf);
    apply andb_true_iff in H; destruct H as [H44 H10]; apply free_of_spec; assumption.
Qed.

(** X2: the loader reads a CSV text back field by field.  When the text,
    once the white space at its two ends is removed ([text.trim()]), is a
    header line and data lines joined by line feeds, each data line made of
    one or more fields joined by commas (no field holding a comma or a line
    feed), the rows stored are those of the first ten data lines, in order:
    the timestamp is the first field as it is, and the nine numbers are
    [parseFloat] of the fields 1 to 9 (of [undefined] where the line has
    fewer fields). *)
Theorem X2_loadData_reads_fields (st : HomeState) (header : JSString)
  (lines : list (list JSString)) (text : JSString) :
  trim text = join (header :: List.map (fun fields => join fields 44%N) lines) 10%N ->
  free_of 10%N header = true ->
  forallb well_formed_fields lines = true ->
  let loaded := dataRows (loadData st (inr text)) in
  List.length loaded = Nat.min 10 (List.length lines)
  /\ forall (i : nat) (fields : list JSString),
      (i < 10)%nat -> nth_error lines i = Some fields ->
      exists row,
        nth_error loaded i = Some row
        /\ Some (timestamp row) = nth_error fields 0
        /\ salinity_mol_L row = parseFloat_element fields 1
        /\ temperature_C row = parseFloat_element fields 2
        /\ pH_row row = parseFloat_element fields 3
        /\ turbidity_NTU row = parseFloat_element fields 4
        /\ pump_pressure_bar row = parseFloat_element fields 5
        /\ permeate_flow_Lh row = parseFloat_element fields 6
        /\ permeate_conductivity_uScm row = parseFloat_element fields 7
        /\ membrane_area_m2 row = parseFloat_element fields 8
        /\ fouling_factor row = parseFloat_element fields 9.
Proof.
  intros Htrim Hh Hlines loaded. subst loaded.
  rewrite forallb_forall in Hlines.
  rewrite loadData_dataRows, Htrim.
  rewrite split_join.
  2: discriminate.
  2: { constructor; [apply free_of_spec; assumption|]. apply Forall_map.
       apply Forall_forall. intros fields Hin.
       destruct (well_formed_fields_spec fields (Hlines fields Hin)) as (_ & _ & H10).
       apply In_join; [discriminate | assumption]. }
  unfold slice. cbn [skipn]. change (11 - 1)%nat with 10%nat. split.
  - rewrite length_map, length_firstn, length_map. reflexivity.
  - intros i fields Hi Hnth.
    destruct (well_formed_fields_spec fields (Hlines fields (nth_error_In _ _ Hnth)))
      as (Hne & H44 & _).
    assert (Hsplit : split (join fields 44%N) 44%N = fields)
      by (apply split_join; assumption).
    exists (row_of_line (join fields 44%N)). split.
    + rewrite nth_error_map, nth_error_firstn.
      destruct (Nat.ltb_spec i 10); [|lia].
      rewrite nth_error_map, Hnth. reflexivity.
    + unfold row_of_line. rewrite Hsplit.
      cbn [timestamp salinity_mol_L temperature_C pH_row turbidity_NTU pump_pressure_bar
           permeate_flow_Lh permeate_conductivity_uScm membrane_area_m2 fouling_factor].
      repeat split. destruct fields; [congruence | reflexivity].
Qed.

Lemma X2_loadData_reads_fields_witness :
  exists row,
    nth_error
      (dataRows (loadData initial_state
         (inr (str "t,s,T,pH,tu,p,f,c,a,ff" ++ 10%N
                 :: str "2025-01-01,0.68,22,7.7,5.2,60.5,1200,350,50,0.1" ++ [10%N])))) 0
    = Some row
    /\ timestamp row = str "2025-01-01"
    /\ salinity_mol_L row = 0.68%float
    /\ fouling_factor row = 0.1%float.
Proof.
  destruct (X2_loadData_reads_fields initial_state (str "t,s,T,pH,tu,p,f,c,a,ff")
     [[str "2025-01-01"; str "0.68"; str "22"; str "7.7"; str "5.2"; str "60.5";
       str "1200"; str "350"; str "50"; str "0.1"]]
     (str "t,s,T,pH,tu,p,f,c,a,ff" ++ 10%N
        :: str "2025-01-01,0.68,22,7.7,5.2,60.5,1200,350,50,0.1" ++ [10%N])
     eq_refl eq_refl eq_refl) as [_ H].
  destruct (H 0%nat _ ltac:(lia) eq_refl)
    as (row & Hrow & Ht & Hs & _ & _ & _ & _ & _ & _ & _ & Hf).
  exists row. split; [exact Hrow|].
  split; [injection Ht; trivial|]. split; [rewrite Hs | rewrite Hf]; vm_compute; reflexivity.
Defined.

Lemma loadData_trim (st : HomeState) (text text' : JSString) :
  trim text = trim text' -> loadData st (inr text) = loadData st (inr text').
Proof. intro H. unfold loadData. rewrite !loadData_rows, H. reflexivity. Qed.

(** X3: white space and line breaks before and after the text of the
    response change nothing: in particular a line feed at the end of the
    file does not add a row. *)
Theorem X3_loadData_ignores_surrounding_space (st : HomeState)
  (before text after : JSString) :
  forallb is_white_space before = true ->
  forallb is_white_space after = true ->
  loadData st (inr (before ++ text ++ after)) = loadData st (inr text).
Proof.
  intros Hb Ha. apply loadData_trim. apply trim_surrounded; assumption.
Qed.

Lemma X3_loadData_ignores_surrounding_space_witness :
  loadData initial_state (inr (str "h" ++ 10%N :: str "a,1" ++ [13%N; 10%N]))
  = loadData initial_state (inr (str "h" ++ 10%N :: str "a,1")).
Proof.
  apply (X3_loadData_ignores_surrounding_space initial_state []
           (str "h" ++ 10%N :: str "a,1") [13%N; 10%N]); reflexivity.
Defined.

Lemma split_header (header body : JSString) :
  free_of 10%N header = true ->
  split (header ++ 10%N :: body) 10%N = header :: split body 10%N.
Proof. intro H. apply split_app_sep. apply free_of_spec. assumption. Qed.

Lemma free_of_app (c : code_unit) (a b : JSString) :
  free_of c (a ++ b) = free_of c a && free_of c b.
Proof. unfold free_of. rewrite existsb_app, negb_orb. reflexivity. Qed.

Lemma free_of_trim_start (c : code_unit) (s : JSString) :
  free_of c s = true -> free_of c (trim_start s) = true.
Proof.
  destruct (trim_start_suffix s) as (ws & E & _). intro H.
  rewrite E, free_of_app in H. apply andb_true_iff in H. apply H.
Qed.

Lemma free_of_rev (c : N) (s : list N) : free_of c (rev s) = free_of c s.
Proof.
  unfold free_of. apply (f_equal negb). induction s as [| x s IH]; [reflexivity|].
  cbn [rev existsb]. rewrite existsb_app, IH. cbn [existsb].
  rewrite orb_false_r. apply orb_comm.
Qed.

Lemma free_of_trim (c : code_unit) (s : JSString) :
  free_of c s = true -> free_of c (trim s) = true.
Proof.
  intro H. unfold trim, trim_end.
  rewrite free_of_rev. apply free_of_trim_start. rewrite free_of_rev.
  apply free_of_trim_start. assumption.
Qed.

(** The lines of a text whose first line is not blank: the first line with
    its leading white space removed, and the lines of the rest. *)
Lemma lines_of_text (header body : JSString) :
  free_of 10%N header = true ->
  forallb is_white_space header = false ->
  slice (split (trim (header ++ 10%N :: body)) 10%N) 1 11
  = if forallb is_white_space body then []
    else firstn 10 (split (trim_end body) 10%N).
Proof.
  intros Hfree Hws. unfold trim at 1.
  rewrite trim_start_app, Hws.
  change (trim_start header ++ 10%N :: body)
    with (trim_start header ++ [10%N] ++ body).
  rewrite app_assoc, trim_end_app.
  destruct (forallb is_white_space body) eqn:Hb.
  - rewrite trim_end_app. cbn [forallb]. change (is_white_space 10%N) with true.
    cbn [andb]. fold (trim header).
    rewrite split_no_sep by (apply free_of_spec, free_of_trim; assumption).
    reflexivity.
  - rewrite <- app_assoc. cbn [app].
    rewrite split_header by (apply free_of_trim_start; assumption).
    reflexivity.
Qed.

(** X4: the header line is never read: the columns are taken by position.
    Two texts that differ only in their first line (neither first line blank)
    give the same rows. *)
Theorem X4_loadData_ignores_header (st : HomeState) (header header' body : JSString) :
  free_of 10%N header = true -> forallb is_white_space header = false ->
  free_of 10%N header' = true -> forallb is_white_space header' = false ->
  loadData st (inr (header ++ 10%N :: body))
  = loadData st (inr (header' ++ 10%N :: body)).
Proof.
  intros H1 H2 H1' H2'. unfold loadData. rewrite !loadData_rows.
  rewrite !lines_of_text by assumption. reflexivity.
Qed.

Lemma X4_loadData_ignores_header_witness :
  loadData initial_state (inr (str "timestamp,salinity" ++ 10%N :: str "a,1"))
  = loadData initial_state (inr (str "salinity,timestamp" ++ 10%N :: str "a,1")).
Proof.
  apply (X4_loadData_ignores_header initial_state (str "timestamp,salinity")
           (str "salinity,timestamp") (str "a,1")); reflexivity.
Defined.

(** X5: a data line with too few values still gives a row, with NaN for
    each number that is missing; a line without a comma (a blank line, for
    one) gives the line as the timestamp and nine NaN, and the table shows
    its seven numbers as the text NaN. *)
Theorem X5_short_line (line : JSString) :
  (forall i : nat, (List.length (split line 44%N) <= i)%nat ->
                   parseFloat_element (split line 44%N) i = nan)
  /\ (free_of 44%N line = true ->
      row_of_line line
      = {| timestamp := line; salinity_mol_L := nan; temperature_C := nan;
           pH_row := nan; turbidity_NTU := nan; pump_pressure_bar := nan;
           permeate_flow_Lh := nan; permeate_conductivity_uScm := nan;
           membrane_area_m2 := nan; fouling_factor := nan |}
      /\ render_row (row_of_line line)
         = inr [line; str "NaN"; str "NaN"; str "NaN"; str "NaN"; str "NaN";
                str "NaN"; str "NaN"]).
Proof.
  split.
  - intros i H. apply parseFloat_element_missing. assumption.
  - intro H. apply free_of_spec in H.
    assert (E : row_of_line line
                = {| timestamp := line; salinity_mol_L := nan; temperature_C := nan;
                     pH_row := nan; turbidity_NTU := nan; pump_pressure_bar := nan;
                     permeate_flow_Lh := nan; permeate_conductivity_uScm := nan;
                     membrane_area_m2 := nan; fouling_factor := nan |}).
    { unfold row_of_line. rewrite (split_no_sep line 44%N H).
      rewrite !parseFloat_element_missing by (cbn [List.length]; lia). reflexivity. }
    split; [exact E|]. rewrite E. reflexivity.
Qed.

(** ** Sessions *)

Lemma ensureNumber_not_nan (value : JSValue) (d : float) :
  is_nan d = false -> is_nan (ensureNumber value d) = false.
Proof.
  intro H. unfold ensureNumber, isNaN.
  destruct (is_nan (parseFloat value)) eqn:E; assumption.
Qed.

Lemma toFixed_returns (x : float) (f : Z) :
  0 <= f <= 100 -> exists text, Number_toFixed x f = inr text.
Proof.
  intro H. unfold Number_toFixed.
  destruct (Z.ltb_spec f 0); [lia|]. destruct (Z.ltb_spec 100 f); [lia|].
  cbn [orb]. destruct (Prim2SF x) as [s | s | | s m e]; try (eexists; reflexivity).
  destruct (exact_fraction m e) as [num den].
  destruct (10 ^ 21 * den <=? num); eexists; reflexivity.
Qed.

Lemma render_row_returns (row : DataRow) :
  exists cells, render_row row = inr cells /\ List.length cells = 8%nat.
Proof.
  unfold render_row.
  destruct (toFixed_returns row.(salinity_mol_L) 3 ltac:(lia)) as [c1 ->].
  destruct (toFixed_returns row.(temperature_C) 1 ltac:(lia)) as [c2 ->].
  destruct (toFixed_returns row.(pH_row) 2 ltac:(lia)) as [c3 ->].
  destruct (toFixed_returns row.(turbidity_NTU) 1 ltac:(lia)) as [c4 ->].
  destruct (toFixed_returns row.(pump_pressure_bar) 1 ltac:(lia)) as [c5 ->].
  destruct (toFixed_returns row.(permeate_flow_Lh) 0 ltac:(lia)) as [c6 ->].
  destruct (toFixed_returns row.(fouling_factor) 2 ltac:(lia)) as [c7 ->].
  eexists. split; reflexivity.
Qed.

Lemma render_rows_returns (rows : list DataRow) :
  exists table,
    render_rows rows = inr table
    /\ List.length table = List.length rows
    /\ Forall (fun cells => List.length cells = 8%nat) table.
Proof.
  induction rows as [| row rows (table & E & Hl & Hc)].
  - exists []. repeat split. constructor.
  - destruct (render_row_returns row) as (cells & Er & Hr).
    exists (cells :: table). cbn [render_rows]. rewrite Er, E. cbn [bind].
    repeat split; [cbn [List.length]; congruence | constructor; assumption].
Qed.

Lemma render_result_returns (st : HomeState) :
  exists panel,
    render_result st = inr panel
    /\ (panel = None <-> st.(predictedPressure) = None).
Proof.
  unfold render_result. destruct st.(predictedPressure) as [p |].
  - destruct (toFixed_returns p 2 ltac:(lia)) as [c1 ->].
    destruct (toFixed_returns st.(formData).(salinity) 3 ltac:(lia)) as [c2 ->].
    destruct (toFixed_returns st.(formData).(temperature) 1 ltac:(lia)) as [c3 ->].
    destruct (toFixed_returns st.(formData).(foulingFactor) 2 ltac:(lia)) as [c4 ->].
    destruct (toFixed_returns st.(formData).(turbidity) 1 ltac:(lia)) as [c5 ->].
    eexists. split; [reflexivity|]. split; discriminate.
  - exists None. split; [reflexivity|]. split; reflexivity.
Qed.

Lemma loadData_cases (st : HomeState) (response_text : Completion JSString) :
  loadData st response_text = st
  \/ exists text, response_text = inr text
                  /\ loadData st response_text
                     = setDataRows st (List.map row_of_line
                                         (slice (split (trim text) 10%N) 1 11)).
Proof.
  destruct response_text as [e | text].
  - left. reflexivity.
  - right. exists text. split; [reflexivity|].
    unfold loadData. rewrite loadData_rows. reflexivity.
Qed.

(** [no_NaN] of form data whose fields are old fields, known not to be NaN,
    or come from [ensureNumber] with a default that is a number. *)
Ltac solve_no_NaN :=
  unfold no_NaN;
  cbn [setFormData setDataRows setPredictedPressure formData
       salinity temperature pH turbidity membraneArea foulingFactor];
  repeat (apply andb_true_iff; split); apply negb_true_iff;
  first [assumption | apply ensureNumber_not_nan; reflexivity].

Lemma handle_ok (st : HomeState) (ev : Event) :
  state_ok st -> exists st', handle st ev = inr st' /\ state_ok st'.
Proof.
  intros [Hn Hr]. unfold no_NaN in Hn.
  repeat (apply andb_true_iff in Hn; destruct Hn as [Hn ?]).
  rewrite negb_true_iff in *.
  destruct ev as [response | v | v | v | v | v | v |]; cbn [handle].
  - eexists. split; [reflexivity|].
    destruct (loadData_cases st response) as [-> | (text & _ & ->)].
    + split; [solve_no_NaN | assumption].
    + split; [solve_no_NaN|].
      cbn [setDataRows dataRows]. unfold slice.
      rewrite length_map, length_firstn. lia.
  - eexists. split; [reflexivity|]. split; [|assumption].
    unfold onChange_salinity. solve_no_NaN.
  - eexists. split; [reflexivity|]. split; [|assumption].
    unfold onChange_temperature. solve_no_NaN.
  - eexists. split; [reflexivity|]. split; [|assumption].
    unfold onChange_pH. solve_no_NaN.
  - eexists. split; [reflexivity|]. split; [|assumption].
    unfold onChange_turbidity. solve_no_NaN.
  - eexists. split; [reflexivity|]. split; [|assumption].
    unfold onChange_membraneArea. solve_no_NaN.
  - eexists. split; [reflexivity|]. split; [|assumption].
    unfold onChange_foulingFactor. solve_no_NaN.
  - rewrite calculateMinimumPressure_eq. eexists. split; [reflexivity|].
    split; [solve_no_NaN | assumption].
Qed.

Lemma run_ok (evs : list Event) (st : HomeState) :
  state_ok st -> exists st', run st evs = inr st' /\ state_ok st'.
Proof.
  revert st. induction evs as [| ev evs IH]; intros st H.
  - exists st. split; [reflexivity | assumption].
  - destruct (handle_ok st ev H) as (st1 & E1 & H1).
    destruct (IH st1 H1) as (st' & E' & H').
    exists st'. cbn [run]. rewrite E1. cbn [bind]. split; assumption.
Qed.

(** X6: no session ends in an uncaught exception, and in every state a
    session reaches from the initial one, no field of the form data is NaN
    (whatever was typed into the inputs), the table holds at most ten rows,
    and both the table and the result panel render without an exception; the
    panel is absent exactly while no pressure has been computed. *)
Theorem X6_sessions_are_safe (evs : list Event) :
  exists st,
    run initial_state evs = inr st
    /\ no_NaN st.(formData) = true
    /\ (List.length st.(dataRows) <= 10)%nat
    /\ (exists table,
          render_rows st.(dataRows) = inr table
          /\ List.length table = List.length st.(dataRows)
          /\ Forall (fun cells => List.length cells = 8%nat) table)
    /\ (exists panel,
          render_result st = inr panel
          /\ (panel = None <-> st.(predictedPressure) = None)).
Proof.
  destruct (run_ok evs initial_state) as (st & E & Hn & Hr).
  { split; [reflexivity | cbn; lia]. }
  exists st. split; [exact E|]. split; [exact Hn|]. split; [exact Hr|].
  split; [apply render_rows_returns | apply render_result_returns].
Qed.

Lemma run_app (st : HomeState) (evs1 evs2 : list Event) :
  run st (evs1 ++ evs2) = (st' <- run st evs1 ;; run st' evs2).
Proof.
  revert st. induction evs1 as [| ev evs1 IH]; intro st; [reflexivity|].
  cbn [app run]. destruct (handle st ev) as [e | st1]; [reflexivity|].
  cbn [bind]. apply IH.
Qed.

Lemma handle_returns (st : HomeState) (ev : Event) :
  exists st', handle st ev = inr st'
              /\ (is_click ev = false -> predictedPressure st' = predictedPressure st)
              /\ (is_click ev = true ->
                  predictedPressure st'
                  = Some (round_to_2_decimals (predicted_pressure st.(formData)))).
Proof.
  destruct ev as [response | v | v | v | v | v | v |]; cbn [handle is_click];
    try (eexists; split; [reflexivity|]; split; [reflexivity | discriminate]).
  - eexists. split; [reflexivity|]. split; [|discriminate]. intros _.
    destruct (loadData_cases st response) as [-> | (text & _ & ->)]; reflexivity.
  - rewrite calculateMinimumPressure_eq. eexists. split; [reflexivity|].
    split; [discriminate | reflexivity].
Qed.

Lemma run_without_click (evs : list Event) (st : HomeState) :
  existsb is_click evs = false ->
  exists st', run st evs = inr st' /\ predictedPressure st' = predictedPressure st.
Proof.
  revert st. induction evs as [| ev evs IH]; intros st H.
  - exists st. split; reflexivity.
  - cbn [existsb] in H. apply orb_false_iff in H. destruct H as [Hev Hevs].
    destruct (handle_returns st ev) as (st1 & E1 & Hkeep & _).
    destruct (IH st1 Hevs) as (st' & E' & H').
    exists st'. cbn [run]. rewrite E1. cbn [bind]. split; [exact E'|].
    rewrite H'. apply Hkeep. exact Hev.
Qed.

Lemma run_returns (evs : list Event) (st : HomeState) :
  exists st', run st evs = inr st'.
Proof.
  revert st. induction evs as [| ev evs IH]; intro st.
  - exists st. reflexivity.
  - destruct (handle_returns st ev) as (st1 & E1 & _).
    destruct (IH st1) as (st' & E'). exists st'. cbn [run]. rewrite E1. exact E'.
Qed.

(** X7: the pressure on display is the one of the last click: it is the
    rounded formula on the form data as they were when the button was last
    clicked, whatever was edited or loaded since; and before the first click
    there is none.  Editing an input does not recompute it. *)
Theorem X7_pressure_of_last_click (st : HomeState) (before after : list Event) :
  existsb is_click after = false ->
  exists clicked final,
    run st before = inr clicked
    /\ run st (before ++ Click_calculate :: after) = inr final
    /\ predictedPressure final
       = Some (round_to_2_decimals (predicted_pressure clicked.(formData)))
    /\ (exists idle, run st after = inr idle
                     /\ predictedPressure idle = predictedPressure st).
Proof.
  intro H. destruct (run_returns before st) as (clicked & Ec).
  destruct (handle_returns clicked Click_calculate) as (st1 & E1 & _ & Hclick).
  destruct (run_without_click after st1 H) as (final & Ef & Hf).
  exists clicked, final. split; [exact Ec|]. split.
  - rewrite run_app, Ec. cbn [bind run]. rewrite E1. exact Ef.
  - split; [rewrite Hf; apply Hclick; reflexivity|].
    apply run_without_click. exact H.
Qed.

Lemma X7_pressure_of_last_click_witness :
  exists final,
    run initial_state [Click_calculate; Change_salinity (str "2")] = inr final
    /\ predictedPressure final = Some 69.86%float
    /\ salinity final.(formData) = 2%float.
Proof.
  destruct (X7_pressure_of_last_click initial_state [] [Change_salinity (str "2")] eq_refl)
    as (clicked & final & Ec & Ef & Hp & _).
  exists final. split; [exact Ef|]. split.
  - rewrite Hp. injection Ec as <-. vm_compute. reflexivity.
  - vm_compute in Ef. injection Ef as <-. reflexivity.
Defined.

(** ** Rounding a fraction to the nearest integer *)

Lemma rne_div_scale (c A B : Z) :
  0 < c -> 0 < B -> rne_div (c * A) (c * B) = rne_div A B.
Proof.
  intros Hc HB. unfold rne_div.
  rewrite Z.div_mul_cancel_l by lia.
  rewrite Z.mul_mod_distr_l by lia.
  replace (2 * (c * (A mod B))) with (c * (2 * (A mod B))) by ring.
  rewrite <- Zmult_compare_compat_l by lia. reflexivity.
Qed.

Lemma rne_div_eq (A B A' B' : Z) :
  0 < B -> 0 < B' -> A * B' = A' * B -> rne_div A B = rne_div A' B'.
Proof.
  intros HB HB' H.
  rewrite <- (rne_div_scale B' A B), <- (rne_div_scale B A' B') by assumption.
  f_equal; lia.
Qed.

Lemma rne_div_shift (n k : Z) : rne_div n (2 ^ k) = rne_shift n k.
Proof. reflexivity. Qed.

Lemma rne_div_exact (n B : Z) : 0 < B -> rne_div (n * B) B = n.
Proof.
  intro HB. unfold rne_div. rewrite Z.div_mul, Z.mod_mul by lia.
  change (2 * 0) with 0. destruct (Z.compare_spec 0 B); lia.
Qed.

Lemma rne_div_pow2 (m a b : Z) :
  0 <= a -> 0 <= b ->
  rne_div (m * 2 ^ a) (2 ^ b)
  = if b <=? a then m * 2 ^ (a - b) else rne_shift m (b - a).
Proof.
  intros Ha Hb. destruct (Z.leb_spec b a) as [H | H].
  - replace (m * 2 ^ a) with (m * 2 ^ (a - b) * 2 ^ b).
    + apply rne_div_exact. apply Z.pow_pos_nonneg; lia.
    + rewrite <- Z.mul_assoc, <- Z.pow_add_r by lia. do 2 f_equal. lia.
  - rewrite <- rne_div_shift.
    replace (2 ^ b) with (2 ^ a * 2 ^ (b - a))
      by (rewrite <- Z.pow_add_r by lia; f_equal; lia).
    rewrite (Z.mul_comm m). apply rne_div_scale; apply Z.pow_pos_nonneg; lia.
Qed.

(** Rounding a truncated quotient that carries a sticky bit is rounding the
    quotient itself, as soon as two bits or more are rounded off. *)
Lemma rne_div_sticky (A B j : Z) :
  0 <= A -> 0 < B -> 2 <= j ->
  rne_div (2 * (A / B) + (if A mod B =? 0 then 0 else 1)) (2 ^ j)
  = rne_div A (B * 2 ^ (j - 1)).
Proof.
  intros HA HB Hj.
  replace (2 ^ j) with (2 * (2 * 2 ^ (j - 2)))
    by (rewrite <- !Z.pow_succ_r by lia; f_equal; lia).
  replace (2 ^ (j - 1)) with (2 * 2 ^ (j - 2))
    by (rewrite <- Z.pow_succ_r by lia; f_equal; lia).
  assert (HP : 0 < 2 ^ (j - 2)) by (apply Z.pow_pos_nonneg; lia).
  set (P2 := 2 ^ (j - 2)) in *.
  pose proof (Z.div_mod A B ltac:(lia)) as DA.
  pose proof (Z.mod_pos_bound A B HB) as BA.
  set (t := A / B) in *. set (r := A mod B) in *.
  pose proof (Z.div_mod t (2 * P2) ltac:(lia)) as Dt.
  pose proof (Z.mod_pos_bound t (2 * P2) ltac:(lia)) as Bt.
  set (q := t / (2 * P2)) in *. set (v := t mod (2 * P2)) in *.
  set (sg := if r =? 0 then 0 else 1).
  assert (Hsg : 0 <= sg <= 1 /\ (sg = 0 <-> r = 0)).
  { subst sg. destruct (Z.eqb_spec r 0); lia. }
  assert (Q1 : (2 * t + sg) / (2 * (2 * P2)) = q).
  { symmetry. apply (Z.div_unique _ _ q (2 * v + sg)); lia. }
  assert (R1 : (2 * t + sg) mod (2 * (2 * P2)) = 2 * v + sg).
  { symmetry. apply (Z.mod_unique _ _ q (2 * v + sg)); lia. }
  assert (Q2 : A / (B * (2 * P2)) = q).
  { symmetry. apply (Z.div_unique _ _ q (B * v + r)); nia. }
  assert (R2 : A mod (B * (2 * P2)) = B * v + r).
  { symmetry. apply (Z.mod_unique _ _ q (B * v + r)); nia. }
  unfold rne_div. rewrite Q1, R1, Q2, R2.
  destruct (Z.lt_trichotomy v P2) as [Hv | [Hv | Hv]].
  - assert (C1 : (2 * (2 * v + sg) ?= 2 * (2 * P2)) = Lt) by (apply Z.compare_lt_iff; lia).
    assert (C2 : (2 * (B * v + r) ?= B * (2 * P2)) = Lt) by (apply Z.compare_lt_iff; nia).
    rewrite C1, C2. reflexivity.
  - subst v. rewrite Hv in *.
    destruct (Z.eq_dec r 0) as [Hr | Hr].
    + assert (sg = 0) by (apply Hsg; assumption).
      assert (C1 : (2 * (2 * P2 + sg) ?= 2 * (2 * P2)) = Eq) by (apply Z.compare_eq_iff; lia).
      assert (C2 : (2 * (B * P2 + r) ?= B * (2 * P2)) = Eq) by (apply Z.compare_eq_iff; lia).
      rewrite C1, C2. reflexivity.
    + assert (sg = 1) by (destruct Hsg as [? [? ?]]; lia).
      assert (C1 : (2 * (2 * P2 + sg) ?= 2 * (2 * P2)) = Gt) by (apply Z.compare_gt_iff; lia).
      assert (C2 : (2 * (B * P2 + r) ?= B * (2 * P2)) = Gt) by (apply Z.compare_gt_iff; lia).
      rewrite C1, C2. reflexivity.
  - assert (C1 : (2 * (2 * v + sg) ?= 2 * (2 * P2)) = Gt) by (apply Z.compare_gt_iff; lia).
    assert (C2 : (2 * (B * v + r) ?= B * (2 * P2)) = Gt) by (apply Z.compare_gt_iff; nia).
    rewrite C1, C2. reflexivity.
Qed.

(** ** [round_pos] and [round_decimal] round fractions to nearest *)

Lemma round_frac_scale (s : bool) (c A B : Z) :
  0 < c -> 0 < B -> round_frac s (c * A) (c * B) = round_frac s A B.
Proof.
  intros Hc HB. unfold round_frac.
  rewrite <- !Z.mul_assoc, Z.div_mul_cancel_l by lia.
  rewrite rne_div_scale; [reflexivity | assumption |].
  apply Z.mul_pos_pos; [assumption | apply Z.pow_pos_nonneg; lia].
Qed.

(** Equal fractions round to the same number. *)
Lemma round_frac_eq (s : bool) (A B A' B' : Z) :
  0 < B -> 0 < B' -> A * B' = A' * B -> round_frac s A B = round_frac s A' B'.
Proof.
  intros HB HB' H.
  rewrite <- (round_frac_scale s B' A B), <- (round_frac_scale s B A' B') by assumption.
  f_equal; lia.
Qed.

Lemma round_frac_opp (A B : Z) :
  round_frac true A B = SFopp (round_frac false A B).
Proof.
  unfold round_frac. destruct (_ =? 2 ^ 53).
  - change (2 ^ 52) with 4503599627370496. destruct (_ <=? _); reflexivity.
  - destruct (rne_div _ _); try reflexivity. destruct (_ <=? _); reflexivity.
Qed.

(** The number of units of [2^-1074] in [m * 2^(a-b)], truncated, has
    [log2 m + a - b + 1074] for its logarithm, or is zero. *)
Lemma log2_units (m a b : Z) :
  0 < m -> 0 <= a -> 0 <= b ->
  Z.max (Z.log2 (m * 2 ^ a * 2 ^ 1074 / 2 ^ b) - 52) 0
  = Z.max (Z.log2 m + (a - b) + 1022) 0.
Proof.
  intros Hm Ha Hb.
  destruct (Z_le_gt_dec b (a + 1074)) as [H | H].
  - replace (m * 2 ^ a * 2 ^ 1074) with (m * 2 ^ (a + 1074 - b) * 2 ^ b).
    + rewrite Z.div_mul by (apply Z.pow_nonzero; lia).
      rewrite Z.log2_mul_pow2 by lia. lia.
    + rewrite <- !Z.mul_assoc, <- !Z.pow_add_r by lia. do 2 f_equal. lia.
  - replace (2 ^ b) with (2 ^ (a + 1074) * 2 ^ (b - a - 1074))
      by (rewrite <- Z.pow_add_r by lia; f_equal; lia).
    rewrite <- Z.mul_assoc, <- Z.pow_add_r by lia.
    rewrite (Z.mul_comm m), Z.div_mul_cancel_l
      by (try apply Z.pow_nonzero; lia).
    rewrite <- Z.shiftr_div_pow2, Z.log2_shiftr by lia. lia.
Qed.

Lemma round_pos_frac (s : bool) (m a b : Z) :
  0 < m -> 0 <= a -> 0 <= b ->
  round_pos s m (a - b) = round_frac s (m * 2 ^ a) (2 ^ b).
Proof.
  intros Hm Ha Hb. unfold round_pos, round_frac.
  rewrite log2_units by assumption. rewrite fexp_eq.
  set (sh := Z.max (Z.log2 m + (a - b) + 1022) 0).
  replace (Z.max (Z.log2 m + 1 + (a - b) - 53) (-1074)) with (sh - 1074) by lia.
  assert (Hsh : 0 <= sh) by lia.
  rewrite <- Z.mul_assoc, <- !Z.pow_add_r by lia.
  rewrite rne_div_pow2 by lia.
  destruct (Z.leb_spec (sh - 1074) (a - b)); destruct (Z.leb_spec (b + sh) (a + 1074));
    try lia.
  - replace (a + 1074 - (b + sh)) with (a - b - (sh - 1074)) by lia. reflexivity.
  - replace (b + sh - (a + 1074)) with (sh - 1074 - (a - b)) by lia. reflexivity.
Qed.

(** A binary64 number is the rounding of its own value. *)
Lemma round_frac_exact (s : bool) (m : positive) (e : Z) :
  bounded prec emax m e = true ->
  (let (num, den) := exact_fraction m e in round_frac s num den) = S754_finite s m e.
Proof.
  intro H. rewrite <- (round_pos_bounded s m e H).
  destruct e as [| p | p]; cbn [exact_fraction].
  - symmetry. apply (round_pos_frac s (Zpos m) 0 0); lia.
  - symmetry. apply (round_pos_frac s (Zpos m) (Zpos p) 0); lia.
  - change (Zneg p) with (0 - Zpos p).
    rewrite (round_pos_frac s (Zpos m) 0 (Zpos p)) by lia.
    rewrite Z.pow_0_r, Z.mul_1_r. reflexivity.
Qed.

Lemma log2_div_pow2 (A B c : Z) :
  0 < B -> B <= A -> 0 <= c -> Z.log2 (A * 2 ^ c / B) = Z.log2 (A / B) + c.
Proof.
  intros HB HA Hc.
  assert (Ht : 0 < A / B) by (apply Z.div_str_pos; lia).
  destruct (Z.log2_spec (A / B) Ht) as [Hlo Hhi].
  set (l := Z.log2 (A / B)) in *.
  assert (Hl : 0 <= l) by apply Z.log2_nonneg.
  assert (Pc : 0 < 2 ^ c) by (apply Z.pow_pos_nonneg; lia).
  assert (Pl : 0 < 2 ^ l) by (apply Z.pow_pos_nonneg; lia).
  apply Z.log2_unique; [lia|].
  rewrite Z.pow_add_r by lia. rewrite Z.pow_succ_r by lia. rewrite Z.pow_add_r by lia.
  rewrite Z.pow_succ_r in Hhi by lia.
  pose proof (Z.mul_div_le A B HB) as L1.
  pose proof (Z.mul_succ_div_gt A B HB) as L2.
  assert (H1 : B * 2 ^ l <= A) by nia.
  assert (H2 : A < B * (2 * 2 ^ l)) by nia.
  split.
  - apply Z.div_le_lower_bound; [assumption|].
    replace (B * (2 ^ l * 2 ^ c)) with (B * 2 ^ l * 2 ^ c) by ring.
    apply Z.mul_le_mono_nonneg_r; lia.
  - apply Z.div_lt_upper_bound; [assumption|].
    replace (B * (2 * (2 ^ l * 2 ^ c))) with (B * (2 * 2 ^ l) * 2 ^ c) by ring.
    apply Z.mul_lt_mono_pos_r; lia.
Qed.

Lemma round_Z_signed (g : Z) (neg : bool) (X : Z) :
  0 < X -> round_Z g (cond_Zopp neg X) = round_pos neg X g.
Proof.
  intro H. rewrite round_Z_eq. destruct neg; cbn [cond_Zopp].
  - destruct (Z.eqb_spec (- X) 0); [lia|]. rewrite Z.abs_opp, Z.abs_eq by lia.
    destruct (Z.ltb_spec (- X) 0); [reflexivity | lia].
  - destruct (Z.eqb_spec X 0); [lia|]. rewrite Z.abs_eq by lia.
    destruct (Z.ltb_spec X 0); [lia | reflexivity].
Qed.

Lemma div_eucl_eq (a b : Z) : Z.div_eucl a b = (a / b, a mod b).
Proof. unfold Z.div, Z.modulo. destruct (Z.div_eucl a b). reflexivity. Qed.

(** The truncated quotient [round_decimal] works with has 64 bits or more. *)
Lemma quotient_large (D q : Z) :
  0 < D -> 0 < q -> 2 ^ 63 <= D * 2 ^ (64 + Z.log2 q) / q.
Proof.
  intros HD Hq. destruct (Z.log2_spec q Hq) as [_ Hhi].
  pose proof (Z.log2_nonneg q) as Hl.
  apply Z.div_le_lower_bound; [assumption|].
  rewrite Z.pow_add_r by lia. change (2 ^ 64) with (2 ^ 63 * 2).
  rewrite Z.pow_succ_r in Hhi by lia.
  assert (0 < 2 ^ Z.log2 q) by (apply Z.pow_pos_nonneg; lia).
  change (2 ^ 63) with 9223372036854775808. nia.
Qed.

(** The units of [2^-1074] in [D / q], against the quotient at [k] bits. *)
Lemma log2_units_quotient (D q k : Z) :
  0 < D -> 0 < q -> 0 <= k -> q <= D * 2 ^ k ->
  Z.max (Z.log2 (D * 2 ^ 1074 / q) - 52) 0
  = Z.max (Z.log2 (D * 2 ^ k / q) - k + 1022) 0.
Proof.
  intros HD Hq Hk Hle.
  destruct (Z_le_gt_dec k 1074) as [H | H].
  - replace (D * 2 ^ 1074) with (D * 2 ^ k * 2 ^ (1074 - k)).
    + rewrite (log2_div_pow2 (D * 2 ^ k) q (1074 - k)) by lia. lia.
    + rewrite <- Z.mul_assoc, <- Z.pow_add_r by lia. do 2 f_equal. lia.
  - assert (E : D * 2 ^ k = D * 2 ^ 1074 * 2 ^ (k - 1074)).
    { rewrite <- Z.mul_assoc, <- Z.pow_add_r by lia. do 2 f_equal. lia. }
    assert (Pc : 0 < 2 ^ (k - 1074)) by (apply Z.pow_pos_nonneg; lia).
    destruct (Z_le_gt_dec q (D * 2 ^ 1074)) as [H1 | H1].
    + rewrite E, (log2_div_pow2 (D * 2 ^ 1074) q (k - 1074)) by lia. lia.
    + rewrite (Z.div_small (D * 2 ^ 1074) q).
      2: { split; [|lia]. apply Z.mul_nonneg_nonneg; [lia|]. apply Z.pow_nonneg. lia. }
      change (Z.log2 0) with 0.
      assert (Ht : D * 2 ^ k / q < 2 ^ (k - 1074)).
      { apply Z.div_lt_upper_bound; [assumption|]. rewrite E.
        apply Z.mul_lt_mono_pos_r; lia. }
      assert (Hpos : 0 < D * 2 ^ k / q) by (apply Z.div_str_pos; lia).
      assert (Z.log2 (D * 2 ^ k / q) < k - 1074) by (apply Z.log2_lt_pow2; lia).
      lia.
Qed.

Lemma round_pos_int (s : bool) (X : Z) :
  0 < X -> round_pos s X 0 = round_frac s X 1.
Proof.
  intro H. pose proof (round_pos_frac s X 0 0 H ltac:(lia) ltac:(lia)) as E.
  rewrite Z.pow_0_r, Z.mul_1_r in E. exact E.
Qed.

(** [round_decimal] rounds [D * 10^e10] to the nearest binary64 number: the
    truncation with a sticky bit loses nothing. *)
Lemma round_decimal_frac (neg : bool) (D : positive) (e10 : Z) :
  round_decimal neg D e10
  = round_frac neg (Zpos D * 10 ^ Z.max e10 0) (10 ^ Z.max (- e10) 0).
Proof.
  destruct e10 as [| p | p].
  - cbn [round_decimal Z.max Z.opp Z.compare]. fold (round_Z 0 (cond_Zopp neg (Zpos D * 10 ^ 0))).
    rewrite round_Z_signed by lia.
    apply (round_pos_int neg (Zpos D * 10 ^ 0)). lia.
  - assert (P : 0 < 10 ^ Zpos p) by (apply Z.pow_pos_nonneg; lia).
    replace (Z.max (Zpos p) 0) with (Zpos p) by lia.
    replace (Z.max (- Zpos p) 0) with 0 by lia.
    cbn [round_decimal]. fold (round_Z 0 (cond_Zopp neg (Zpos D * 10 ^ Zpos p))).
    rewrite round_Z_signed by lia.
    rewrite Z.pow_0_r. apply round_pos_int. lia.
  - replace (Z.max (Zneg p) 0) with 0 by lia.
    replace (Z.max (- Zneg p) 0) with (Zpos p) by lia.
    rewrite Z.pow_0_r, Z.mul_1_r. cbn [round_decimal].
    set (q := 10 ^ Zpos p).
    assert (Hq : 0 < q) by (apply Z.pow_pos_nonneg; lia).
    set (k := 64 + Z.log2 q).
    assert (Hk : 64 <= k) by (pose proof (Z.log2_nonneg q); lia).
    rewrite div_eucl_eq.
    pose proof (quotient_large (Zpos D) q ltac:(lia) Hq) as Ht. fold k in Ht.
    set (t := Zpos D * 2 ^ k / q) in *.
    set (sg := if Zpos D * 2 ^ k mod q =? 0 then 0 else 1).
    assert (Hsg : sg = 0 \/ sg = 1) by (subst sg; destruct (_ =? 0); lia).
    assert (Ht0 : 0 < t) by (change (2 ^ 63) with 9223372036854775808 in Ht; lia).
    assert (Hlt : 63 <= Z.log2 t) by (apply Z.log2_le_pow2; lia).
    assert (Hw : 0 < 2 * t + sg) by lia.
    assert (Hlw : Z.log2 (2 * t + sg) = Z.log2 t + 1).
    { destruct Hsg as [-> | ->].
      - rewrite Z.add_0_r, Z.log2_double by lia. lia.
      - rewrite Z.log2_succ_double by lia. lia. }
    fold (round_Z (- (k + 1)) (cond_Zopp neg (2 * t + sg))).
    rewrite round_Z_signed by assumption.
    unfold round_pos, round_frac. rewrite fexp_eq, Hlw.
    assert (Hle : q <= Zpos D * 2 ^ k).
    { pose proof (Z.mul_div_le (Zpos D * 2 ^ k) q Hq). fold t in H.
      assert (q * 1 <= q * t) by (apply Z.mul_le_mono_nonneg_l; lia). lia. }
    rewrite (log2_units_quotient (Zpos D) q k) by lia. fold t.
    set (sh := Z.max (Z.log2 t - k + 1022) 0).
    replace (Z.max (Z.log2 t + 1 + 1 + - (k + 1) - 53) (-1074)) with (sh - 1074) by lia.
    destruct (Z.leb_spec (sh - 1074) (- (k + 1))) as [Hc | Hc]; [lia|].
    rewrite <- rne_div_shift.
    unfold sg, t. rewrite rne_div_sticky by lia.
    rewrite (rne_div_eq (Zpos D * 2 ^ k) _ (Zpos D * 2 ^ 1074) (q * 2 ^ sh)).
    + reflexivity.
    + apply Z.mul_pos_pos; [assumption | apply Z.pow_pos_nonneg; lia].
    + apply Z.mul_pos_pos; [assumption | apply Z.pow_pos_nonneg; lia].
    + replace (sh - 1074 - - (k + 1) - 1) with (sh - 1074 + k) by lia.
      replace (Zpos D * 2 ^ k * (q * 2 ^ sh)) with (Zpos D * q * (2 ^ k * 2 ^ sh)) by ring.
      replace (Zpos D * 2 ^ 1074 * (q * 2 ^ (sh - 1074 + k)))
        with (Zpos D * q * (2 ^ 1074 * 2 ^ (sh - 1074 + k))) by ring.
      rewrite <- !Z.pow_add_r by lia. do 2 f_equal. lia.
Qed.

(** Two decimals of the same value round to the same number. *)
Lemma round_decimal_eq (neg : bool) (D D' : positive) (e e' : Z) :
  Zpos D * 10 ^ Z.max e 0 * 10 ^ Z.max (- e') 0
  = Zpos D' * 10 ^ Z.max e' 0 * 10 ^ Z.max (- e) 0 ->
  round_decimal neg D e = round_decimal neg D' e'.
Proof.
  intro H. rewrite !round_decimal_frac.
  apply round_frac_eq; try (apply Z.pow_pos_nonneg; lia). assumption.
Qed.

Lemma round_decimal_opp (D : positive) (e : Z) :
  round_decimal true D e = SFopp (round_decimal false D e).
Proof. rewrite !round_decimal_frac. apply round_frac_opp. Qed.

(** ** The decimal exponent of [Number::toString] *)

Lemma leading_zeros_spec (fuel : nat) (num den j J : Z) :
  0 <= j <= J -> J < j + Z.of_nat fuel ->
  num * 10 ^ (j - 1) < den -> den <= num * 10 ^ J ->
  let r := leading_zeros fuel num den j in
  j <= r <= J /\ den <= num * 10 ^ r /\ num * 10 ^ (r - 1) < den.
Proof.
  revert j. induction fuel as [| fuel IH]; intros j Hj Hfuel Hlo Hhi; [lia|].
  cbn [leading_zeros]. destruct (Z.leb_spec den (num * 10 ^ j)) as [H | H].
  - cbv zeta. repeat split; lia.
  - assert (j <> J) by (intro E; subst J; lia).
    specialize (IH (j + 1) ltac:(lia) ltac:(lia)).
    replace (j + 1 - 1) with j in IH by lia. specialize (IH H Hhi).
    cbv zeta in *. lia.
Qed.

Lemma pow10_scale (a b c : Z) (T : Z) :
  0 <= T -> a <= b < c -> a * 10 ^ T <= b * 10 ^ T < c * 10 ^ T.
Proof.
  intros HT [H1 H2]. assert (0 < 10 ^ T) by (apply Z.pow_pos_nonneg; lia).
  split; [apply Z.mul_le_mono_nonneg_r | apply Z.mul_lt_mono_pos_r]; lia.
Qed.

Lemma decimal_exponent_spec (num den : Z) :
  0 < num -> 0 < den -> den <= num * 10 ^ 400 ->
  in_decade num den (decimal_exponent num den).
Proof.
  intros Hnum Hden Hbig. unfold decimal_exponent.
  destruct (Z.leb_spec den num) as [H | H].
  - assert (Hq : 0 < num / den) by (apply Z.div_str_pos; lia).
    destruct (num_digits_spec (num / den) Hq) as (H1 & Lo & Hi).
    set (n0 := num_digits (num / den)) in *.
    pose proof (Z.mul_div_le num den Hden) as L1.
    pose proof (Z.mul_succ_div_gt num den Hden) as L2.
    assert (P : 0 < 10 ^ (n0 - 1)) by (apply Z.pow_pos_nonneg; lia).
    assert (B : den * 10 ^ (n0 - 1) <= num < den * 10 ^ n0).
    { split; [nia|]. assert (num / den + 1 <= 10 ^ n0) by lia. nia. }
    intros T HT _.
    replace (den * 10 ^ (n0 - 1 + T)) with (den * 10 ^ (n0 - 1) * 10 ^ T)
      by (rewrite Z.pow_add_r by lia; ring).
    replace (den * 10 ^ (n0 + T)) with (den * 10 ^ n0 * 10 ^ T)
      by (rewrite Z.pow_add_r by lia; ring).
    apply pow10_scale; assumption.
  - pose proof (leading_zeros_spec 400 num den 1 400 ltac:(lia) ltac:(lia)) as S.
    change (1 - 1) with 0 in S. rewrite Z.pow_0_r, Z.mul_1_r in S.
    specialize (S H Hbig). cbv zeta in S.
    set (j := leading_zeros 400 num den 1) in *. destruct S as (Hj & Lo & Hi).
    intros T HT Hn.
    replace (1 - j - 1 + T) with (T - j) by lia.
    replace (1 - j + T) with (T - j + 1) by lia.
    assert (P : 0 < 10 ^ (T - j)) by (apply Z.pow_pos_nonneg; lia).
    replace (num * 10 ^ T) with (num * 10 ^ j * 10 ^ (T - j))
      by (rewrite <- Z.mul_assoc, <- Z.pow_add_r by lia; do 2 f_equal; lia).
    split.
    + apply Z.mul_le_mono_nonneg_r; lia.
    + rewrite Z.pow_add_r, Z.pow_1_r by lia.
      assert (E : 10 ^ j = 10 * 10 ^ (j - 1)).
      { rewrite <- Z.pow_succ_r by lia. f_equal. lia. }
      rewrite E.
      assert (num * 10 ^ (j - 1) * 10 ^ (T - j) < den * 10 ^ (T - j))
        by (apply Z.mul_lt_mono_pos_r; lia).
      lia.
Qed.

(** ** The digits [Number::toString] finds *)

Lemma exact_fraction_pos (m : positive) (e : Z) :
  0 < fst (exact_fraction m e) /\ 0 < snd (exact_fraction m e).
Proof.
  destruct e as [| p | p]; cbn [exact_fraction fst snd]; split;
    try lia; try (apply Z.pow_pos_nonneg; lia);
    apply Z.mul_pos_pos; try lia; apply Z.pow_pos_nonneg; lia.
Qed.

Lemma pow10_sum (a b c a' b' c' : Z) :
  0 <= a -> 0 <= b -> 0 <= c -> 0 <= a' -> 0 <= b' -> 0 <= c' ->
  a + b + c = a' + b' + c' ->
  10 ^ a * 10 ^ b * 10 ^ c = 10 ^ a' * 10 ^ b' * 10 ^ c'.
Proof.
  intros. rewrite <- !Z.pow_add_r by lia. f_equal. assumption.
Qed.

Section Candidates.

Variables (m : positive) (e : Z) (num den n0 : Z).

Hypothesis m_e_bounded : bounded prec emax m e = true.

Hypothesis num_den : exact_fraction m e = (num, den).

Hypothesis n0_decade : in_decade num den n0.

Lemma num_pos : 0 < num.
Proof. pose proof (exact_fraction_pos m e) as H. rewrite num_den in H. apply H. Qed.

Lemma den_pos : 0 < den.
Proof. pose proof (exact_fraction_pos m e) as H. rewrite num_den in H. apply H. Qed.

(** A decimal whose value is [num / den] rounds to the number itself. *)
Lemma decimal_of_value (s : positive) (p : Z) :
  Zpos s * 10 ^ Z.max p 0 * den = num * 10 ^ Z.max (- p) 0 ->
  round_decimal false s p = S754_finite false m e.
Proof.
  intro H. rewrite round_decimal_frac.
  pose proof (round_frac_exact false m e m_e_bounded) as X. rewrite num_den in X.
  rewrite <- X. apply round_frac_eq.
  - apply Z.pow_pos_nonneg; lia.
  - exact den_pos.
  - exact H.
Qed.

(** The scaled fraction of [shortest_candidate] has [k] digits before the
    point. *)
Lemma scaled_fraction (k : Z) :
  1 <= k ->
  let p := n0 - k in
  let '(N', D') :=
    if 0 <=? p then (num, den * 10 ^ p) else (num * 10 ^ (- p), den) in
  0 < D' /\ D' * 10 ^ (k - 1) <= N' < D' * 10 ^ k
  /\ N' * 10 ^ Z.max p 0 * den = num * 10 ^ Z.max (- p) 0 * D'.
Proof.
  intros Hk p. pose proof num_pos as Hn. pose proof den_pos as Hd.
  destruct (Z.leb_spec 0 p) as [Hp | Hp].
  - assert (P : 0 < 10 ^ p) by (apply Z.pow_pos_nonneg; lia).
    split; [apply Z.mul_pos_pos; assumption|]. split.
    + pose proof (n0_decade 0 ltac:(lia) ltac:(lia)) as H.
      rewrite Z.pow_0_r, Z.mul_1_r, !Z.add_0_r in H.
      rewrite <- !Z.mul_assoc, <- !Z.pow_add_r by lia.
      replace (p + (k - 1)) with (n0 - 1) by lia.
      replace (p + k) with n0 by lia. exact H.
    + replace (Z.max p 0) with p by lia. replace (Z.max (- p) 0) with 0 by lia.
      rewrite Z.pow_0_r. ring.
  - split; [assumption|]. split.
    + pose proof (n0_decade (- p) ltac:(lia) ltac:(lia)) as H.
      replace (n0 - 1 + - p) with (k - 1) in H by lia.
      replace (n0 + - p) with k in H by lia. exact H.
    + replace (Z.max p 0) with 0 by lia. replace (Z.max (- p) 0) with (- p) by lia.
      rewrite Z.pow_0_r. ring.
Qed.

(** The candidate for [k] digits, if there is one, has [k] digits and rounds
    to the number. *)
Lemma shortest_candidate_rounds (k s n : Z) :
  1 <= k ->
  shortest_candidate (S754_finite false m e) num den n0 k = Some (s, n) ->
  10 ^ (k - 1) <= s < 10 ^ k
  /\ round_decimal false (Z.to_pos s) (n - k) = S754_finite false m e.
Proof.
  intros Hk. unfold shortest_candidate.
  pose proof (scaled_fraction k Hk) as S. cbv zeta in S.
  set (p := n0 - k) in *.
  destruct (if 0 <=? p then (num, den * 10 ^ p) else (num * 10 ^ (- p), den))
    as [N' D'].
  destruct S as (HD & [Lo Hi] & Hval).
  assert (P1 : 0 < 10 ^ (k - 1)) by (apply Z.pow_pos_nonneg; lia).
  assert (P10 : 10 ^ k = 10 * 10 ^ (k - 1)).
  { rewrite <- Z.pow_succ_r by lia. f_equal. lia. }
  pose proof (Z.div_mod N' D' ltac:(lia)) as DM.
  pose proof (Z.mod_pos_bound N' D' HD) as MB.
  set (s_lo := N' / D') in *. set (r := N' mod D') in *.
  assert (Hs_lo : 10 ^ (k - 1) <= s_lo < 10 ^ k).
  { split.
    - apply Z.div_le_lower_bound; [assumption | lia].
    - apply Z.div_lt_upper_bound; [assumption | lia]. }
  (* what [norm] returns for a candidate that passed the test *)
  assert (Hnorm : forall s',
    10 ^ (k - 1) <= s' <= 10 ^ k ->
    round_decimal false (Z.to_pos s') p = S754_finite false m e ->
    (if s' =? 10 ^ k then (10 ^ (k - 1), n0 + 1) else (s', n0)) = (s, n) ->
    10 ^ (k - 1) <= s < 10 ^ k
    /\ round_decimal false (Z.to_pos s) (n - k) = S754_finite false m e).
  { intros s' Hs' Hr E. destruct (Z.eqb_spec s' (10 ^ k)) as [H10 | H10].
    - injection E as <- <-. split; [lia|]. rewrite <- Hr, H10.
      apply round_decimal_eq. rewrite !Z2Pos.id by lia.
      replace (n0 + 1 - k) with (p + 1) by lia.
      apply pow10_sum; lia.
    - injection E as <- <-. split; [lia|]. exact Hr. }
  assert (Hok : forall s',
    match s' with
    | Zpos s'' => spec_float_eqb (round_decimal false s'' p) (S754_finite false m e)
    | _ => false
    end = true ->
    round_decimal false (Z.to_pos s') p = S754_finite false m e).
  { intros s' H. destruct s' as [| s'' | s'']; try discriminate.
    apply spec_float_eqb_eq. exact H. }
  destruct (Z.eqb_spec r 0) as [Hr | Hr].
  - intro E. apply some_inj in E. apply (Hnorm s_lo); [lia | | exact E].
    apply decimal_of_value. rewrite Z2Pos.id by lia.
    assert (HN : N' = s_lo * D') by lia. rewrite HN in Hval.
    apply (Z.mul_cancel_r _ _ D'); [lia|]. rewrite <- Hval. ring.
  - destruct (match s_lo with
              | Zpos s' => spec_float_eqb (round_decimal false s' p) (S754_finite false m e)
              | _ => false
              end) eqn:Ok1;
    destruct (match s_lo + 1 with
              | Zpos s' => spec_float_eqb (round_decimal false s' p) (S754_finite false m e)
              | _ => false
              end) eqn:Ok2; intro E; try discriminate; apply some_inj in E.
    + destruct (2 * r ?= D').
      * destruct (Z.even s_lo).
        -- apply (Hnorm s_lo); [lia | apply Hok; exact Ok1 | exact E].
        -- apply (Hnorm (s_lo + 1)); [lia | apply Hok; exact Ok2 | exact E].
      * apply (Hnorm s_lo); [lia | apply Hok; exact Ok1 | exact E].
      * apply (Hnorm (s_lo + 1)); [lia | apply Hok; exact Ok2 | exact E].
    + apply (Hnorm s_lo); [lia | apply Hok; exact Ok1 | exact E].
    + apply (Hnorm (s_lo + 1)); [lia | apply Hok; exact Ok2 | exact E].
Qed.

End Candidates.

Lemma pow10_le_pow2 (a : Z) : 0 <= a -> 10 ^ (3 * a) <= 2 ^ (10 * a).
Proof.
  intro H. rewrite !Z.pow_mul_r by lia. apply Z.pow_le_mono_l.
  split; [apply Z.pow_nonneg; lia | vm_compute; discriminate].
Qed.

Lemma pow2_lt_inv (a b : Z) : 0 <= b -> 2 ^ a < 2 ^ b -> a < b.
Proof. intros Hb H. apply (Z.pow_lt_mono_r_iff 2); lia. Qed.

(** The search of [shortest_digits] returns the first candidate there is. *)
Lemma shortest_digits_found (x : spec_float) (num den n0 : Z) (fuel : nat) (k K : Z) :
  k <= K -> K - k <= Z.of_nat fuel ->
  shortest_candidate x num den n0 K <> None ->
  exists k', k <= k' <= K
    /\ shortest_candidate x num den n0 k' = Some (shortest_digits fuel x num den n0 k).
Proof.
  revert k. induction fuel as [| fuel IH]; intros k Hk Hf HK.
  - assert (k = K) by lia. subst k. exists K. split; [lia|].
    cbn [shortest_digits]. destruct (shortest_candidate x num den n0 K); congruence.
  - cbn [shortest_digits].
    destruct (shortest_candidate x num den n0 k) as [sn |] eqn:E.
    + exists k. split; [lia | exact E].
    + assert (k <> K) by (intro; subst k; congruence).
      destruct (IH (k + 1) ltac:(lia) ltac:(lia) HK) as (k' & Hk' & E').
      exists k'. split; [lia | exact E'].
Qed.

Section Termination.

Variables (m : positive) (e : Z) (num den n0 : Z).

Hypothesis m_e_bounded : bounded prec emax m e = true.

Hypothesis num_den : exact_fraction m e = (num, den).

Hypothesis n0_decade : in_decade num den n0.

(** With enough digits the decimal is the number itself, and there is a
    candidate: a binary64 number has a finite decimal expansion, of fewer
    than 801 digits. *)
Lemma exact_candidate :
  exists K, 1 <= K <= 801
    /\ shortest_candidate (S754_finite false m e) num den n0 K <> None.
Proof.
  destruct (bounded_spec m e m_e_bounded) as (_ & He971 & Hm53 & He1074 & _).
  assert (Hnum : exact_fraction m e = (num, den)) by exact num_den.
  assert (Hdec : in_decade num den n0) by exact n0_decade.
  destruct (Z_le_gt_dec 0 e) as [He | He].
  - assert (Hd : den = 1 /\ num = Zpos m * 2 ^ e).
    { destruct e as [| p | p]; try lia; cbn [exact_fraction] in Hnum;
        injection Hnum as <- <-; split; reflexivity. }
    destruct Hd as [-> Hn].
    assert (Hn1 : 1 <= num).
    { assert (0 < 2 ^ e) by (apply Z.pow_pos_nonneg; lia). nia. }
    assert (Hn2 : num < 10 ^ 309).
    { assert (num < 2 ^ 53 * 2 ^ 971).
      { rewrite Hn. assert (2 ^ e <= 2 ^ 971) by (apply Z.pow_le_mono_r; lia).
        assert (0 < 2 ^ e) by (apply Z.pow_pos_nonneg; lia).
        apply Z.le_lt_trans with (Zpos m * 2 ^ 971).
        - apply Z.mul_le_mono_nonneg_l; lia.
        - apply Z.mul_lt_mono_pos_r; [vm_compute; reflexivity | assumption]. }
      assert (2 ^ 53 * 2 ^ 971 < 10 ^ 309) by (vm_compute; reflexivity). lia. }
    assert (H1 : 1 <= n0).
    { destruct (Z_le_gt_dec 1 n0) as [L | L]; [assumption | exfalso].
      pose proof (Hdec (1 - n0) ltac:(lia) ltac:(lia)) as [_ H].
      replace (n0 + (1 - n0)) with 1 in H by lia.
      assert (10 ^ 1 <= 10 ^ (1 - n0)) by (apply Z.pow_le_mono_r; lia).
      change (10 ^ 1) with 10 in *. nia. }
    assert (H2 : n0 - 1 < 309).
    { pose proof (Hdec 0 ltac:(lia) ltac:(lia)) as [H _].
      rewrite Z.pow_0_r, Z.mul_1_r, Z.add_0_r, Z.mul_1_l in H.
      apply pow10_lt_inv; lia. }
    exists n0. split; [lia|]. unfold shortest_candidate. rewrite Z.sub_diag.
    change (0 <=? 0) with true. cbv iota. change (1 * 10 ^ 0) with 1.
    rewrite Z.mod_1_r. discriminate.
  - assert (Hd : exists Q, e = - Q /\ 1 <= Q <= 1074 /\ den = 2 ^ Q /\ num = Zpos m).
    { destruct e as [| p | p]; try lia. exists (Zpos p).
      cbn [exact_fraction] in Hnum. injection Hnum as <- <-. repeat split; lia. }
    destruct Hd as (Q & -> & HQ & -> & ->).
    assert (PQ : 0 < 2 ^ Q) by (apply Z.pow_pos_nonneg; lia).
    assert (H1 : 1 <= n0 + Q).
    { destruct (Z_le_gt_dec 1 (n0 + Q)) as [L | L]; [assumption | exfalso].
      pose proof (Hdec (1 - n0) ltac:(lia) ltac:(lia)) as [_ H].
      replace (n0 + (1 - n0)) with 1 in H by lia. change (10 ^ 1) with 10 in H.
      assert (E : 10 ^ (1 - n0) = 10 * 10 ^ (- n0)).
      { rewrite <- Z.pow_succ_r by lia. f_equal. lia. }
      assert (10 ^ Q <= 10 ^ (- n0)) by (apply Z.pow_le_mono_r; lia).
      assert (2 ^ Q <= 10 ^ Q) by (apply Z.pow_le_mono_l; lia).
      rewrite E in H. nia. }
    assert (H2 : n0 + Q <= 801).
    { destruct (Z_le_gt_dec 1 n0) as [L | L].
      - pose proof (Hdec 0 ltac:(lia) ltac:(lia)) as [H _].
        rewrite Z.pow_0_r, Z.mul_1_r, Z.add_0_r in H.
        assert (P : 0 < 10 ^ (n0 - 1)) by (apply Z.pow_pos_nonneg; lia).
        assert (2 ^ Q < 2 ^ 53) by nia.
        assert (Q < 53) by (apply pow2_lt_inv; lia).
        assert (10 ^ (n0 - 1) < 10 ^ 16).
        { assert (2 ^ 53 < 10 ^ 16) by (vm_compute; reflexivity). nia. }
        assert (n0 - 1 < 16) by (apply pow10_lt_inv; lia). lia.
      - pose proof (Hdec (1 - n0) ltac:(lia) ltac:(lia)) as [H _].
        replace (n0 - 1 + (1 - n0)) with 0 in H by lia.
        rewrite Z.pow_0_r, Z.mul_1_r in H.
        set (j := 1 - n0) in *. set (a := j / 3).
        pose proof (Z.mul_div_le j 3 ltac:(lia)) as Ha1.
        pose proof (Z.mul_succ_div_gt j 3 ltac:(lia)) as Ha2. fold a in Ha1, Ha2.
        assert (Ha0 : 0 <= a) by (apply Z.div_pos; lia).
        assert (Hj : 10 ^ j <= 10 ^ (3 * a) * 10 ^ 2).
        { rewrite <- Z.pow_add_r by lia. apply Z.pow_le_mono_r; lia. }
        pose proof (pow10_le_pow2 a Ha0) as Hp.
        assert (P3 : 0 < 10 ^ (3 * a)) by (apply Z.pow_pos_nonneg; lia).
        assert (Pj : 0 < 10 ^ j) by (apply Z.pow_pos_nonneg; lia).
        assert (Hlt : 2 ^ Q < 2 ^ (60 + 10 * a)).
        { rewrite Z.pow_add_r by lia. change (2 ^ 60) with (2 ^ 53 * 128).
          apply Z.le_lt_trans with (Zpos m * 10 ^ j); [exact H|].
          apply Z.lt_le_trans with (2 ^ 53 * 10 ^ j).
          - apply Z.mul_lt_mono_pos_r; assumption.
          - rewrite <- Z.mul_assoc. apply Z.mul_le_mono_nonneg_l; [vm_compute; discriminate|].
            apply Z.le_trans with (10 ^ (3 * a) * 10 ^ 2); [exact Hj|].
            rewrite (Z.mul_comm 128).
            apply Z.mul_le_mono_nonneg; lia. }
        assert (Q < 60 + 10 * a) by (apply pow2_lt_inv; lia).
        lia. }
    exists (n0 + Q). split; [lia|]. unfold shortest_candidate.
    replace (n0 - (n0 + Q)) with (- Q) by lia.
    destruct (Z.leb_spec 0 (- Q)) as [L | L]; [lia|].
    rewrite Z.opp_involutive.
    replace (10 ^ Q) with (5 ^ Q * 2 ^ Q) by (rewrite <- Z.pow_mul_l; reflexivity).
    rewrite Z.mul_assoc, Z.mod_mul by lia.
    change (0 =? 0) with true. cbv iota. discriminate.
Qed.

(** The digits of [Number::toString]: [k] digits [d] and an exponent [n]
    such that [d * 10^(n-k)] rounds to the number. *)
Lemma shortest_digits_rounds :
  exists k,
    1 <= k
    /\ 10 ^ (k - 1) <= fst (shortest_digits 800 (S754_finite false m e) num den n0 1) < 10 ^ k
    /\ round_decimal false
         (Z.to_pos (fst (shortest_digits 800 (S754_finite false m e) num den n0 1)))
         (snd (shortest_digits 800 (S754_finite false m e) num den n0 1) - k)
       = S754_finite false m e.
Proof.
  destruct exact_candidate as (K & HK & Hc).
  destruct (shortest_digits_found (S754_finite false m e) num den n0 800 1 K
              ltac:(lia) ltac:(lia) Hc) as (k & Hk & E).
  destruct (shortest_digits 800 (S754_finite false m e) num den n0 1) as [d n].
  exists k. split; [lia|]. cbn [fst snd].
  exact (shortest_candidate_rounds m e num den n0 m_e_bounded num_den n0_decade
           k d n ltac:(lia) E).
Qed.

End Termination.

(** ** [parseFloat] reads back what [Number::toString] writes *)

Lemma digits_value_app (a b : list N) :
  digits_value (a ++ b)
  = (digits_value a * 10 ^ N.of_nat (List.length b) + digits_value b)%N.
Proof. unfold digits_value at 1. rewrite fold_left_app. apply fold_digits_acc. Qed.

Lemma digits_value_trailing_zeros (ds : list N) (j : nat) :
  digits_value (ds ++ repeat 0%N j) = (digits_value ds * 10 ^ N.of_nat j)%N.
Proof.
  rewrite digits_value_app, repeat_length.
  rewrite <- (app_nil_r (repeat 0%N j)), digits_value_zeros. cbn. lia.
Qed.

Lemma digits_string_zeros (j : nat) : repeat 48%N j = digits_string (repeat 0%N j).
Proof. unfold digits_string. rewrite map_repeat. reflexivity. Qed.

Lemma digits_string_app (a b : list N) :
  digits_string (a ++ b) = digits_string a ++ digits_string b.
Proof. apply map_app. Qed.

Lemma parse_unsigned_integer (ip : list N) :
  all_digits ip -> ip <> [] ->
  parse_StrUnsignedDecimalLiteral (digits_string ip) = Some (ip, [], 0).
Proof.
  intros Hi Hne. unfold parse_StrUnsignedDecimalLiteral.
  rewrite <- (app_nil_r (digits_string ip)), span_digits_app by (try assumption; exact I).
  destruct ip; [congruence | reflexivity].
Qed.

Lemma parse_unsigned_fixed (ip fp : list N) :
  all_digits ip -> all_digits fp -> ip <> [] ->
  parse_StrUnsignedDecimalLiteral (digits_string ip ++ [46%N] ++ digits_string fp)
  = Some (ip, fp, 0).
Proof.
  intros Hi Hf Hne. unfold parse_StrUnsignedDecimalLiteral.
  rewrite span_digits_app by (try assumption; reflexivity).
  destruct ip as [| i ip]; [congruence|]. cbn [app].
  rewrite <- (app_nil_r (digits_string fp)).
  rewrite span_digits_app by (try assumption; exact I).
  reflexivity.
Qed.

Lemma parse_ExponentPart_signed (minus : bool) (E : list N) :
  all_digits E -> E <> [] ->
  parse_ExponentPart (101%N :: (if minus then 45%N else 43%N) :: digits_string E)
  = Some (cond_Zopp minus (Z.of_N (digits_value E))).
Proof.
  intros Ha Hne. cbn [parse_ExponentPart].
  change ((101 =? 101) || (101 =? 69))%N with true. cbv iota.
  destruct minus; cbv iota;
    rewrite <- (app_nil_r (digits_string E)), span_digits_app by (try assumption; exact I);
    destruct E; try congruence; reflexivity.
Qed.

Lemma parse_unsigned_exponential (minus : bool) (d : N) (rest E : list N) :
  (d < 10)%N -> all_digits rest -> all_digits E -> E <> [] ->
  parse_StrUnsignedDecimalLiteral
    match rest with
    | [] => digits_string [d] ++ [101%N; if minus then 45%N else 43%N] ++ digits_string E
    | _ :: _ =>
        digits_string [d] ++ [46%N] ++ digits_string rest
          ++ [101%N; if minus then 45%N else 43%N] ++ digits_string E
    end
  = Some ([d], rest, cond_Zopp minus (Z.of_N (digits_value E))).
Proof.
  intros Hd Hr HE Hne.
  assert (Hd1 : all_digits [d]) by (constructor; [assumption | constructor]).
  unfold parse_StrUnsignedDecimalLiteral. destruct rest as [| r rest].
  - rewrite span_digits_app by (try assumption; reflexivity).
    cbn [app]. cbv beta iota.
    rewrite (parse_ExponentPart_signed minus E HE Hne). reflexivity.
  - rewrite span_digits_app by (try assumption; reflexivity).
    cbn [app]. cbv beta iota.
    change (digits_string (r :: rest) ++ 101%N :: (if minus then 45%N else 43%N)
              :: digits_string E)
      with (digits_string (r :: rest) ++ [101%N; if minus then 45%N else 43%N]
              ++ digits_string E).
    rewrite span_digits_app by (try assumption; reflexivity).
    cbn [app]. rewrite (parse_ExponentPart_signed minus E HE Hne). reflexivity.
Qed.

(** A literal that begins with a digit, with or without a minus sign before
    it, is read whole. *)
Lemma parseFloat_literal (neg : bool) (u : JSString) (ip fp : list N) (e : Z) :
  match u with
  | c :: _ => exists d, (d < 10)%N /\ c = digit_char d
  | [] => False
  end ->
  parse_StrUnsignedDecimalLiteral u = Some (ip, fp, e) ->
  parseFloat_string ((if neg then [45%N] else []) ++ u)
  = StringNumericValue (LitDecimal neg ip fp e).
Proof.
  intros Hu Hp. destruct u as [| c tail]; [destruct Hu|].
  destruct Hu as (d & Hd & ->).
  unfold parseFloat_string.
  assert (Ht : trim_start ((if neg then [45%N] else []) ++ digit_char d :: tail)
               = (if neg then [45%N] else []) ++ digit_char d :: tail).
  { destruct neg; [reflexivity|]. cbn [app trim_start].
    rewrite white_space_digit by assumption. reflexivity. }
  rewrite Ht.
  rewrite (longest_prefix_all _ _ _ (parse_signed neg d tail ip fp e Hd Hp)).
  reflexivity.
Qed.

Lemma digits_string_head (ds : list N) (tail : JSString) :
  all_digits ds -> ds <> [] ->
  match digits_string ds ++ tail with
  | c :: _ => exists d, (d < 10)%N /\ c = digit_char d
  | [] => False
  end.
Proof.
  intros Ha Hne. destruct ds as [| d ds]; [congruence|].
  cbn [digits_string List.map app]. exists d. split; [|reflexivity].
  inversion Ha; assumption.
Qed.

Lemma digits_string_head_nil (ds : list N) :
  all_digits ds -> ds <> [] ->
  match digits_string ds with
  | c :: _ => exists d, (d < 10)%N /\ c = digit_char d
  | [] => False
  end.
Proof.
  intros Ha Hne. pose proof (digits_string_head ds [] Ha Hne) as H.
  rewrite app_nil_r in H. exact H.
Qed.

(** Whatever layout [format_number] chooses for the [k] digits of [s] and the
    exponent [n], [parseFloat] reads [s * 10^(n-k)] back. *)
Lemma parseFloat_format_number (neg : bool) (s n k : Z) :
  1 <= k -> 10 ^ (k - 1) <= s < 10 ^ k ->
  parseFloat_string ((if neg then [45%N] else []) ++ format_number s n)
  = SF2Prim (round_decimal neg (Z.to_pos s) (n - k)).
Proof.
  intros Hk Hs.
  assert (Hs0 : 0 < s).
  { assert (0 < 10 ^ (k - 1)) by (apply Z.pow_pos_nonneg; lia). lia. }
  pose proof (num_digits_unique s k Hk Hs) as Hlen. unfold num_digits in Hlen.
  destruct (decimal_digits_spec (Z.to_N s)) as (Hv & Ha & Hne).
  unfold format_number. rewrite Hlen.
  set (ds := decimal_digits (Z.to_N s)) in *.
  assert (HD : Z.to_N s = Npos (Z.to_pos s)) by lia.
  destruct ((k <=? n) && (n <=? 21)) eqn:C1.
  { (* digits followed by zeros *)
    apply andb_true_iff in C1. destruct C1 as [C1 _]. apply Z.leb_le in C1.
    set (j := Z.to_nat (n - k)).
    rewrite digits_string_zeros, <- digits_string_app.
    assert (Hip : all_digits (ds ++ repeat 0%N j))
      by (apply Forall_app; split; [assumption | apply all_digits_zeros]).
    assert (Hipne : ds ++ repeat 0%N j <> []) by (destruct ds; [congruence | discriminate]).
    rewrite (parseFloat_literal neg _ (ds ++ repeat 0%N j) [] 0).
    - cbn [StringNumericValue List.length]. rewrite app_nil_r, digits_value_trailing_zeros, Hv.
      destruct (Z.to_N s * 10 ^ N.of_nat j)%N as [| D] eqn:ED.
      + exfalso. assert (0 < 10 ^ N.of_nat j)%N by (apply N.neq_0_lt_0, N.pow_nonzero; lia).
        nia.
      + f_equal. apply round_decimal_eq.
        apply (f_equal Z.of_N) in ED. rewrite N2Z.inj_mul, N2Z.inj_pow in ED.
        rewrite Z2N.id in ED by lia. rewrite nat_N_Z in ED. unfold j in ED.
        rewrite Z2Nat.id in ED by lia. change (Z.of_N 10) with 10 in ED.
        change (Z.of_N (Npos D)) with (Zpos D) in ED.
        rewrite Z2Pos.id by lia. rewrite <- ED.
        replace (Z.max (0 - Z.of_nat 0) 0) with 0 by lia.
        replace (Z.max (- (0 - Z.of_nat 0)) 0) with 0 by lia.
        replace (Z.max (- (n - k)) 0) with 0 by lia.
        replace (Z.max (n - k) 0) with (n - k) by lia.
        rewrite Z.pow_0_r. ring.
    - apply digits_string_head_nil; assumption.
    - apply parse_unsigned_integer; assumption. }
  destruct ((0 <? n) && (n <=? 21)) eqn:C2.
  { (* a point among the digits *)
    apply andb_true_iff in C2. destruct C2 as [C2 C2']. apply Z.ltb_lt in C2.
    apply Z.leb_le in C2'.
    assert (Hnk : n < k).
    { destruct (Z.leb_spec k n); [|assumption]. destruct (Z.leb_spec n 21); [|lia].
      discriminate. }
    set (j := Z.to_nat n).
    assert (Hsplit : firstn j ds ++ skipn j ds = ds) by apply firstn_skipn.
    assert (Hboth : all_digits (firstn j ds ++ skipn j ds)) by (rewrite Hsplit; assumption).
    apply Forall_app in Hboth. destruct Hboth as [Hi Hf].
    assert (Hine : firstn j ds <> []).
    { intro E. apply (f_equal (@List.length N)) in E. rewrite length_firstn in E.
      cbn [List.length] in E. lia. }
    rewrite (parseFloat_literal neg _ (firstn j ds) (skipn j ds) 0).
    - cbn [StringNumericValue]. rewrite Hsplit, Hv, HD. f_equal. f_equal.
      rewrite length_skipn. lia.
    - apply digits_string_head; assumption.
    - apply parse_unsigned_fixed; assumption. }
  destruct ((-6 <? n) && (n <=? 0)) eqn:C3.
  { (* zeros between the point and the digits *)
    apply andb_true_iff in C3. destruct C3 as [_ C3]. apply Z.leb_le in C3.
    set (j := Z.to_nat (- n)).
    change ([48%N; 46%N] ++ repeat 48%N j ++ digits_string ds)
      with (digits_string [0%N] ++ [46%N] ++ repeat 48%N j ++ digits_string ds).
    rewrite digits_string_zeros, <- digits_string_app.
    assert (Hf : all_digits (repeat 0%N j ++ ds))
      by (apply Forall_app; split; [apply all_digits_zeros | assumption]).
    rewrite (parseFloat_literal neg _ [0%N] (repeat 0%N j ++ ds) 0).
    - cbn [StringNumericValue].
      change ([0%N] ++ repeat 0%N j ++ ds) with (repeat 0%N (S j) ++ ds).
      rewrite digits_value_zeros, Hv, HD. f_equal. f_equal.
      rewrite length_app, repeat_length. lia.
    - exists 0%N. split; [lia | reflexivity].
    - apply parse_unsigned_fixed; [constructor; [lia | constructor] | assumption | discriminate]. }
  (* exponential notation *)
  destruct (decimal_digits_spec (Z.to_N (Z.abs (n - 1)))) as (Hve & Hae & Hnee).
  set (E := decimal_digits (Z.to_N (Z.abs (n - 1)))) in *.
  destruct ds as [| d rest] eqn:Eds; [congruence|].
  assert (Hd : (d < 10)%N) by (inversion Ha; assumption).
  assert (Hrest : all_digits rest) by (inversion Ha; assumption).
  set (minus := negb (0 <=? n - 1)).
  assert (Hsign : (if 0 <=? n - 1 then 43%N else 45%N) = (if minus then 45%N else 43%N))
    by (unfold minus; destruct (0 <=? n - 1); reflexivity).
  rewrite Hsign.
  assert (Hval : StringNumericValue
                   (LitDecimal neg [d] rest (cond_Zopp minus (Z.of_N (digits_value E))))
                 = SF2Prim (round_decimal neg (Z.to_pos s) (n - k))).
  { cbn [StringNumericValue]. change ([d] ++ rest) with (d :: rest). rewrite Hv, HD.
    f_equal. f_equal. rewrite Hve. cbn [List.length] in Hlen.
    unfold minus. destruct (Z.leb_spec 0 (n - 1)); cbn [negb cond_Zopp]; lia. }
  pose proof (parse_unsigned_exponential minus d rest E Hd Hrest Hae Hnee) as Hp.
  assert (Hd1 : all_digits [d]) by (constructor; [assumption | constructor]).
  destruct rest as [| r rest'].
  - rewrite (parseFloat_literal neg _ [d] [] (cond_Zopp minus (Z.of_N (digits_value E)))).
    + exact Hval.
    + apply digits_string_head; [assumption | discriminate].
    + exact Hp.
  - rewrite (parseFloat_literal neg _ [d] (r :: rest')
               (cond_Zopp minus (Z.of_N (digits_value E)))).
    + exact Hval.
    + apply digits_string_head; [assumption | discriminate].
    + exact Hp.
Qed.

Lemma exact_fraction_den (m : positive) (e : Z) :
  -1074 <= e -> snd (exact_fraction m e) <= 10 ^ 400.
Proof.
  intro He.
  assert (H1 : 1 <= 10 ^ 400) by (vm_compute; discriminate).
  assert (H2 : 2 ^ 1074 <= 10 ^ 400) by (vm_compute; discriminate).
  destruct e as [| p | p]; cbn [exact_fraction snd]; try exact H1.
  apply Z.le_trans with (2 ^ 1074); [|exact H2].
  apply Z.pow_le_mono_r; lia.
Qed.

(** [parseFloat(String(x))] is [x], for every finite number but zero. *)
Lemma parseFloat_toString_finite (x : float) (s : bool) (m : positive) (e : Z) :
  Prim2SF x = S754_finite s m e -> parseFloat_string (Number_toString x) = x.
Proof.
  intro E. pose proof (Prim2SF_valid x) as B. rewrite E in B. cbn [valid_binary] in B.
  destruct (bounded_spec m e B) as (_ & _ & _ & He & _).
  unfold Number_toString. rewrite E. cbn [Number_toString_SF].
  pose proof (exact_fraction_pos m e) as [Hnum Hden].
  pose proof (exact_fraction_den m e He) as Hd400.
  destruct (exact_fraction m e) as [num den] eqn:EF. cbn [fst snd] in *.
  assert (Hdec : in_decade num den (decimal_exponent num den)).
  { apply decimal_exponent_spec; try assumption.
    apply Z.le_trans with (1 * 10 ^ 400); [lia|].
    apply Z.mul_le_mono_nonneg_r; [vm_compute; discriminate | lia]. }
  destruct (shortest_digits_rounds m e num den _ B EF Hdec) as (k & Hk & Hdig & Hr).
  destruct (shortest_digits 800 (S754_finite false m e) num den
              (decimal_exponent num den) 1) as [d n].
  cbn [fst snd] in *.
  rewrite (parseFloat_format_number s d n k Hk Hdig).
  rewrite <- (SF2Prim_Prim2SF x), E. f_equal.
  destruct s; [|exact Hr]. rewrite round_decimal_opp, Hr. reflexivity.
Qed.

(** What [ensureNumber] makes of a number: the number itself, but the
    default for NaN, and [0] for [-0]. *)
Lemma ensureNumber_number (x d : float) :
  ensureNumber (VNumber x) d
  = if is_nan x then d else if (x =? 0)%float then 0%float else x.
Proof.
  unfold ensureNumber, isNaN, parseFloat, ToString.
  destruct (Prim2SF x) as [s | s | | s m e] eqn:E.
  - assert (Hp : parseFloat_string (Number_toString x) = 0%float)
      by (unfold Number_toString; rewrite E; vm_compute; reflexivity).
    rewrite Hp.
    assert (N : is_nan x = false) by (apply is_nan_false; rewrite E; discriminate).
    assert (Z0 : (x =? 0)%float = true) by (rewrite eqb_spec, E; destruct s; reflexivity).
    rewrite N, Z0. reflexivity.
  - assert (Hp : parseFloat_string (Number_toString x) = x).
    { apply Prim2SF_inj. unfold Number_toString. rewrite E.
      destruct s; vm_compute; reflexivity. }
    rewrite Hp.
    assert (N : is_nan x = false) by (apply is_nan_false; rewrite E; discriminate).
    assert (Z0 : (x =? 0)%float = false) by (rewrite eqb_spec, E; destruct s; reflexivity).
    rewrite N, Z0. reflexivity.
  - assert (Hp : parseFloat_string (Number_toString x) = nan)
      by (unfold Number_toString; rewrite E; vm_compute; reflexivity).
    rewrite Hp.
    assert (N : is_nan x = true) by (apply is_nan_spec; assumption).
    rewrite N. reflexivity.
  - rewrite (parseFloat_toString_finite x s m e E).
    assert (N : is_nan x = false) by (apply is_nan_false; rewrite E; discriminate).
    assert (Z0 : (x =? 0)%float = false) by (rewrite eqb_spec, E; destruct s; reflexivity).
    rewrite N, Z0. reflexivity.
Qed.

(** ** [toFixed] writes back the decimal that was read *)

Lemma rne_div_error (A B : Z) :
  0 < B -> - B <= 2 * (rne_div A B * B - A) <= B.
Proof.
  intro HB. unfold rne_div.
  pose proof (Z.div_mod A B ltac:(lia)) as DM.
  pose proof (Z.mod_pos_bound A B HB) as MB.
  set (q := A / B) in *. set (r := A mod B) in *.
  destruct (Z.compare_spec (2 * r) B); [destruct (Z.even q)| |]; nia.
Qed.

Lemma rne_div_le (A B : Z) : 0 < B -> A / B <= rne_div A B <= A / B + 1.
Proof.
  intro HB. unfold rne_div.
  destruct (_ ?= _); [destruct (Z.even _)| |]; lia.
Qed.

Lemma nearest_scaled_eq (num den num' den' F : Z) :
  0 < den -> 0 < den' -> num * den' = num' * den ->
  nearest_scaled num den F = nearest_scaled num' den' F.
Proof.
  intros Hd Hd' H. unfold nearest_scaled.
  rewrite <- (Z.div_mul_cancel_l (2 * num * 10 ^ F + den) (2 * den) den') by lia.
  rewrite <- (Z.div_mul_cancel_l (2 * num' * 10 ^ F + den') (2 * den') den) by lia.
  f_equal; [|ring].
  replace (den' * (2 * num * 10 ^ F + den)) with (2 * (num * den') * 10 ^ F + den * den') by ring.
  rewrite H. ring.
Qed.

(** The value of a binary64 number as a fraction of [2^1074]. *)
Lemma exact_fraction_ulps (m : positive) (e : Z) :
  -1074 <= e ->
  fst (exact_fraction m e) * 2 ^ 1074
  = Zpos m * 2 ^ (e + 1074) * snd (exact_fraction m e).
Proof.
  intro He. destruct e as [| p | p]; cbn [exact_fraction fst snd].
  - change (2 ^ 0) with 1. change (0 + 1074) with 1074. ring.
  - rewrite Z.pow_add_r by lia. ring.
  - rewrite <- Z.mul_assoc, <- Z.pow_add_r by lia. do 2 f_equal. lia.
Qed.

(** A decimal [D / 10^F] with [D < 2^52] rounds to a finite number, from
    which [D] is found again by rounding to [F] decimals. *)
Lemma round_frac_decimal (neg : bool) (D : positive) (F : Z) :
  0 <= F <= 100 -> Zpos D < 2 ^ 52 ->
  exists (M : positive) (E : Z),
    round_frac neg (Zpos D) (10 ^ F) = S754_finite neg M E
    /\ -1074 <= E
    /\ - 2 ^ 1074 < 2 * (Zpos M * 2 ^ (E + 1074) * 10 ^ F - Zpos D * 2 ^ 1074) < 2 ^ 1074.
Proof.
  intros HF HD.
  assert (H100 : 10 ^ 100 < 2 ^ 1074) by (vm_compute; reflexivity).
  assert (HP : 0 < 2 ^ 1074) by (vm_compute; reflexivity).
  assert (H52 : 2 ^ 52 = 4503599627370496) by reflexivity.
  assert (H53 : 2 ^ 53 = 2 * 2 ^ 52) by reflexivity.
  assert (HF1 : 0 < 10 ^ F) by (apply Z.pow_pos_nonneg; lia).
  assert (HF2 : 10 ^ F <= 10 ^ 100) by (apply Z.pow_le_mono_r; lia).
  unfold round_frac.
  set (P := 2 ^ 1074) in *. set (T := 10 ^ F) in *.
  set (U := Zpos D * P / T).
  set (sh := Z.max (Z.log2 U - 52) 0).
  assert (Hsh : 0 <= sh) by lia.
  assert (Psh : 0 < 2 ^ sh) by (apply Z.pow_pos_nonneg; lia).
  pose proof (Z.mul_div_le (Zpos D * P) T HF1) as HU1. fold U in HU1.
  assert (HU0 : 0 <= U) by (apply Z.div_pos; [apply Z.mul_nonneg_nonneg|]; lia).
  assert (HA : Zpos D * P < 2 ^ 52 * P) by (apply Z.mul_lt_mono_pos_r; assumption).
  (* the unit of the rounding is below one unit of the decimal *)
  assert (HB : T * 2 ^ sh < P).
  { destruct (Z_le_gt_dec (Z.log2 U - 52) 0) as [L | L].
    - replace sh with 0 by lia. rewrite Z.pow_0_r. lia.
    - assert (HUp : 0 < U) by (destruct (Z.eq_dec U 0) as [-> | ]; [cbn in L |]; lia).
      destruct (Z.log2_spec U HUp) as [Lo _].
      replace sh with (Z.log2 U - 52) by lia.
      assert (E2 : 2 ^ Z.log2 U = 2 ^ (Z.log2 U - 52) * 2 ^ 52)
        by (rewrite <- Z.pow_add_r by lia; f_equal; lia).
      assert (P2 : 0 < 2 ^ (Z.log2 U - 52)) by (apply Z.pow_pos_nonneg; lia).
      set (S2 := 2 ^ (Z.log2 U - 52)) in *.
      assert (T * (S2 * 2 ^ 52) <= T * U) by (apply Z.mul_le_mono_nonneg_l; lia).
      assert (T * S2 * 2 ^ 52 < P * 2 ^ 52) by lia.
      apply (Z.mul_lt_mono_pos_r (2 ^ 52)); lia. }
  set (B := T * 2 ^ sh) in *.
  assert (HB0 : 0 < B) by (apply Z.mul_pos_pos; assumption).
  pose proof (rne_div_error (Zpos D * P) B HB0) as Herr.
  pose proof (rne_div_le (Zpos D * P) B HB0) as Hle.
  set (N := rne_div (Zpos D * P) B) in *.
  assert (HN1 : 1 <= N).
  { assert (P <= Zpos D * P) by (apply (Z.le_trans _ (1 * P)); [lia|];
      apply Z.mul_le_mono_nonneg_r; lia).
    destruct (Z_le_gt_dec N 0) as [L | L]; [exfalso | lia].
    assert (N * B <= 0) by (apply Z.mul_nonpos_nonneg; lia). lia. }
  assert (HN2 : N <= 2 ^ 53).
  { assert (Zpos D * P / B < 2 ^ 53); [|lia].
    unfold B. rewrite <- Z.div_div by lia. fold U.
    apply Z.div_lt_upper_bound; [assumption|].
    destruct (Z.eq_dec U 0) as [-> | HUn]; [apply Z.mul_pos_pos; [assumption | reflexivity]|].
    destruct (Z.log2_spec U ltac:(lia)) as [_ Hi].
    apply Z.lt_le_trans with (2 ^ Z.succ (Z.log2 U)); [exact Hi|].
    rewrite <- Z.pow_add_r by lia. apply Z.pow_le_mono_r; lia. }
  assert (Hsh2 : sh <= 1073).
  { destruct (Z.eq_dec U 0) as [HU | HUn]; [unfold sh; rewrite HU; cbn; lia|].
    assert (U <= Zpos D * P).
    { apply Z.div_le_upper_bound; [assumption|].
      rewrite <- (Z.mul_1_l (Zpos D * P)) at 1.
      apply Z.mul_le_mono_nonneg_r; lia. }
    assert (U < 2 ^ (52 + 1074)).
    { rewrite Z.pow_add_r by lia. fold P. lia. }
    assert (Z.log2 U < 52 + 1074) by (apply Z.log2_lt_pow2; lia). lia. }
  destruct (Z.eqb_spec N (2 ^ 53)) as [E53 | E53].
  - exists (Z.to_pos (2 ^ 52)), (sh - 1074 + 1).
    change (2 ^ 52) with (Zpos (Z.to_pos (2 ^ 52))) at 1. cbv iota.
    change (emax - prec) with 971.
    destruct (Z.leb_spec (sh - 1074 + 1) 971); [|lia].
    split; [reflexivity|]. split; [lia|].
    replace (sh - 1074 + 1 + 1074) with (sh + 1) by lia.
    rewrite Z.pow_add_r, Z.pow_1_r by lia.
    change (Zpos (Z.to_pos (2 ^ 52))) with (2 ^ 52).
    replace (2 ^ 52 * (2 ^ sh * 2) * T) with (2 ^ 53 * B) by (unfold B; rewrite H53; ring).
    rewrite <- E53. lia.
  - destruct N as [| M | M] eqn:EN; try lia.
    exists M, (sh - 1074). cbv iota. change (emax - prec) with 971.
    destruct (Z.leb_spec (sh - 1074) 971); [|lia].
    split; [reflexivity|]. split; [lia|].
    replace (sh - 1074 + 1074) with sh by lia.
    replace (Zpos M * 2 ^ sh * T) with (Zpos M * B) by (unfold B; ring).
    lia.
Qed.

Lemma round_decimal_valid (neg : bool) (D : positive) (e10 : Z) :
  valid_binary (round_decimal neg D e10) = true.
Proof.
  destruct (round_decimal_round_Z neg D e10) as (g & w & ->). apply round_Z_valid.
Qed.

(** [toFixed(f)] of the number read from a decimal of [f] decimals and fewer
    than [2^52] units writes that decimal. *)
Lemma toFixed_of_decimal (neg : bool) (D : positive) (f : nat) :
  (f <= 100)%nat -> Zpos D < 2 ^ 52 ->
  Number_toFixed (SF2Prim (round_decimal neg D (- Z.of_nat f))) (Z.of_nat f)
  = inr ((if neg then [45%N] else []) ++ fixed_digits (Npos D) f).
Proof.
  intros Hf HD. set (F := Z.of_nat f). assert (HF : 0 <= F <= 100) by lia.
  assert (HP : 0 < 2 ^ 1074) by (vm_compute; reflexivity).
  assert (H21 : 2 ^ 53 < 10 ^ 21) by (vm_compute; reflexivity).
  assert (HT : 1 <= 10 ^ F) by (apply (Z.pow_le_mono_r 10 0 F); lia).
  unfold Number_toFixed.
  destruct (Z.ltb_spec F 0); [lia|]. destruct (Z.ltb_spec 100 F); [lia|]. cbn [orb].
  rewrite Prim2SF_SF2Prim by apply round_decimal_valid.
  rewrite round_decimal_frac.
  replace (Z.max (- F) 0) with 0 by lia. replace (Z.max (- - F) 0) with F by lia.
  rewrite Z.pow_0_r, Z.mul_1_r.
  destruct (round_frac_decimal neg D F HF HD) as (M & E & -> & HE & Hlo & Hhi).
  pose proof (exact_fraction_pos M E) as [Hnum Hden].
  pose proof (exact_fraction_ulps M E HE) as Hu.
  destruct (exact_fraction M E) as [num den]. cbn [fst snd] in *.
  set (u := Zpos M * 2 ^ (E + 1074)) in *.
  set (P := 2 ^ 1074) in *. set (T := 10 ^ F) in *.
  assert (Hu0 : 0 < u) by (apply Z.mul_pos_pos; [lia | apply Z.pow_pos_nonneg; lia]).
  assert (HuT : u <= u * T).
  { rewrite <- (Z.mul_1_r u) at 1. apply Z.mul_le_mono_nonneg_l; lia. }
  assert (HDP : Zpos D * P < 2 ^ 52 * P) by (apply Z.mul_lt_mono_pos_r; assumption).
  assert (Hub : u < 2 ^ 53 * P).
  { change (2 ^ 53) with (2 * 2 ^ 52). lia. }
  destruct (Z.leb_spec (10 ^ 21 * den) num) as [C | C].
  { exfalso.
    assert (num * P < 2 ^ 53 * P * den) by (rewrite Hu; apply Z.mul_lt_mono_pos_r; assumption).
    assert (10 ^ 21 * den * P <= num * P) by (apply Z.mul_le_mono_nonneg_r; lia).
    assert (2 ^ 53 * (den * P) < 10 ^ 21 * (den * P)).
    { apply Z.mul_lt_mono_pos_r; [apply Z.mul_pos_pos|]; assumption. }
    lia. }
  unfold ret. do 2 f_equal. unfold F. rewrite Nat2Z.id. f_equal.
  rewrite (nearest_scaled_eq num den u P (Z.of_nat f)) by (try assumption; exact Hu).
  unfold nearest_scaled. fold F. fold T.
  assert (Hq : (2 * u * T + P) / (2 * P) = Zpos D).
  { symmetry. apply (Z.div_unique _ _ _ (2 * (u * T - Zpos D * P) + P)); lia. }
  rewrite Hq. reflexivity.
Qed.

Lemma fixed_digits_0 (n : N) :
  exists ip,
    fixed_digits n 0 = digits_string ip /\ all_digits ip /\ ip <> []
    /\ digits_value ip = n.
Proof.
  unfold fixed_digits. destruct (decimal_digits_spec n) as (Hv & Ha & Hne).
  exists (repeat 0%N (1 - List.length (decimal_digits n)) ++ decimal_digits n).
  split; [reflexivity|]. split; [|split].
  - apply Forall_app. split; [apply all_digits_zeros | assumption].
  - destruct (decimal_digits n); [congruence|]. intro E. apply app_eq_nil in E.
    destruct E; discriminate.
  - rewrite digits_value_zeros. exact Hv.
Qed.

(** [parseFloat] of what [toFixed(f)] writes, for every [f]. *)
Lemma parseFloat_fixed_digits (neg : bool) (n : N) (f : nat) :
  parseFloat_string ((if neg then [45%N] else []) ++ fixed_digits n f)
  = match n with
    | N0 => if neg then neg_zero else zero
    | Npos D => SF2Prim (round_decimal neg D (- Z.of_nat f))
    end.
Proof.
  destruct f as [| f]; [|apply parseFloat_fixed].
  destruct (fixed_digits_0 n) as (ip & -> & Ha & Hne & Hv).
  rewrite (parseFloat_literal neg _ ip [] 0).
  - cbn [StringNumericValue]. rewrite app_nil_r, Hv. reflexivity.
  - apply digits_string_head_nil; assumption.
  - apply parse_unsigned_integer; assumption.
Qed.

Lemma toFixed_zero (f : nat) :
  (f <= 100)%nat -> Number_toFixed zero (Z.of_nat f) = inr (fixed_digits 0 f).
Proof.
  intro Hf. unfold Number_toFixed.
  destruct (Z.ltb_spec (Z.of_nat f) 0); [lia|].
  destruct (Z.ltb_spec 100 (Z.of_nat f)); [lia|]. cbn [orb].
  rewrite Prim2SF_zero, Nat2Z.id. reflexivity.
Qed.

(** [toFixed(f)] after [parseFloat] is the identity on the decimals of [f]
    decimals that are [writable]. *)
Lemma toFixed_parseFloat_text (neg : bool) (n : N) (f : nat) :
  (f <= 100)%nat -> writable neg n = true ->
  Number_toFixed (parseFloat_string (decimal_text neg n f)) (Z.of_nat f)
  = inr (decimal_text neg n f).
Proof.
  intros Hf Hw. unfold writable in Hw. apply andb_true_iff in Hw.
  destruct Hw as [Hn Hz]. apply Z.ltb_lt in Hn.
  unfold decimal_text. rewrite parseFloat_fixed_digits.
  destruct n as [| D].
  - destruct neg; [discriminate|]. apply toFixed_zero. assumption.
  - apply toFixed_of_decimal; assumption.
Qed.

Lemma free_of_digits_string (c : code_unit) (ds : list N) :
  (c < 48 \/ 57 < c)%N -> all_digits ds -> free_of c (digits_string ds) = true.
Proof.
  intros Hc Ha. apply free_of_spec. intro Hin.
  unfold digits_string in Hin. apply in_map_iff in Hin.
  destruct Hin as (d & Hd & Hin). unfold all_digits in Ha. rewrite Forall_forall in Ha.
  specialize (Ha d Hin). unfold digit_char in Hd. cbv beta in Ha. lia.
Qed.

Lemma free_of_fixed_digits (c : code_unit) (n : N) (f : nat) :
  (c < 45)%N -> free_of c (fixed_digits n f) = true.
Proof.
  intro Hc. destruct f as [| f].
  - destruct (fixed_digits_0 n) as (ip & -> & Ha & _).
    apply free_of_digits_string; [lia | assumption].
  - destruct (fixed_digits_split n f) as (ip & fp & -> & Hi & Hf & _).
    rewrite !free_of_app, !free_of_digits_string by (try assumption; lia).
    unfold free_of. cbn [existsb]. destruct (N.eqb_spec c 46); [lia | reflexivity].
Qed.

Lemma free_of_decimal_text (c : code_unit) (neg : bool) (n : N) (f : nat) :
  (c < 45)%N -> free_of c (decimal_text neg n f) = true.
Proof.
  intro Hc. unfold decimal_text. rewrite free_of_app, free_of_fixed_digits by assumption.
  destruct neg; [|reflexivity]. unfold free_of. cbn [existsb].
  destruct (N.eqb_spec c 45); [lia | reflexivity].
Qed.

(** X8: each input shows the number the form data hold for it.  The [value]
    of an input is [ensureNumber] of that number, which goes through its
    decimal representation and [parseFloat]; the result is the number
    itself for every number but NaN (the default is shown) and [-0] ([0] is
    shown).  In every state of a session no default is ever shown in place
    of what the form data hold. *)
Theorem X8_inputs_show_form_data :
  (forall x d : float,
      ensureNumber (VNumber x) d = if is_nan x then d else drop_zero_sign x)
  /\ (forall (evs : list Event) (st : HomeState),
        run initial_state evs = inr st ->
        input_values st
        = List.map drop_zero_sign
            [st.(formData).(salinity); st.(formData).(temperature);
             st.(formData).(pH); st.(formData).(turbidity);
             st.(formData).(membraneArea); st.(formData).(foulingFactor)]).
Proof.
  split; [exact ensureNumber_number|].
  intros evs st Hrun.
  destruct (run_ok evs initial_state) as (st' & E & Hn & _).
  { split; [reflexivity | cbn; lia]. }
  rewrite Hrun in E. injection E as <-.
  unfold no_NaN in Hn.
  repeat (apply andb_true_iff in Hn; destruct Hn as [Hn ?]).
  rewrite negb_true_iff in *.
  unfold input_values. rewrite !ensureNumber_number.
  cbn [List.map]. repeat match goal with H : is_nan _ = false |- _ => rewrite H; clear H end.
  reflexivity.
Qed.

Lemma X8_inputs_show_form_data_witness :
  exists st,
    run initial_state [Change_pH (str "8.25 "); Change_turbidity (str "-0")] = inr st
    /\ input_values st = [0.68; 22; 8.25; 0; 50; 0.1]%float.
Proof.
  eexists. split; [reflexivity|].
  destruct X8_inputs_show_form_data as [_ H].
  rewrite (H [Change_pH (str "8.25 "); Change_turbidity (str "-0")] _ eq_refl).
  vm_compute. reflexivity.
Defined.

Lemma text_round_trip (neg : bool) (n : N) (f : nat) (F : Z) :
  F = Z.of_nat f -> (f <= 100)%nat -> writable neg n = true ->
  Number_toFixed (parseFloat_string (decimal_text neg n f)) F
  = inr (decimal_text neg n f).
Proof. intros ->. apply toFixed_parseFloat_text. Qed.

(** X9: the dataset table shows the numbers of a CSV line as they are
    written there, when they are written with the decimals of their columns
    (3, 1, 2, 1, 1, 0 and 2) and fewer than [2^52] units each, none of them a
    negative zero: [parseFloat] followed by [toFixed] gives back the very
    text.  The conductivity and the membrane area are read but not shown. *)
Theorem X9_table_shows_numbers_as_written
  (timestamp_text conductivity_text area_text : JSString)
  (s1 s2 s3 s4 s5 s6 s9 : bool) (n1 n2 n3 n4 n5 n6 n9 : N) :
  free_of 44%N timestamp_text = true ->
  free_of 44%N conductivity_text = true ->
  free_of 44%N area_text = true ->
  forallb (fun '(s, n) => writable s n)
    [(s1, n1); (s2, n2); (s3, n3); (s4, n4); (s5, n5); (s6, n6); (s9, n9)] = true ->
  render_row
    (row_of_line
       (join [timestamp_text; decimal_text s1 n1 3; decimal_text s2 n2 1;
              decimal_text s3 n3 2; decimal_text s4 n4 1; decimal_text s5 n5 1;
              decimal_text s6 n6 0; conductivity_text; area_text;
              decimal_text s9 n9 2] 44%N))
  = inr [timestamp_text; decimal_text s1 n1 3; decimal_text s2 n2 1;
         decimal_text s3 n3 2; decimal_text s4 n4 1; decimal_text s5 n5 1;
         decimal_text s6 n6 0; decimal_text s9 n9 2].
Proof.
  intros Ht Hc Ha Hw. cbn [forallb] in Hw.
  repeat (apply andb_true_iff in Hw; let H := fresh "W" in destruct Hw as [H Hw]).
  unfold row_of_line. rewrite split_join.
  2: discriminate.
  2: { repeat constructor; apply free_of_spec;
         try assumption; apply free_of_decimal_text; lia. }
  unfold render_row, parseFloat_element.
  cbn [nth_error salinity_mol_L temperature_C pH_row turbidity_NTU pump_pressure_bar
       permeate_flow_Lh fouling_factor timestamp].
  rewrite (text_round_trip s1 n1 3 3), (text_round_trip s2 n2 1 1),
    (text_round_trip s3 n3 2 2), (text_round_trip s4 n4 1 1),
    (text_round_trip s5 n5 1 1), (text_round_trip s6 n6 0 0),
    (text_round_trip s9 n9 2 2) by (try assumption; try reflexivity; lia).
  reflexivity.
Qed.

Lemma X9_table_shows_numbers_as_written_witness :
  render_row
    (row_of_line (str "2025-01-01 00:00,0.680,22.0,7.70,5.2,60.5,1200,350,50,0.10"))
  = inr [str "2025-01-01 00:00"; str "0.680"; str "22.0"; str "7.70"; str "5.2";
         str "60.5"; str "1200"; str "0.10"].
Proof.
  apply (X9_table_shows_numbers_as_written (str "2025-01-01 00:00") (str "350") (str "50")
           false false false false false false false 680 220 770 52 605 1200 10);
    reflexivity.
Defined.

Lemma calculateMinimumPressure_text (st : HomeState) (fixed : JSString) :
  Number_toFixed (predicted_pressure st.(formData)) 2 = inr fixed ->
  calculateMinimumPressure st
  = inr (setPredictedPressure st (parseFloat_string fixed)).
Proof. intro H. unfold calculateMinimumPressure. rewrite H. reflexivity. Qed.

(** X10: after a click the result panel shows the very text that
    [toFixed(2)] gave for the formula inside [calculateMinimumPressure],
    though that text went through [parseFloat] and a second [toFixed(2)] on
    the way: so it is whenever the text has fewer than [2^52] hundredths and
    is not a negative zero.  A negative value that rounds to zero is the
    exception: for the fouling factor -0.0001 on otherwise neutral inputs the
    text is -0.00 and the panel shows 0.00. *)
Theorem X10_panel_shows_the_rounded_text :
  (forall (st : HomeState) (neg : bool) (n : N),
      Number_toFixed (predicted_pressure st.(formData)) 2 = inr (decimal_text neg n 2) ->
      writable neg n = true ->
      exists st' panel,
        calculateMinimumPressure st = inr st'
        /\ render_result st' = inr (Some panel)
        /\ pressure_text panel = decimal_text neg n 2)
  /\ (let st := form_state initial_state 0 22 7.75 0 50 (-0.0001) in
      Number_toFixed (predicted_pressure st.(formData)) 2 = inr (str "-0.00")
      /\ exists st' panel,
          calculateMinimumPressure st = inr st'
          /\ render_result st' = inr (Some panel)
          /\ pressure_text panel = str "0.00").
Proof.
  split.
  - intros st neg n Hfixed Hw.
    rewrite (calculateMinimumPressure_text st _ Hfixed).
    exists (setPredictedPressure st (parseFloat_string (decimal_text neg n 2))).
    unfold render_result. cbn [setPredictedPressure predictedPressure formData].
    rewrite (text_round_trip neg n 2 2 eq_refl ltac:(lia) Hw). cbn [bind].
    destruct (toFixed_returns st.(formData).(salinity) 3 ltac:(lia)) as [c2 ->].
    destruct (toFixed_returns st.(formData).(temperature) 1 ltac:(lia)) as [c3 ->].
    destruct (toFixed_returns st.(formData).(foulingFactor) 2 ltac:(lia)) as [c4 ->].
    destruct (toFixed_returns st.(formData).(turbidity) 1 ltac:(lia)) as [c5 ->].
    eexists. split; [reflexivity|]. split; reflexivity.
  - cbv zeta. split; [vm_compute; reflexivity|].
    eexists. eexists. split; [vm_compute; reflexivity|].
    split; vm_compute; reflexivity.
Qed.

Lemma X10_panel_shows_the_rounded_text_witness :
  exists st' panel,
    calculateMinimumPressure initial_state = inr st'
    /\ render_result st' = inr (Some panel)
    /\ pressure_text panel = str "69.86".
Proof.
  destruct X10_panel_shows_the_rounded_text as [H _].
  apply (H initial_state false 6986%N); vm_compute; reflexivity.
Defined.

(** ** The formula grows with the salinity *)

(** The formula of [calculateMinimumPressure] as a function of the salinity;
    the other quantities are those the source computes from the remaining
    fields. *)
Lemma formula_grows_with_salinity (s s' T V U P A Fp : float) :
  (0 <=? T)%float = true -> (0 <=? V)%float = true -> (0 <=? A)%float = true ->
  (s <=? s')%float = true ->
  is_nan ((2 * s * 0.083145 * T * 1.6 * V + U + P) * A + Fp)%float = false ->
  is_nan ((2 * s' * 0.083145 * T * 1.6 * V + U + P) * A + Fp)%float = false ->
  ((2 * s * 0.083145 * T * 1.6 * V + U + P) * A + Fp
   <=? (2 * s' * 0.083145 * T * 1.6 * V + U + P) * A + Fp)%float = true.
Proof.
  intros HT HV HA Hs N N'.
  destruct (add_not_nan_inv _ _ N) as [N1 _].
  destruct (add_not_nan_inv _ _ N') as [N1' _].
  destruct (mul_not_nan_inv _ _ N1) as [N2 _].
  destruct (mul_not_nan_inv _ _ N1') as [N2' _].
  destruct (add_not_nan_inv _ _ N2) as [N3 _].
  destruct (add_not_nan_inv _ _ N2') as [N3' _].
  destruct (add_not_nan_inv _ _ N3) as [N4 _].
  destruct (add_not_nan_inv _ _ N3') as [N4' _].
  destruct (mul_not_nan_inv _ _ N4) as [N5 _].
  destruct (mul_not_nan_inv _ _ N4') as [N5' _].
  destruct (mul_not_nan_inv _ _ N5) as [N6 _].
  destruct (mul_not_nan_inv _ _ N5') as [N6' _].
  destruct (mul_not_nan_inv _ _ N6) as [N7 _].
  destruct (mul_not_nan_inv _ _ N6') as [N7' _].
  destruct (mul_not_nan_inv _ _ N7) as [N8 _].
  destruct (mul_not_nan_inv _ _ N7') as [N8' _].
  apply add_mono_l_gen; try assumption.
  apply mul_mono_l_gen; try assumption.
  apply add_mono_l_gen; try assumption.
  apply add_mono_l_gen; try assumption.
  apply mul_mono_l_gen; try assumption.
  apply mul_mono_l_gen; try assumption; [reflexivity|].
  apply mul_mono_l_gen; try assumption.
  apply mul_mono_l_gen; try assumption; [reflexivity|].
  apply mul_mono_r_gen; try assumption. reflexivity.
Qed.

(** X11: holding the other fields fixed, with [membraneArea > 0], a
    temperature for which neither the temperature in kelvin nor the viscosity
    factor is negative (from about -273.15 to 275 degrees), a larger salinity
    never gives a smaller output, when both outputs are numbers.  The bounds the
    inputs show are not enforced by the code: at 300 degrees the viscosity
    factor is negative and more salt lowers the output. *)
Theorem X11_output_grows_with_salinity :
  (forall (st : HomeState) (sal sal' temp ph turb area foul v v' : float),
      (0 <? area)%float = true ->
      (0 <=? temp + 273.15)%float = true ->
      (0 <=? 1 - 0.004 * (temp - 25))%float = true ->
      (sal <=? sal')%float = true ->
      predictor_output (form_state st sal temp ph turb area foul) = Some v ->
      predictor_output (form_state st sal' temp ph turb area foul) = Some v' ->
      is_nan v = false -> is_nan v' = false ->
      (v <=? v')%float = true)
  /\ predictor_output (form_state initial_state 0.68 300 7.7 5.2 50 0.1) = Some 6.1%float
  /\ predictor_output (form_state initial_state 1 300 7.7 5.2 50 0.1) = Some 1.27%float
  /\ (1.27 <? 6.1)%float = true.
Proof.
  split; [|repeat split; vm_compute; reflexivity].
  intros st sal sal' temp ph turb area foul v v' Harea HT HV Hs Hv Hv' N N'.
  rewrite predictor_output_eq in Hv, Hv'. apply some_inj in Hv, Hv'. subst v v'.
  apply round_to_2_decimals_not_nan_inv in N, N'.
  apply round_to_2_decimals_mono.
  set (fd := {| salinity := sal; temperature := temp; pH := ph; turbidity := turb;
                membraneArea := area; foulingFactor := foul |}).
  assert (HA : (0 <=? area_scaling_factor fd)%float = true).
  { apply area_scaling_factor_nonneg; [exact Harea|].
    destruct (add_not_nan_inv _ _ N) as [N1 _].
    destruct (mul_not_nan_inv _ _ N1) as [_ N2]. exact N2. }
  exact (formula_grows_with_salinity sal sal' (temp + 273.15) (1 - 0.004 * (temp - 25))
           (2.5 * turb) (pH_penalty fd) (area_scaling_factor fd) (32 * foul)
           HT HV HA Hs N N').
Qed.

Lemma X11_output_grows_with_salinity_witness :
  (98.97 <=? 203.41)%float = true.
Proof.
  destruct X11_output_grows_with_salinity as [H _].
  apply (H initial_state 0.68 2.0 5 7.7 5.2 50 1.0 98.97 203.41)%float;
    vm_compute; reflexivity.
Defined.

(** ** What was typed is what the panel echoes *)

Lemma parseFloat_decimal_text_not_nan (neg : bool) (n : N) (f : nat) :
  is_nan (parseFloat_string (decimal_text neg n f)) = false.
Proof.
  unfold decimal_text. rewrite parseFloat_fixed_digits. destruct n as [| D].
  - destruct neg; reflexivity.
  - apply is_nan_false. rewrite Prim2SF_SF2Prim by apply round_decimal_valid.
    destruct (round_decimal_round_Z neg D (- Z.of_nat f)) as (g & w & ->).
    apply round_Z_not_nan.
Qed.

Lemma ensureNumber_decimal_text (neg : bool) (n : N) (f : nat) (d : float) :
  ensureNumber (VString (decimal_text neg n f)) d
  = parseFloat_string (decimal_text neg n f).
Proof.
  unfold ensureNumber, isNaN, parseFloat, ToString.
  rewrite parseFloat_decimal_text_not_nan. reflexivity.
Qed.

(** X12: once a pressure has been computed, typing a salinity, temperature,
    fouling factor or turbidity with the decimals the panel uses for it
    (3, 1, 2, 1) makes the panel echo the text as typed, while the pressure
    beside it stays the one of the last click: the panel then shows a
    pressure that was not computed from the parameters it lists. *)
Theorem X12_panel_echoes_typed_text (st : HomeState) (p : float) (neg : bool) (n : N) :
  st.(predictedPressure) = Some p ->
  writable neg n = true ->
  exists old_panel,
    render_result st = inr (Some old_panel)
    /\ (exists panel,
          render_result (onChange_salinity st (decimal_text neg n 3)) = inr (Some panel)
          /\ salinity_text panel = decimal_text neg n 3
          /\ pressure_text panel = pressure_text old_panel)
    /\ (exists panel,
          render_result (onChange_temperature st (decimal_text neg n 1)) = inr (Some panel)
          /\ temperature_text panel = decimal_text neg n 1
          /\ pressure_text panel = pressure_text old_panel)
    /\ (exists panel,
          render_result (onChange_foulingFactor st (decimal_text neg n 2)) = inr (Some panel)
          /\ foulingFactor_text panel = decimal_text neg n 2
          /\ pressure_text panel = pressure_text old_panel)
    /\ (exists panel,
          render_result (onChange_turbidity st (decimal_text neg n 1)) = inr (Some panel)
          /\ turbidity_text panel = decimal_text neg n 1
          /\ pressure_text panel = pressure_text old_panel).
Proof.
  intros Hp Hw.
  destruct (toFixed_returns p 2 ltac:(lia)) as [c1 E1].
  destruct (toFixed_returns st.(formData).(salinity) 3 ltac:(lia)) as [c2 E2].
  destruct (toFixed_returns st.(formData).(temperature) 1 ltac:(lia)) as [c3 E3].
  destruct (toFixed_returns st.(formData).(foulingFactor) 2 ltac:(lia)) as [c4 E4].
  destruct (toFixed_returns st.(formData).(turbidity) 1 ltac:(lia)) as [c5 E5].
  eexists. split.
  { unfold render_result. rewrite Hp, E1, E2, E3, E4, E5. reflexivity. }
  cbn [pressure_text].
  split; [|split; [|split]]; eexists; unfold render_result;
    cbn [onChange_salinity onChange_temperature onChange_foulingFactor onChange_turbidity
         setFormData predictedPressure formData salinity temperature foulingFactor
         turbidity];
    rewrite Hp, E1, ?ensureNumber_decimal_text;
    rewrite ?(text_round_trip neg n 3 3 eq_refl ltac:(lia) Hw),
            ?(text_round_trip neg n 1 1 eq_refl ltac:(lia) Hw),
            ?(text_round_trip neg n 2 2 eq_refl ltac:(lia) Hw);
    rewrite ?E2, ?E3, ?E4, ?E5; cbn [bind ret]; unfold ret;
    (split; [reflexivity|]); split; reflexivity.
Qed.

Lemma X12_panel_echoes_typed_text_witness :
  exists panel,
    render_result (onChange_salinity (setPredictedPressure initial_state 69.86)
                     (str "1.250")) = inr (Some panel)
    /\ salinity_text panel = str "1.250"
    /\ pressure_text panel = str "69.86".
Proof.
  destruct (X12_panel_echoes_typed_text (setPredictedPressure initial_state 69.86)
              69.86 false 1250 eq_refl eq_refl)
    as (old & Eold & (panel & E & Hs & Hpr) & _).
  exists panel. split; [exact E|]. split; [exact Hs|].
  rewrite Hpr. vm_compute in Eold. injection Eold as <-. reflexivity.
Defined.

(** ** Numbers written by [String] are loaded as they are *)

Lemma parseFloat_toString (x : float) :
  parseFloat_string (Number_toString x) = drop_zero_sign x.
Proof.
  pose proof (ensureNumber_number x nan) as H.
  unfold ensureNumber, isNaN, parseFloat, ToString in H. unfold drop_zero_sign.
  destruct (is_nan (parseFloat_string (Number_toString x))) eqn:N.
  - destruct (is_nan x) eqn:Nx.
    + apply is_nan_spec in N, Nx. apply Prim2SF_inj.
      assert (Z0 : (x =? 0)%float = false) by (rewrite eqb_spec, Nx; reflexivity).
      rewrite Z0, N, Nx. reflexivity.
    + rewrite <- H. apply Prim2SF_inj. apply is_nan_spec in N. rewrite N. reflexivity.
  - destruct (is_nan x) eqn:Nx; [|exact H].
    rewrite H in N. discriminate.
Qed.

Lemma free_of_str (c : code_unit) (s : JSString) :
  forallb (fun c' => negb (c =? c')%N) s = true -> free_of c s = true.
Proof.
  intro H. apply free_of_spec. intro Hin. rewrite forallb_forall in H.
  specialize (H c Hin). rewrite N.eqb_refl in H. discriminate.
Qed.

Lemma all_digits_firstn (j : nat) (ds : list N) : all_digits ds -> all_digits (firstn j ds).
Proof.
  intro H. rewrite <- (firstn_skipn j ds) in H. apply Forall_app in H. apply H.
Qed.

Lemma all_digits_skipn (j : nat) (ds : list N) : all_digits ds -> all_digits (skipn j ds).
Proof.
  intro H. rewrite <- (firstn_skipn j ds) in H. apply Forall_app in H. apply H.
Qed.

Lemma free_of_cons (c c' : code_unit) (s : JSString) :
  free_of c (c' :: s) = negb (c =? c')%N && free_of c s.
Proof. unfold free_of. cbn [existsb]. apply negb_orb. Qed.

(** [format_number] writes digits, a point, [e], [+] and [-] only. *)
Lemma free_of_format_number (c : code_unit) (s n : Z) :
  (c < 43 \/ c = 44)%N -> free_of c (format_number s n) = true.
Proof.
  intro Hc. unfold format_number.
  destruct (decimal_digits_spec (Z.to_N s)) as (_ & Ha & _).
  destruct (decimal_digits_spec (Z.to_N (Z.abs (n - 1)))) as (_ & Hae & _).
  set (ds := decimal_digits (Z.to_N s)) in *.
  set (E := decimal_digits (Z.to_N (Z.abs (n - 1)))) in *.
  assert (Hdig : forall l, all_digits l -> free_of c (digits_string l) = true)
    by (intros l Hl; apply free_of_digits_string; [lia | assumption]).
  assert (H46 : (c =? 46)%N = false) by (apply N.eqb_neq; lia).
  assert (H48 : (c =? 48)%N = false) by (apply N.eqb_neq; lia).
  assert (H101 : (c =? 101)%N = false) by (apply N.eqb_neq; lia).
  assert (Hsg : (c =? (if (0 <=? n - 1)%Z then 43 else 45))%N = false)
    by (destruct (0 <=? n - 1); apply N.eqb_neq; lia).
  destruct ((Z.of_nat (List.length ds) <=? n) && (n <=? 21)).
  - rewrite free_of_app, digits_string_zeros, !Hdig
      by (try assumption; apply all_digits_zeros). reflexivity.
  - destruct ((0 <? n) && (n <=? 21)).
    + rewrite !free_of_app, !Hdig
        by (try apply all_digits_firstn; try apply all_digits_skipn; assumption).
      rewrite free_of_cons, H46. reflexivity.
    + destruct ((-6 <? n) && (n <=? 0)).
      * rewrite !free_of_app, digits_string_zeros, !Hdig
          by (try assumption; apply all_digits_zeros).
        rewrite !free_of_cons, H46, H48. reflexivity.
      * destruct ds as [| d rest]; [reflexivity|].
        assert (Hd : all_digits [d]) by (inversion Ha; repeat constructor; assumption).
        assert (Hrest : all_digits rest) by (inversion Ha; assumption).
        destruct rest as [| r rest'].
        -- rewrite !free_of_app, !Hdig by assumption.
           rewrite !free_of_cons, H101, Hsg. reflexivity.
        -- rewrite !free_of_app, !Hdig by assumption.
           rewrite !free_of_cons, H46, H101, Hsg. reflexivity.
Qed.

Lemma free_of_Number_toString (c : code_unit) (x : float) :
  (c < 43 \/ c = 44)%N -> free_of c (Number_toString x) = true.
Proof.
  intro Hc. unfold Number_toString.
  destruct (Prim2SF x) as [s | s | | s m e]; cbn [Number_toString_SF].
  - apply free_of_str. cbn [str list_ascii_of_string List.map forallb].
    destruct (N.eqb_spec c (N_of_ascii "0")); [cbn in *; lia | reflexivity].
  - destruct s; apply free_of_spec; intro Hin; vm_compute in Hin;
      repeat destruct Hin as [Hin | Hin]; try lia; destruct Hin.
  - apply free_of_spec; intro Hin; vm_compute in Hin;
      repeat destruct Hin as [Hin | Hin]; try lia; destruct Hin.
  - destruct (exact_fraction m e) as [num den].
    destruct (shortest_digits _ _ _ _ _ _) as [d n].
    rewrite free_of_app, free_of_format_number by assumption.
    destruct s; [|reflexivity]. rewrite free_of_cons.
    destruct (N.eqb_spec c 45); [lia | reflexivity].
Qed.

(** X13: a CSV line whose nine numbers were written by JavaScript's own
    conversion of numbers to strings is loaded into a row that holds those
    very numbers (a [-0] as [0]), NaN and the infinities included: the
    conversion never writes a comma, and [parseFloat] reads each number back
    exactly. *)
Theorem X13_row_of_written_numbers (timestamp_text : JSString)
  (x1 x2 x3 x4 x5 x6 x7 x8 x9 : float) :
  free_of 44%N timestamp_text = true ->
  row_of_line
    (join (timestamp_text
             :: List.map Number_toString [x1; x2; x3; x4; x5; x6; x7; x8; x9]) 44%N)
  = {| timestamp := timestamp_text;
       salinity_mol_L := drop_zero_sign x1;
       temperature_C := drop_zero_sign x2;
       pH_row := drop_zero_sign x3;
       turbidity_NTU := drop_zero_sign x4;
       pump_pressure_bar := drop_zero_sign x5;
       permeate_flow_Lh := drop_zero_sign x6;
       permeate_conductivity_uScm := drop_zero_sign x7;
       membrane_area_m2 := drop_zero_sign x8;
       fouling_factor := drop_zero_sign x9 |}.
Proof.
  intro Ht. unfold row_of_line. rewrite split_join.
  2: discriminate.
  2: { cbn [List.map]. repeat constructor; apply free_of_spec;
         try assumption; apply free_of_Number_toString; lia. }
  unfold parseFloat_element. cbn [List.map nth_error].
  rewrite !parseFloat_toString. reflexivity.
Qed.

Lemma X13_row_of_written_numbers_witness :
  row_of_line (str "t0,0.68,22,7.7,5.2,60.5,1200,1e+21,Infinity,NaN")
  = {| timestamp := str "t0"; salinity_mol_L := 0.68; temperature_C := 22;
       pH_row := 7.7; turbidity_NTU := 5.2; pump_pressure_bar := 60.5;
       permeate_flow_Lh := 1200; permeate_conductivity_uScm := 1e21;
       membrane_area_m2 := infinity; fouling_factor := nan |}%float.
Proof.
  exact (X13_row_of_written_numbers (str "t0") 0.68 22 7.7 5.2 60.5 1200 1e21
           infinity nan eq_refl).
Defined.

(** ** Carriage returns at the ends of lines *)

Lemma span_digits_prefix (s : JSString) :
  exists pre,
    s = pre ++ snd (span_digits s) /\ forallb literal_char pre = true
    /\ List.length (fst (span_digits s)) = List.length pre.
Proof.
  induction s as [| c s (pre & E & H & L)].
  - exists []. repeat split.
  - cbn [span_digits]. destruct (is_digit c) eqn:D.
    + destruct (span_digits s) as [ds r]. cbn [fst snd] in *.
      exists (c :: pre). cbn [app forallb List.length]. unfold literal_char at 1.
      rewrite D, H, <- E, L. repeat split.
    + exists []. repeat split.
Qed.

(** The optional sign before a literal or an exponent. *)
Lemma sign_cases (s : JSString) :
  exists (neg : bool) (u : JSString),
    match s with
    | 43%N :: t => (false, t)
    | 45%N :: t => (true, t)
    | _ => (false, s)
    end = (neg, u)
    /\ (s = u \/ s = 43%N :: u \/ s = 45%N :: u).
Proof.
  destruct s as [| c s]; [exists false, []; split; [reflexivity | left; reflexivity]|].
  destruct c as [| p]; [eexists _, _; split; [reflexivity | left; reflexivity]|].
  do 6 (destruct p as [p | p |];
        try (eexists _, _; split; [reflexivity | left; reflexivity]));
    eexists _, _; (split; [reflexivity|]);
    first [right; left; reflexivity | right; right; reflexivity].
Qed.

Lemma literal_chars_signed (s u : JSString) :
  s = u \/ s = 43%N :: u \/ s = 45%N :: u ->
  forallb literal_char u = true -> forallb literal_char s = true.
Proof. intros [-> | [-> | ->]] H; [exact H | |]; cbn [forallb]; rewrite H; reflexivity. Qed.

Lemma parse_ExponentPart_chars (s : JSString) (e : Z) :
  parse_ExponentPart s = Some e -> forallb literal_char s = true.
Proof.
  destruct s as [| c s1]; [reflexivity|]. cbn [parse_ExponentPart].
  destruct ((c =? 101) || (c =? 69))%N eqn:Ec; [|discriminate].
  match goal with
  | |- context [let '(_, _) := ?m in _] => destruct m as [neg s2] eqn:Em
  end.
  destruct (sign_cases s1) as (neg' & u & E' & Hs).
  pose proof (eq_trans (eq_sym Em) E') as X. injection X as <- <-.
  destruct (span_digits_prefix s2) as (pre & E & Hpre & _).
  destruct (span_digits s2) as [[| d ds] r]; [discriminate|].
  destruct r; [|discriminate]. intros _. cbn [snd] in E. rewrite app_nil_r in E.
  subst pre. cbn [forallb]. rewrite (literal_chars_signed s1 s2 Hs Hpre), andb_true_r.
  unfold literal_char. apply orb_true_iff. right.
  apply orb_true_iff in Ec. destruct Ec as [Ec | Ec]; apply N.eqb_eq in Ec;
    subst c; reflexivity.
Qed.

Lemma parse_unsigned_chars (s : JSString) (l : list N * list N * Z) :
  parse_StrUnsignedDecimalLiteral s = Some l -> forallb literal_char s = true.
Proof.
  unfold parse_StrUnsignedDecimalLiteral.
  destruct (span_digits_prefix s) as (pre1 & E1 & H1 & _).
  destruct (span_digits s) as [ip r1]. cbn [snd] in E1.
  assert (Hpoint : forall r2 (o : option (list N * list N * Z)),
            r1 = 46%N :: r2 ->
            (o = Some l -> exists e, parse_ExponentPart (snd (span_digits r2)) = Some e) ->
            o = Some l -> forallb literal_char s = true).
  { intros r2 o -> Ho Hl. destruct (Ho Hl) as (e & He).
    destruct (span_digits_prefix r2) as (pre2 & E2 & H2 & _).
    rewrite E1, E2, forallb_app. cbn [forallb]. rewrite forallb_app, H1, H2.
    rewrite (parse_ExponentPart_chars _ e He). reflexivity. }
  assert (Hexp : forall (o : option (list N * list N * Z)),
            (o = Some l -> exists e, parse_ExponentPart r1 = Some e) ->
            o = Some l -> forallb literal_char s = true).
  { intros o Ho Hl. destruct (Ho Hl) as (e & He).
    rewrite E1, forallb_app, H1, (parse_ExponentPart_chars _ e He). reflexivity. }
  destruct ip as [| i ip]; destruct r1 as [| c r2]; try discriminate.
  - destruct (N.eq_dec c 46) as [-> | Hc].
    + destruct (span_digits r2) as [fp r3] eqn:E3.
      destruct fp as [| f fp]; [discriminate|].
      apply (Hpoint r2); [reflexivity|]. rewrite E3. cbn [snd].
      destruct (parse_ExponentPart r3) as [e |]; [eauto | discriminate].
    + replace (match c with 46%N => _ | _ => None end) with (@None (list N * list N * Z));
        [discriminate|].
      destruct c as [| p]; [reflexivity|].
      do 6 (destruct p as [p | p |]; try reflexivity). congruence.
  - apply Hexp. cbn [parse_ExponentPart]. eauto.
  - destruct (N.eq_dec c 46) as [-> | Hc].
    + destruct (span_digits r2) as [fp r3] eqn:E3.
      apply (Hpoint r2); [reflexivity|]. rewrite E3. cbn [snd].
      destruct (parse_ExponentPart r3) as [e |]; [eauto | discriminate].
    + apply Hexp.
      replace (match c with
               | 46%N => let (fp, r3) := span_digits r2 in
                         option_map (fun e => (i :: ip, fp, e)) (parse_ExponentPart r3)
               | _ => option_map (fun e => (i :: ip, [], e))
                        (parse_ExponentPart (c :: r2))
               end)
        with (option_map (fun e => (i :: ip, @nil N, e)) (parse_ExponentPart (c :: r2))).
      * destruct (parse_ExponentPart (c :: r2)) as [e |]; [eauto | discriminate].
      * destruct c as [| p]; [reflexivity|].
        do 6 (destruct p as [p | p |]; try reflexivity). congruence.
Qed.

(** A StrDecimalLiteral is made of [literal_char]s. *)
Lemma parse_literal_chars (s : JSString) (l : StrDecimalLiteral) :
  parse_StrDecimalLiteral s = Some l -> forallb literal_char s = true.
Proof.
  unfold parse_StrDecimalLiteral.
  match goal with
  | |- context [let '(_, _) := ?m in _] => destruct m as [neg u] eqn:Em
  end.
  destruct (sign_cases s) as (neg' & u' & E' & Hs).
  pose proof (eq_trans (eq_sym Em) E') as X. injection X as <- <-.
  intro H. apply (literal_chars_signed s u Hs).
  unfold JSString_eqb in H. destruct (list_eq_dec N.eq_dec u Infinity_string) as [-> | _].
  - reflexivity.
  - destruct (parse_StrUnsignedDecimalLiteral u) as [t |] eqn:Eu; [|discriminate].
    exact (parse_unsigned_chars u t Eu).
Qed.

Lemma firstn_app_le {A : Type} (j : nat) (a b : list A) :
  (j <= List.length a)%nat -> firstn j (a ++ b) = firstn j a.
Proof.
  intro H. rewrite firstn_app.
  replace (j - List.length a)%nat with 0%nat by lia. cbn [firstn]. apply app_nil_r.
Qed.

Lemma longest_prefix_app {A : Type} (p : JSString -> option A) (a b : JSString) (j : nat) :
  (j <= List.length a)%nat -> longest_prefix p (a ++ b) j = longest_prefix p a j.
Proof.
  induction j as [| j IH]; intro H; cbn [longest_prefix];
    rewrite firstn_app_le by lia; [reflexivity|].
  rewrite IH by lia. reflexivity.
Qed.

(** A code unit that cannot be part of a number, put after a text, changes
    nothing of what [parseFloat] reads. *)
Lemma parseFloat_trailing_char (s : JSString) (c : code_unit) :
  literal_char c = false ->
  parseFloat_string (s ++ [c]) = parseFloat_string s.
Proof.
  intro Hc. unfold parseFloat_string.
  assert (Hnone : forall t, parse_StrDecimalLiteral (t ++ [c]) = None).
  { intro t. destruct (parse_StrDecimalLiteral (t ++ [c])) as [l |] eqn:E; [|reflexivity].
    apply parse_literal_chars in E. rewrite forallb_app in E. cbn [forallb] in E.
    rewrite Hc, andb_false_r in E. discriminate. }
  rewrite trim_start_app. destruct (forallb is_white_space s) eqn:Hs.
  - rewrite (trim_start_all s Hs). cbn [trim_start].
    destruct (is_white_space c); [reflexivity|].
    cbn [List.length longest_prefix firstn].
    pose proof (Hnone []) as H0. cbn [app] in H0. rewrite H0. reflexivity.
  - set (t := trim_start s). rewrite length_app. cbn [List.length].
    replace (List.length t + 1)%nat with (S (List.length t)) by lia.
    cbn [longest_prefix].
    rewrite firstn_all2 by (rewrite length_app; cbn [List.length]; lia).
    rewrite Hnone, longest_prefix_app by lia. reflexivity.
Qed.

Lemma split_app_no_sep (s tail : JSString) (sep : code_unit) :
  ~ In sep tail ->
  exists pieces piece,
    split s sep = pieces ++ [piece]
    /\ split (s ++ tail) sep = pieces ++ [piece ++ tail].
Proof.
  intro Ht. induction s as [| c s (pieces & piece & E1 & E2)].
  - exists [], []. split; [reflexivity|]. cbn [app]. apply split_no_sep. assumption.
  - cbn [app split]. destruct (c =? sep)%N.
    + exists ([] :: pieces), piece. rewrite E1, E2. split; reflexivity.
    + rewrite E1, E2. destruct pieces as [| q pieces].
      * exists [], (c :: piece). split; reflexivity.
      * exists ((c :: q) :: pieces), piece. split; reflexivity.
Qed.

Lemma parseFloat_element_app (pieces : list JSString) (piece : JSString)
  (c : code_unit) (i : nat) :
  literal_char c = false ->
  parseFloat_element (pieces ++ [piece ++ [c]]) i
  = parseFloat_element (pieces ++ [piece]) i.
Proof.
  intro Hc. unfold parseFloat_element.
  destruct (Nat.lt_trichotomy i (List.length pieces)) as [H | [H | H]].
  - rewrite !nth_error_app1 by assumption. reflexivity.
  - subst i. rewrite !nth_error_app2, Nat.sub_diag by lia. cbn [nth_error].
    apply parseFloat_trailing_char. assumption.
  - rewrite !nth_error_app2 by lia.
    destruct (i - List.length pieces)%nat as [| k] eqn:E; [lia|].
    cbn [nth_error]. destruct k; reflexivity.
Qed.

(** X14: a carriage return at the end of a data line (a file with Windows
    line ends, which [split] on the line feed leaves in place) changes
    nothing of the row, as long as the line has a comma: the carriage return
    stays on the last value, where [parseFloat] passes over it; so does any
    other code unit that cannot be part of a number. *)
Theorem X14_carriage_return_is_harmless (line : JSString) (c : code_unit) :
  literal_char c = false -> c <> 44%N ->
  free_of 44%N line = false ->
  row_of_line (line ++ [c]) = row_of_line line.
Proof.
  intros Hc H44 Hcomma. unfold row_of_line.
  destruct (split_app_no_sep line [c] 44%N) as (pieces & piece & E1 & E2).
  { intros [E | []]. congruence. }
  rewrite E1, E2, !parseFloat_element_app by assumption.
  destruct pieces as [| q pieces]; [|reflexivity].
  exfalso. cbn [app] in E1.
  assert (Hj : join (split line 44%N) 44%N = line) by apply join_split.
  pose proof (split_pieces_no_sep line 44%N) as Hp. rewrite E1 in Hj, Hp.
  cbn [join] in Hj. subst piece. inversion Hp as [| ? ? Hq _]; subst.
  apply free_of_spec in Hq. congruence.
Qed.

Lemma X14_carriage_return_is_harmless_witness :
  row_of_line (str "t0,0.68,22,7.7,5.2,60.5,1200,350,50,0.1" ++ [13%N])
  = row_of_line (str "t0,0.68,22,7.7,5.2,60.5,1200,350,50,0.1").
Proof.
  apply X14_carriage_return_is_harmless; [reflexivity | discriminate | reflexivity].
Defined.

(** ** The formula grows with the distance of the pH from 7.75 *)

Lemma SFsub_add_opp (x y : spec_float) : SF64sub x y = SF64add x (SFopp y).
Proof.
  destruct x as [[|] | [|] | | sx mx ex]; destruct y as [[|] | [|] | | sy my ey];
    try reflexivity.
  unfold SF64sub, SFsub, SF64add, SFadd. cbn [SFopp]. f_equal.
  destruct sy; cbn [negb cond_Zopp]; lia.
Qed.

Lemma valid_SFopp (x : spec_float) : valid_binary (SFopp x) = valid_binary x.
Proof. destruct x; reflexivity. Qed.

Lemma sub_nan_false (a b : float) :
  is_nan (a - b) = false -> SF64add (Prim2SF a) (SFopp (Prim2SF b)) <> S754_nan.
Proof. rewrite is_nan_false, sub_spec, SFsub_add_opp. trivial. Qed.

Lemma sub_mono_l_gen (a a' c : float) :
  (a <=? a')%float = true ->
  is_nan (a - c) = false -> is_nan (a' - c) = false ->
  (a - c <=? a' - c)%float = true.
Proof.
  intros H N N'. rewrite leb_spec in *. rewrite !sub_spec, !SFsub_add_opp.
  apply SFadd_mono_l_gen; try apply Prim2SF_valid; try assumption.
  - rewrite valid_SFopp. apply Prim2SF_valid.
  - apply sub_nan_false. assumption.
  - apply sub_nan_false. assumption.
Qed.

Lemma SFabs_mono_nonneg (X Y : spec_float) :
  SFleb (S754_zero false) X = true -> SFleb X Y = true ->
  SFleb (SFabs X) (SFabs Y) = true.
Proof.
  destruct X as [[|] | [|] | | [|] mx ex]; try discriminate;
    destruct Y as [[|] | [|] | | [|] my ey]; try discriminate; cbn [SFabs];
    intros _ H; try reflexivity; exact H.
Qed.

Lemma SFabs_mono_nonpos (X Y : spec_float) :
  SFleb X (S754_zero false) = true -> SFleb Y X = true ->
  SFleb (SFabs X) (SFabs Y) = true.
Proof.
  destruct X as [[|] | [|] | | [|] mx ex]; try discriminate;
    destruct Y as [[|] | [|] | | [|] my ey]; try discriminate; cbn [SFabs];
    intros _ H; try reflexivity.
  apply SFleb_finite_neg_inv in H. apply SFleb_finite_pos.
  destruct H as [H | [H1 H2]]; [left; assumption | right; split; [lia | assumption]].
Qed.

Lemma abs_not_nan_inv (x : float) : is_nan (abs x) = false -> is_nan x = false.
Proof.
  rewrite !is_nan_false, abs_spec. intros H E. apply H. rewrite E. reflexivity.
Qed.

Lemma sub_not_nan_inv (a b : float) :
  is_nan (a - b) = false -> is_nan a = false /\ is_nan b = false.
Proof.
  rewrite !is_nan_false, sub_spec. intro H. split; intro E; apply H; rewrite E.
  - reflexivity.
  - destruct (Prim2SF a); reflexivity.
Qed.

(** On either side of [c], the distance to [c] grows with the distance. *)
Lemma distance_grows (c p p' : float) :
  (c - c =? 0)%float = true ->
  ((c <=? p)%float = true /\ (p <=? p')%float = true)
  \/ ((p' <=? p)%float = true /\ (p <=? c)%float = true) ->
  is_nan (p - c) = false -> is_nan (p' - c) = false ->
  (abs (p - c) <=? abs (p' - c))%float = true.
Proof.
  intros Hcc H N N'.
  assert (Ncc : is_nan (c - c) = false).
  { apply eqb_zero in Hcc. destruct Hcc as [s E]. apply is_nan_false. rewrite E. discriminate. }
  assert (Z0 : forall x, (c - c <=? x)%float = (0 <=? x)%float).
  { intro x. apply eqb_zero in Hcc. destruct Hcc as [s E].
    rewrite !leb_spec, E. change (Prim2SF 0) with (S754_zero false).
    destruct s; destruct (Prim2SF x) as [[|] | [|] | | [|] ? ?]; reflexivity. }
  assert (Z1 : forall x, (x <=? c - c)%float = (x <=? 0)%float).
  { intro x. apply eqb_zero in Hcc. destruct Hcc as [s E].
    rewrite !leb_spec, E. change (Prim2SF 0) with (S754_zero false).
    destruct s; destruct (Prim2SF x) as [[|] | [|] | | [|] ? ?]; reflexivity. }
  destruct H as [[H1 H2] | [H1 H2]].
  - pose proof (sub_mono_l_gen c p c H1 Ncc N) as L1. rewrite Z0 in L1.
    pose proof (sub_mono_l_gen p p' c H2 N N') as L2.
    rewrite leb_spec in *. rewrite !abs_spec.
    apply SFabs_mono_nonneg; assumption.
  - pose proof (sub_mono_l_gen p c c H2 N Ncc) as L1. rewrite Z1 in L1.
    pose proof (sub_mono_l_gen p' p c H1 N' N) as L2.
    rewrite leb_spec in *. rewrite !abs_spec.
    apply SFabs_mono_nonpos; assumption.
Qed.

(** X15: the output is V-shaped in the pH: holding the other fields fixed,
    with [membraneArea > 0], moving the pH away from 7.75, on either side of
    it, never gives a smaller output, when both outputs are numbers. *)
Theorem X15_output_grows_away_from_optimal_pH
  (st : HomeState) (sal temp ph ph' turb area foul v v' : float) :
  (0 <? area)%float = true ->
  ((7.75 <=? ph)%float = true /\ (ph <=? ph')%float = true)
  \/ ((ph' <=? ph)%float = true /\ (ph <=? 7.75)%float = true) ->
  predictor_output (form_state st sal temp ph turb area foul) = Some v ->
  predictor_output (form_state st sal temp ph' turb area foul) = Some v' ->
  is_nan v = false -> is_nan v' = false ->
  (v <=? v')%float = true.
Proof.
  intros Harea Hph Hv Hv' N N'.
  rewrite predictor_output_eq in Hv, Hv'. apply some_inj in Hv, Hv'. subst v v'.
  apply round_to_2_decimals_not_nan_inv in N, N'.
  apply round_to_2_decimals_mono.
  set (fd := {| salinity := sal; temperature := temp; pH := ph; turbidity := turb;
                membraneArea := area; foulingFactor := foul |}).
  set (fd' := {| salinity := sal; temperature := temp; pH := ph'; turbidity := turb;
                 membraneArea := area; foulingFactor := foul |}).
  change (predicted_pressure (formData (form_state st sal temp ph turb area foul)))
    with ((pressure_after_temp fd + 2.5 * turb + 6.0 * abs (ph - 7.75))
          * area_scaling_factor fd + 32 * foul)%float in *.
  change (predicted_pressure (formData (form_state st sal temp ph' turb area foul)))
    with ((pressure_after_temp fd + 2.5 * turb + 6.0 * abs (ph' - 7.75))
          * area_scaling_factor fd + 32 * foul)%float in *.
  destruct (add_not_nan_inv _ _ N) as [N1 _].
  destruct (add_not_nan_inv _ _ N') as [N1' _].
  destruct (mul_not_nan_inv _ _ N1) as [N2 NA].
  destruct (mul_not_nan_inv _ _ N1') as [N2' _].
  destruct (add_not_nan_inv _ _ N2) as [_ N3].
  destruct (add_not_nan_inv _ _ N2') as [_ N3'].
  destruct (mul_not_nan_inv _ _ N3) as [_ N4].
  destruct (mul_not_nan_inv _ _ N3') as [_ N4'].
  apply abs_not_nan_inv in N4, N4'.
  apply add_mono_l_gen; try assumption.
  apply mul_mono_l_gen; try assumption.
  - apply area_scaling_factor_nonneg; assumption.
  - apply add_mono_r_gen; try assumption.
    apply mul_mono_r_gen; try assumption; [reflexivity|].
    apply distance_grows; try assumption. reflexivity.
Qed.

Lemma X15_output_grows_away_from_optimal_pH_witness :
  (69.86 <=? 83.52)%float = true.
Proof.
  apply (X15_output_grows_away_from_optimal_pH initial_state 0.68 22 7.7 5.4 5.2 50 0.1
           69.86 83.52)%float;
    try (vm_compute; reflexivity).
  right. split; vm_compute; reflexivity.
Defined.
